(** * Learning-path post-processing and local persistence (utils.py)

    A shallow embedding of the text pipeline of [utils.py]
    ([concatenate_messages], [sanitize_learning_path_text],
    [extract_days_and_questions]), of its JSON persistence
    ([load_progress], [save_progress], [load_history],
    [save_history_record]), of [export_to_pdf], and of the progress
    display and the day tracking of [app.py], with the properties the
    specification states about them and further properties of the code.

    Texts are Python [str] values restricted to code points below 256: a
    text is a list of [ascii], each one code point.  On that range the
    classes used by the source are finite and written out below
    ([str.isspace], the line boundaries of [str.splitlines], [\d]). *)

From Stdlib Require DecimalString DecimalNat.
From Stdlib Require Import Ascii String Bool Arith Lia ZArith List.
Import ListNotations.

Set Implicit Arguments.
Local Open Scope list_scope.

(** ** Python strings *)

Definition text := list ascii.

Definition lit (s : string) : text := list_ascii_of_string s.

Definition LF : ascii := "010"%char.
Definition CR : ascii := "013"%char.
Definition TAB : ascii := "009"%char.
Definition SP : ascii := " "%char.

Definition code (c : ascii) : nat := nat_of_ascii c.

Definition ascii_eqb (a b : ascii) : bool := Ascii.eqb a b.

(** [str.isspace] on one code point below 256; the class [\s] of [re] on
    [str] patterns is the same set. *)
Definition is_space (c : ascii) : bool :=
  let n := code c in
  ((9 <=? n) && (n <=? 13)) || ((28 <=? n) && (n <=? 32))
  || (n =? 133) || (n =? 160).

(** The class [\d] below 256. *)
Definition is_digit (c : ascii) : bool :=
  let n := code c in (48 <=? n) && (n <=? 57).

(** Line boundaries of [str.splitlines] below 256. *)
Definition is_linebreak (c : ascii) : bool :=
  let n := code c in
  ((10 <=? n) && (n <=? 13)) || ((28 <=? n) && (n <=? 30)) || (n =? 133).

Definition is_upper (c : ascii) : bool :=
  let n := code c in (65 <=? n) && (n <=? 90).

Definition is_lower (c : ascii) : bool :=
  let n := code c in (97 <=? n) && (n <=? 122).

(** Lower-casing of the ASCII letters, which is all that [re.IGNORECASE]
    does to the ASCII literals of the patterns below on this range. *)
Definition lower (c : ascii) : ascii :=
  if is_upper c then ascii_of_nat (code c + 32) else c.

Definition mem_char (c : ascii) (cs : list ascii) : bool :=
  existsb (ascii_eqb c) cs.

Fixpoint dropwhile (p : ascii -> bool) (l : text) : text :=
  match l with
  | [] => []
  | c :: t => if p c then dropwhile p t else l
  end.

Definition lstrip_by (p : ascii -> bool) (l : text) : text := dropwhile p l.
Definition rstrip_by (p : ascii -> bool) (l : text) : text :=
  rev (dropwhile p (rev l)).
Definition strip_by (p : ascii -> bool) (l : text) : text :=
  rstrip_by p (lstrip_by p l).

(** [s.strip()] *)
Definition strip (l : text) : text := strip_by is_space l.

(** [s.strip(chars)] *)
Definition strip_chars (cs : list ascii) (l : text) : text :=
  strip_by (fun c => mem_char c cs) l.

(** [s.splitlines()]: [after_cr] says that the character before was a
    carriage return, so that a line feed here belongs to the same
    boundary. *)
Fixpoint lines_from (after_cr : bool) (l : text) : list text :=
  match l with
  | [] => []
  | c :: t =>
      if after_cr && ascii_eqb c LF then lines_from false t
      else if is_linebreak c then [] :: lines_from (ascii_eqb c CR) t
      else match lines_from false t with
           | [] => [[c]]
           | l1 :: ls => (c :: l1) :: ls
           end
  end.

Definition splitlines (l : text) : list text := lines_from false l.

(** [sep.join(parts)] *)
Fixpoint join (sep : text) (parts : list text) : text :=
  match parts with
  | [] => []
  | [p] => p
  | p :: ps => p ++ sep ++ join sep ps
  end.

Fixpoint text_eqb (a b : text) : bool :=
  match a, b with
  | [], [] => true
  | x :: a', y :: b' => ascii_eqb x y && text_eqb a' b'
  | _, _ => false
  end.

(** [s.startswith(p)] *)
Fixpoint startswith (p s : text) : bool :=
  match p, s with
  | [], _ => true
  | x :: p', y :: s' => ascii_eqb x y && startswith p' s'
  | _ :: _, [] => false
  end.

(** [s.endswith(p)] *)
Definition endswith (p s : text) : bool := startswith (rev p) (rev s).

(** [p in s] *)
Fixpoint contains (p s : text) : bool :=
  startswith p s ||
  match s with
  | [] => false
  | _ :: s' => contains p s'
  end.

(** [s.split(sep)[0]] for a non-empty [sep]: the text before the first
    occurrence of [sep], the whole text when there is none. *)
Fixpoint before_first (sep s : text) : text :=
  match s with
  | [] => []
  | c :: s' => if startswith sep s then [] else c :: before_first sep s'
  end.

(** [l[-n:]] for [n > 0] *)
Definition lastn {A} (n : nat) (l : list A) : list A :=
  skipn (length l - n) l.

(** [not s], the truth value of a text or of a list *)
Definition is_empty {A} (s : list A) : bool :=
  match s with [] => true | _ => false end.

(** ** Regular expressions of [re]

    The patterns of the source use single-character classes, greedy and
    lazy repetition of such classes, optional parts, capture groups, one
    look-ahead, [^] and [$], under the flags [IGNORECASE], [MULTILINE]
    and [DOTALL].  The matcher is the backtracking matcher of [re]: it tries
    alternatives in priority order and returns the first way to match. *)

Inductive cset : Type :=
| CChar (c : ascii)           (* a literal character *)
| CAny                        (* .      *)
| CSpace                      (* \s     *)
| CNotSpace                   (* \S     *)
| CDigit                      (* \d     *)
| CAll                        (* [\s\S] *)
| COneOf (cs : list ascii)    (* [...]  *)
| CNoneOf (cs : list ascii).  (* [^...] *)

Inductive re : Type :=
| Eps
| Atom (a : cset)
| Seq (r1 r2 : re)
| Alt (r1 r2 : re)            (* r1|r2 *)
| Star (a : cset)             (* a*    *)
| Plus (a : cset)             (* a+    *)
| StarLazy (a : cset)         (* a*?   *)
| Opt (r : re)                (* r?    *)
| Group (n : nat) (r : re)    (* (r), the n-th group *)
| Ahead (r : re)              (* (?=r) *)
| Bol                         (* ^     *)
| Eol.                        (* $     *)

Record flags : Type := Flags {
  ignorecase : bool;
  multiline : bool;
  dotall : bool
}.

Definition no_flags : flags := Flags false false false.
Definition flag_i : flags := Flags true false false.
Definition flag_is : flags := Flags true false true.
Definition flag_im : flags := Flags true true false.

Declare Scope re_scope.
Delimit Scope re_scope with re.
Bind Scope re_scope with re.
Infix ";;" := Seq (at level 61, right associativity) : re_scope.

(** A literal string of the pattern. *)
Fixpoint lits (s : string) : re :=
  match s with
  | EmptyString => Eps
  | String c EmptyString => Atom (CChar c)
  | String c s' => Seq (Atom (CChar c)) (lits s')
  end.

Definition accepts (f : flags) (a : cset) (c : ascii) : bool :=
  match a with
  | CChar x => if ignorecase f then ascii_eqb (lower c) (lower x)
               else ascii_eqb c x
  | CAny => dotall f || negb (ascii_eqb c LF)
  | CSpace => is_space c
  | CNotSpace => negb (is_space c)
  | CDigit => is_digit c
  | CAll => true
  | COneOf cs => mem_char c cs
  | CNoneOf cs => negb (mem_char c cs)
  end.

(** A position of the matcher in the subject: the offset, the character
    before it (none at offset 0), the characters from it on, and the spans
    of the groups closed so far. *)
Record mstate : Type := MState {
  pos : nat;
  prev : option ascii;
  rest : text;
  caps : list (nat * (nat * nat))
}.

Definition start_state (s : text) : mstate := MState 0 None s [].

Definition step (p : ascii -> bool) (s : mstate) : option mstate :=
  match rest s with
  | c :: t => if p c then Some (MState (S (pos s)) (Some c) t (caps s))
              else None
  | [] => None
  end.

Definition set_cap (n : nat) (span : nat * nat) (s : mstate) : mstate :=
  MState (pos s) (prev s) (rest s) ((n, span) :: caps s).

(** [^]: the start of the subject, and with [MULTILINE] also after each
    line feed. *)
Definition at_bol (f : flags) (s : mstate) : bool :=
  match prev s with
  | None => true
  | Some c => multiline f && ascii_eqb c LF
  end.

(** [$]: the end of the subject or just before a line feed that ends it,
    and with [MULTILINE] before each line feed. *)
Definition at_eol (f : flags) (s : mstate) : bool :=
  match rest s with
  | [] => true
  | c :: t => ascii_eqb c LF && (multiline f || is_empty t)
  end.

Section Matcher.
Variable A : Type.

(** [a*] greedy: the longest run first, giving characters back one at a
    time while the continuation fails. *)
Fixpoint star_greedy (p : ascii -> bool) (l : text) (n : nat)
    (pv : option ascii) (cp : list (nat * (nat * nat)))
    (k : mstate -> option A) : option A :=
  match l with
  | c :: t =>
      if p c then
        match star_greedy p t (S n) (Some c) cp k with
        | Some x => Some x
        | None => k (MState n pv l cp)
        end
      else k (MState n pv l cp)
  | [] => k (MState n pv [] cp)
  end.

(** [a*?] lazy: the shortest run first. *)
Fixpoint star_lazy (p : ascii -> bool) (l : text) (n : nat)
    (pv : option ascii) (cp : list (nat * (nat * nat)))
    (k : mstate -> option A) : option A :=
  match k (MState n pv l cp) with
  | Some x => Some x
  | None =>
      match l with
      | c :: t => if p c then star_lazy p t (S n) (Some c) cp k else None
      | [] => None
      end
  end.

Definition on_state (g : text -> nat -> option ascii ->
                         list (nat * (nat * nat)) ->
                         (mstate -> option A) -> option A)
    (s : mstate) (k : mstate -> option A) : option A :=
  g (rest s) (pos s) (prev s) (caps s) k.

Fixpoint run (f : flags) (r : re) (s : mstate)
    (k : mstate -> option A) : option A :=
  match r with
  | Eps => k s
  | Atom a =>
      match step (accepts f a) s with
      | Some s' => k s'
      | None => None
      end
  | Seq r1 r2 => run f r1 s (fun s' => run f r2 s' k)
  | Alt r1 r2 =>
      match run f r1 s k with
      | Some x => Some x
      | None => run f r2 s k
      end
  | Star a => on_state (star_greedy (accepts f a)) s k
  | Plus a =>
      match step (accepts f a) s with
      | Some s' => on_state (star_greedy (accepts f a)) s' k
      | None => None
      end
  | StarLazy a => on_state (star_lazy (accepts f a)) s k
  | Opt r1 =>
      match run f r1 s k with
      | Some x => Some x
      | None => k s
      end
  | Group n r1 =>
      run f r1 s (fun s' => k (set_cap n (pos s, pos s') s'))
  | Ahead r1 => run f r1 s (fun _ => k s)
  | Bol => if at_bol f s then k s else None
  | Eol => if at_eol f s then k s else None
  end.
End Matcher.

(** A match object: [m.start()], [m.end()] and the group spans. *)
Record rmatch : Type := RMatch {
  m_start : nat;
  m_end : nat;
  m_caps : list (nat * (nat * nat))
}.

(** The pattern matched at one position of the subject. *)
Definition match_here (f : flags) (r : re) (s : mstate) : option rmatch :=
  run f r (MState (pos s) (prev s) (rest s) [])
      (fun s' => Some (RMatch (pos s) (pos s') (caps s'))).

(** [re.match(r, s, flags)] *)
Definition re_match (f : flags) (r : re) (s : text) : option rmatch :=
  match_here f r (start_state s).

Fixpoint search_from (f : flags) (r : re) (n : nat) (pv : option ascii)
    (l : text) : option rmatch :=
  match match_here f r (MState n pv l []) with
  | Some m => Some m
  | None =>
      match l with
      | [] => None
      | c :: t => search_from f r (S n) (Some c) t
      end
  end.

(** [re.search(r, s, flags)]: the match at the leftmost position that has
    one. *)
Definition re_search (f : flags) (r : re) (s : text) : option rmatch :=
  search_from f r 0 None s.

(** The successive non-overlapping matches, left to right; [skip] counts
    the characters of the last match still to be passed.  None of the
    patterns of the source matches the empty text. *)
Fixpoint scan (f : flags) (r : re) (n : nat) (pv : option ascii)
    (l : text) (skip : nat) : list rmatch :=
  match skip, l with
  | S k, c :: t => scan f r (S n) (Some c) t k
  | S k, [] => []
  | 0, _ =>
      match match_here f r (MState n pv l []) with
      | Some m =>
          m :: match l with
               | [] => []
               | c :: t => scan f r (S n) (Some c) t (m_end m - n - 1)
               end
      | None =>
          match l with
          | [] => []
          | c :: t => scan f r (S n) (Some c) t 0
          end
      end
  end.

(** [list(r.finditer(s))] *)
Definition re_finditer (f : flags) (r : re) (s : text) : list rmatch :=
  scan f r 0 None s 0.

(** [s[i:j]] *)
Definition slice (i j : nat) (s : text) : text := firstn (j - i) (skipn i s).

(** [m.group(0)] *)
Definition group0 (s : text) (m : rmatch) : text :=
  slice (m_start m) (m_end m) s.

Fixpoint lookup_cap (n : nat) (cp : list (nat * (nat * nat)))
    : option (nat * nat) :=
  match cp with
  | [] => None
  | (k, sp) :: cp' => if Nat.eqb k n then Some sp else lookup_cap n cp'
  end.

(** [m.group(n)] of a group that took part in the match. *)
Definition group (s : text) (m : rmatch) (n : nat) : text :=
  match lookup_cap n (m_caps m) with
  | Some (i, j) => slice i j s
  | None => []
  end.

(** The subject rebuilt around the matches [ms], each replaced by
    [repl]; [n] is the offset reached. *)
Fixpoint replace_spans (repl : rmatch -> text) (ms : list rmatch) (n : nat)
    (s : text) : text :=
  match ms with
  | [] => s
  | m :: ms' =>
      firstn (m_start m - n) s ++ repl m ++
      replace_spans repl ms' (m_end m) (skipn (m_end m - n) s)
  end.

(** [re.sub(r, repl, s, flags)] with the replacement given as a function
    of the match. *)
Definition re_sub (f : flags) (r : re) (repl : text -> rmatch -> text)
    (s : text) : text :=
  replace_spans (repl s) (re_finditer f r s) 0 s.

Fixpoint split_spans (ms : list rmatch) (n : nat) (s : text) : list text :=
  match ms with
  | [] => [s]
  | m :: ms' =>
      firstn (m_start m - n) s ::
      split_spans ms' (m_end m) (skipn (m_end m - n) s)
  end.

(** [re.split(r, s, flags)] for a pattern without capture groups. *)
Definition re_split (f : flags) (r : re) (s : text) : list text :=
  split_spans (re_finditer f r s) 0 s.

(** ** The patterns of [utils.py]

    Each pattern is quoted before its definition; where the source has a
    star directly before a closing parenthesis the quotation puts a space
    between them. *)

Definition DQ : ascii := "034"%char.
Definition ch (s : string) : cset :=
  match s with
  | String c _ => CChar c
  | EmptyString => CAll
  end.

Local Open Scope re_scope.

(** [Day\s+\d+\s*[:\-]] *)
Definition day_core : re :=
  lits "Day" ;; Plus CSpace ;; Plus CDigit ;; Star CSpace ;;
  Atom (COneOf [":"%char; "-"%char]).

(** [```[\s\S]*?```] *)
Definition fence_re : re := lits "```" ;; StarLazy CAll ;; lits "```".

(** [Error:\s*ToolException\([\s\S]*?\)\s*] *)
Definition toolexc_re : re :=
  lits "Error:" ;; Star CSpace ;; lits "ToolException(" ;; StarLazy CAll ;;
  Atom (ch ")") ;; Star CSpace.

(** [\{\s*\QdataQ\s*:\s*\{[\s\S]*?\}\s*\}\s*], with [Q] for the double
    quote *)
Definition datajson_re : re :=
  Atom (ch "{") ;; Star CSpace ;; Atom (CChar DQ) ;; lits "data" ;;
  Atom (CChar DQ) ;; Star CSpace ;; Atom (ch ":") ;; Star CSpace ;;
  Atom (ch "{") ;; StarLazy CAll ;; Atom (ch "}") ;; Star CSpace ;;
  Atom (ch "}") ;; Star CSpace.

(** [^(Thought|Action|Observation)\s*:?] *)
Definition trace_re : re :=
  Bol ;; Group 1 (Alt (lits "Thought") (Alt (lits "Action")
                                            (lits "Observation"))) ;;
  Star CSpace ;; Opt (Atom (ch ":")).

(** [(^|\n)\s*Day\s+\d+\s*[:\-]] *)
Definition first_day_re : re :=
  Group 1 (Alt Bol (Atom (CChar LF))) ;; Star CSpace ;; day_core.

(** [\s+(Day\s+\d+\s*[:\-])] *)
Definition canon_re : re := Plus CSpace ;; Group 1 day_core.

(** [\n(?=\s*Day\s+\d+\s*[:\-])] *)
Definition split_re : re :=
  Atom (CChar LF) ;; Ahead (Star CSpace ;; day_core).

(** [^Day\s+\d+\s*[:\-]] *)
Definition block_head_re : re := Bol ;; day_core.

(** [^(Day\s+\d+\s*[:\-]\s* )(.* )$] *)
Definition title_re : re :=
  Bol ;; Group 1 (day_core ;; Star CSpace) ;; Group 2 (Star CAny) ;; Eol.

(** [Topic\s*:\s*([^\n]+)] *)
Definition topic_re : re :=
  lits "Topic" ;; Star CSpace ;; Atom (ch ":") ;; Star CSpace ;;
  Group 1 (Plus (CNoneOf [LF])).

(** [https?://\S+] *)
Definition url_re : re :=
  lits "http" ;; Opt (Atom (ch "s")) ;; lits "://" ;; Plus CNotSpace.

(** [YouTube\s*Link(?:\s*\d+)?\s*:?\s*(https?://\S+)] *)
Definition link_re : re :=
  lits "YouTube" ;; Star CSpace ;; lits "Link" ;;
  Opt (Star CSpace ;; Plus CDigit) ;; Star CSpace ;; Opt (Atom (ch ":")) ;;
  Star CSpace ;; Group 1 url_re.

(** [Practice\s*Questions\s*\(\s*10\s*\)\s*:?\s*(.* )$] *)
Definition qsection_re : re :=
  lits "Practice" ;; Star CSpace ;; lits "Questions" ;; Star CSpace ;;
  Atom (ch "(") ;; Star CSpace ;; lits "10" ;; Star CSpace ;;
  Atom (ch ")") ;; Star CSpace ;; Opt (Atom (ch ":")) ;; Star CSpace ;;
  Group 1 (Star CAny) ;; Eol.

(** [^\d+\.?\s*] *)
Definition numbering_re : re :=
  Bol ;; Plus CDigit ;; Opt (Atom (ch ".")) ;; Star CSpace.

(** [(?im)^\s*Day\s+\d+\s*[:\-]?.*$] *)
Definition header_re : re :=
  Bol ;; Star CSpace ;; lits "Day" ;; Plus CSpace ;; Plus CDigit ;;
  Star CSpace ;; Opt (Atom (COneOf [":"%char; "-"%char])) ;; Star CAny ;;
  Eol.

Local Close Scope re_scope.

(** ** [sanitize_learning_path_text] *)

Definition is_some {A} (o : option A) : bool :=
  match o with Some _ => true | None => false end.

Definition erase (_ : text) (_ : rmatch) : text := [].

(** The body of the line loop: [None] when the line is dropped, the line
    to append otherwise. *)
Definition keep_line (ln : text) : option text :=
  let s := strip ln in
  if is_empty s then Some []
  else if is_some (re_match flag_i trace_re s) then None
  else if startswith (lit "{") s && endswith (lit "}") s then None
  else Some ln.

Fixpoint filter_lines (lns : list text) : list text :=
  match lns with
  | [] => []
  | ln :: lns' =>
      match keep_line ln with
      | Some l => l :: filter_lines lns'
      | None => filter_lines lns'
      end
  end.

(** The part of the function after the line loop, on [cleaned]. *)
Definition keep_from_first_day (cleaned : text) : text :=
  match re_search flag_i first_day_re cleaned with
  | Some m =>
      let start := m_start m in
      let head := splitlines (strip (firstn start cleaned)) in
      let title := if is_empty head then [] else join [LF] (lastn 2 head) in
      let body := strip (skipn start cleaned) in
      if is_empty title then body
      else strip (title ++ [LF; LF] ++ body)
  | None => cleaned
  end.

Definition sanitize_learning_path_text (text0 : text) : text :=
  if is_empty text0 then []
  else
    let t1 := re_sub no_flags fence_re erase text0 in
    let t2 := re_sub flag_i toolexc_re erase t1 in
    let t3 := re_sub no_flags datajson_re erase t2 in
    let cleaned := strip (join [LF] (filter_lines (splitlines t3))) in
    keep_from_first_day cleaned.

(** ** [extract_days_and_questions] *)

Record item : Type := Item {
  day_title : text;
  topic : text;
  video_link : text;
  questions : list text
}.

Definition hex_digit (n : nat) : ascii :=
  if n <? 10 then ascii_of_nat (48 + n) else ascii_of_nat (55 + n).

Definition percent (n : nat) : text :=
  ["%"%char; hex_digit (n / 16); hex_digit (n mod 16)].

(** [urllib.parse.quote_plus] on one code point below 256: letters, digits
    and [_.-~] stay, a space becomes [+], the rest is percent-encoded from
    its UTF-8 bytes. *)
Definition quote_char (c : ascii) : text :=
  let n := code c in
  if is_upper c || is_lower c || is_digit c
     || mem_char c ["_"%char; "."%char; "-"%char; "~"%char] then [c]
  else if ascii_eqb c SP then ["+"%char]
  else if n <? 128 then percent n
  else percent (192 + n / 64) ++ percent (128 + n mod 64).

Definition quote_plus (s : text) : text := flat_map quote_char s.

Definition search_url (tp : text) : text :=
  lit "https://www.youtube.com/results?search_query="
  ++ quote_plus (tp ++ lit " tutorial").

Definition generic_url : text := lit "https://www.youtube.com/".

Definition sentinel : text := lit "VIDEO_ID_HERE".

(** [Topic] of a block: the first match of the label, trimmed. *)
Definition find_topic (s : text) : text :=
  match re_search flag_i topic_re s with
  | Some m => strip (group s m 1)
  | None => []
  end.

(** The two steps that both parsers apply to the link found. *)
Definition fix_placeholder (tp link : text) : text :=
  if contains sentinel link then
    if negb (is_empty tp) then search_url tp else generic_url
  else link.

Definition default_link (tp link : text) : text :=
  if is_empty link && negb (is_empty tp) then search_url tp
  else if is_empty link then generic_url
  else link.

(** The loop over the lines of a questions section. *)
Fixpoint question_lines (lns : list text) : list text :=
  match lns with
  | [] => []
  | ln :: lns' =>
      let l1 := strip_chars [SP; "-"%char; TAB] ln in
      let l2 := re_sub no_flags numbering_re erase l1 in
      if is_empty l2 then question_lines lns' else l2 :: question_lines lns'
  end.

Definition primary_link (rest0 : text) : text :=
  match re_search flag_i link_re rest0 with
  | Some m => strip (group rest0 m 1)
  | None =>
      match re_search no_flags url_re rest0 with
      | Some m => group0 rest0 m
      | None => []
      end
  end.

(** [q_text] of the primary parser, when the label is found. *)
Definition primary_section (rest0 : text) : option text :=
  match re_search flag_is qsection_re rest0 with
  | Some m => Some (strip (group rest0 m 1))
  | None => None
  end.

Definition primary_questions (rest0 : text) : list text :=
  match primary_section rest0 with
  | Some q_text => question_lines (splitlines q_text)
  | None => []
  end.

(** [day_title] and [rest] of a block, from [title_match]. *)
Definition primary_title (block : text) : text :=
  match re_match flag_i title_re block with
  | Some m => strip (group block m 1)
  | None => lit "Day"
  end.

Definition primary_rest (block : text) : text :=
  match re_match flag_i title_re block with
  | Some m => strip (group block m 2)
  | None => block
  end.

(** The body of the loop over [day_blocks]: [None] when the block is
    skipped. *)
Definition primary_item (block0 : text) : option item :=
  let block := strip block0 in
  if is_empty block || negb (is_some (re_match flag_i block_head_re block))
  then None
  else
    let title := primary_title block in
    let rest0 := primary_rest block in
    let tp := find_topic rest0 in
    let link := fix_placeholder tp (primary_link rest0) in
    let qs := primary_questions rest0 in
    let link := default_link tp link in
    Some (Item title tp link
               (match qs with [] => [] | _ => firstn 10 qs end)).

Fixpoint primary_items (blocks : list text) : list item :=
  match blocks with
  | [] => []
  | b :: bs =>
      match primary_item b with
      | Some it => it :: primary_items bs
      | None => primary_items bs
      end
  end.

Definition canon_repl (s : text) (m : rmatch) : text := LF :: group s m 1.

Definition day_blocks (text0 : text) : list text :=
  let canon := re_sub flag_i canon_re canon_repl text0 in
  re_split flag_i split_re canon.

Definition primary (text0 : text) : list item :=
  primary_items (day_blocks text0).

(** The [(start, end)] pairs of the fallback parser. *)
Fixpoint block_spans (ms : list rmatch) (len : nat) : list (nat * nat) :=
  match ms with
  | [] => []
  | m :: ms' =>
      (m_start m, match ms' with
                  | m' :: _ => m_start m'
                  | [] => len
                  end) :: block_spans ms' len
  end.

(** [q_text] of the fallback parser, when the label is found. *)
Definition fallback_section (block : text) : option text :=
  match re_search flag_is qsection_re block with
  | Some m => Some (group block m 1)
  | None => None
  end.

Definition fallback_questions (block : text) : list text :=
  match fallback_section block with
  | Some q_text => question_lines (splitlines q_text)
  | None => []
  end.

Definition fallback_link (block : text) : text :=
  match re_search no_flags url_re block with
  | Some m => group0 block m
  | None => []
  end.

(** [block] of the loop over [blocks] *)
Definition fallback_block (text0 : text) (span : nat * nat) : text :=
  strip (slice (fst span) (snd span) text0).

(** The body of the loop over [blocks].  A non-empty text has a first
    line, so [block.splitlines()[0]] is in range. *)
Definition fallback_item (text0 : text) (span : nat * nat) : item :=
  let block := fallback_block text0 span in
  let header_line := if is_empty block then lit "Day"
                     else hd [] (splitlines block) in
  let title := strip (before_first (lit "Topic:") header_line) in
  let tp := find_topic block in
  let link := fix_placeholder tp (fallback_link block) in
  let qs := fallback_questions block in
  let link := default_link tp link in
  Item (if is_empty title then lit "Day" else title) tp link (firstn 10 qs).

Definition header_matches (text0 : text) : list rmatch :=
  re_finditer flag_im header_re text0.

Definition fallback (text0 : text) : list item :=
  map (fallback_item text0)
      (block_spans (header_matches text0) (length text0)).

Definition extract_days_and_questions (text0 : text) : list item :=
  if is_empty text0 then []
  else
    match primary text0 with
    | [] => fallback text0
    | results => results
    end.

(** ** The built-in [hash] on [str]

    [hash] is not code of the repository: the functions below take it as a
    parameter.  [str_hash] is the function of CPython 3.11 (SipHash-1-3 over
    the bytes of the string, keyed with the secret of the process), used to
    evaluate the store on concrete processes.  Integers of 64 bits are in
    [Z], wrapped by [wrap64]. *)

Local Open Scope Z_scope.

Definition wrap64 (x : Z) : Z := x mod 2 ^ 64.
Definition rotl64 (x : Z) (b : Z) : Z :=
  wrap64 (Z.lor (Z.shiftl x b) (Z.shiftr x (64 - b))).

Definition sipstate : Type := (Z * Z * Z * Z)%type.

(** [HALF_ROUND(a,b,c,d,s,t)], giving back [(a,b,c,d)] *)
Definition half_round (a b c d s t : Z) : sipstate :=
  let a := wrap64 (a + b) in
  let c := wrap64 (c + d) in
  let b := Z.lxor (rotl64 b s) a in
  let d := Z.lxor (rotl64 d t) c in
  let a := rotl64 a 32 in
  (a, b, c, d).

(** [SINGLE_ROUND(v0,v1,v2,v3)] *)
Definition single_round (v : sipstate) : sipstate :=
  let '(v0, v1, v2, v3) := v in
  let '(v0, v1, v2, v3) := half_round v0 v1 v2 v3 13 16 in
  let '(v2, v1, v0, v3) := half_round v2 v1 v0 v3 17 21 in
  (v0, v1, v2, v3).

(** A little-endian integer from bytes. *)
Fixpoint le_bytes (l : list Z) : Z :=
  match l with
  | [] => 0
  | b :: l' => b + 256 * le_bytes l'
  end.

(** The loop over the full 8-byte words; [fuel] bounds the number of
    words. *)
Fixpoint sip_words (fuel : nat) (v : sipstate) (l : list Z)
    : sipstate * list Z :=
  match fuel with
  | O => (v, l)
  | S fuel' =>
      if (8 <=? length l)%nat then
        let mi := le_bytes (firstn 8 l) in
        let '(v0, v1, v2, v3) := v in
        let '(v0, v1, v2, v3) := single_round (v0, v1, v2, Z.lxor v3 mi) in
        sip_words fuel' (Z.lxor v0 mi, v1, v2, v3) (skipn 8 l)
      else (v, l)
  end.

Definition siphash13 (k0 k1 : Z) (src : list Z) : Z :=
  let b := wrap64 (Z.shiftl (Z.of_nat (length src)) 56) in
  let v := (Z.lxor k0 0x736f6d6570736575, Z.lxor k1 0x646f72616e646f6d,
            Z.lxor k0 0x6c7967656e657261, Z.lxor k1 0x7465646279746573) in
  let '(v, tl) := sip_words (length src) v src in
  let b := Z.lor b (le_bytes tl) in
  let '(v0, v1, v2, v3) := v in
  let '(v0, v1, v2, v3) := single_round (v0, v1, v2, Z.lxor v3 b) in
  let v0 := Z.lxor v0 b in
  let v2 := Z.lxor v2 0xff in
  let '(v0, v1, v2, v3) :=
    single_round (single_round (single_round (v0, v1, v2, v3))) in
  Z.lxor (Z.lxor v0 v1) (Z.lxor v2 v3).

(** [lcg_urandom]: the secret bytes derived from [PYTHONHASHSEED]. *)
Fixpoint lcg_urandom (x : Z) (size : nat) : list Z :=
  match size with
  | O => []
  | S size' =>
      let x := (x * 214013 + 2531011) mod 2 ^ 32 in
      Z.land (Z.shiftr x 16) 255 :: lcg_urandom x size'
  end.

(** The hash secret of a process started with [PYTHONHASHSEED=seed]; the
    seed 0 turns randomisation off. *)
Definition hash_secret (seed : Z) : list Z :=
  if seed =? 0 then repeat 0 24 else lcg_urandom seed 24.

Definition signed64 (x : Z) : Z := if x <? 2 ^ 63 then x else x - 2 ^ 64.

(** [hash(s)] in a process with the given seed. *)
Definition str_hash (seed : Z) (s : text) : Z :=
  match s with
  | [] => 0
  | _ =>
      let sec := hash_secret seed in
      let k0 := le_bytes (firstn 8 sec) in
      let k1 := le_bytes (firstn 8 (skipn 8 sec)) in
      let x := signed64 (siphash13 k0 k1
                           (map (fun c => Z.of_nat (code c)) s)) in
      if x =? -1 then -2 else x
  end.

Local Close Scope Z_scope.

(** ** Local persistence

    The values handled are JSON values; a file of the data directory holds
    either the text that [json.dump] wrote for a value, which [json.load]
    reads back as that value, or text that is not JSON, on which
    [json.load] raises. *)

#[local] Unset Elimination Schemes.
Inductive json : Type :=
| JNull
| JBool (b : bool)
| JNum (z : Z)
| JStr (s : text)
| JArr (l : list json)
| JObj (kv : list (text * json)).
#[local] Set Elimination Schemes.

Inductive content : Type :=
| Json (v : json)
| Garbage (raw : text).

(** The files the module names: [HISTORY_PATH], and
    [progress_<key>.json] for an integer key, both inside [DATA_DIR]. *)
Inductive path : Type :=
| HistoryPath
| ProgressPath (key : Z).

Definition path_eqb (p q : path) : bool :=
  match p, q with
  | HistoryPath, HistoryPath => true
  | ProgressPath a, ProgressPath b => Z.eqb a b
  | _, _ => false
  end.

(** The state of the file system as the module sees it: [DATA_DIR] with
    the files in it when it is a directory; whether [os.makedirs] can make
    it when it is not; which files can be opened for reading and for
    writing; and, for a file on which [json.dump] fails after the file was
    opened (and so emptied), the text the failed call leaves in it. *)
Record fsys : Type := FSys {
  dir : option (path -> option content);
  can_make_dir : bool;
  readable : path -> bool;
  can_open : path -> bool;
  dump_fails : path -> option text
}.

(** [os.path.isdir(DATA_DIR)] *)
Definition data_dir (st : fsys) : bool := is_some (dir st).

(** The content of a file of [DATA_DIR]; [os.path.isfile(p)] holds when
    there is one. *)
Definition files (st : fsys) (p : path) : option content :=
  match dir st with
  | Some d => d p
  | None => None
  end.

(** A write to [p] goes through: the directory is there or can be made,
    the file can be opened for writing and [json.dump] does not fail. *)
Definition writable (st : fsys) (p : path) : bool :=
  (data_dir st || can_make_dir st) && can_open st p
  && negb (is_some (dump_fails st p)).

Inductive exn : Type :=
| OSError
| AttributeError.

Inductive outcome (A : Type) : Type :=
| Returned (a : A)
| Raised (e : exn).
Arguments Returned {A} a.
Arguments Raised {A} e.

(** [_ensure_data_dir]: [os.makedirs] raises when the directory cannot be
    made. *)
Definition _ensure_data_dir (st : fsys) : fsys * outcome unit :=
  match dir st with
  | Some _ => (st, Returned tt)
  | None =>
      if can_make_dir st then
        (FSys (Some (fun _ => None)) (can_make_dir st) (readable st)
              (can_open st) (dump_fails st),
         Returned tt)
      else (st, Raised OSError)
  end.

(** [with open(p, "r") as f: return json.load(f)] *)
Definition read_json (p : path) (st : fsys) : outcome json :=
  if readable st p then
    match files st p with
    | Some (Json v) => Returned v
    | _ => Raised OSError
    end
  else Raised OSError.

Definition set_file (p : path) (c : content) (st : fsys) : fsys :=
  FSys (Some (fun q => if path_eqb q p then Some c else files st q))
       (can_make_dir st) (readable st) (can_open st) (dump_fails st).

(** [with open(p, "w") as f: json.dump(v, f, ...)]: a failed [open] leaves
    the file as it was, a failed [json.dump] leaves what it wrote before it
    failed. *)
Definition write_json (p : path) (v : json) (st : fsys)
    : fsys * outcome unit :=
  if data_dir st && can_open st p then
    match dump_fails st p with
    | None => (set_file p (Json v) st, Returned tt)
    | Some raw => (set_file p (Garbage raw) st, Raised OSError)
    end
  else (st, Raised OSError).

(** [os.path.join(DATA_DIR, f"progress_{hash(user_goal)}.json")] *)
Definition progress_file (hash : text -> Z) (user_goal : text) : path :=
  ProgressPath (hash user_goal).

Definition load_progress (hash : text -> Z) (user_goal : text) (st : fsys)
    : fsys * outcome json :=
  match _ensure_data_dir st with
  | (st, Raised e) => (st, Raised e)
  | (st, Returned _) =>
      let p := progress_file hash user_goal in
      if negb (is_some (files st p)) then (st, Returned (JObj []))
      else
        match read_json p st with
        | Returned v => (st, Returned v)
        | Raised _ => (st, Returned (JObj []))
        end
  end.

Definition save_progress (hash : text -> Z) (user_goal : text)
    (progress : json) (st : fsys) : fsys * outcome unit :=
  match _ensure_data_dir st with
  | (st, Raised e) => (st, Raised e)
  | (st, Returned _) =>
      let p := progress_file hash user_goal in
      match write_json p progress st with
      | (st', Returned _) => (st', Returned tt)
      | (st', Raised _) => (st', Returned tt)
      end
  end.

Definition load_history (st : fsys) : fsys * outcome json :=
  match _ensure_data_dir st with
  | (st, Raised e) => (st, Raised e)
  | (st, Returned _) =>
      if negb (is_some (files st HistoryPath)) then (st, Returned (JArr []))
      else
        match read_json HistoryPath st with
        | Returned v => (st, Returned v)
        | Raised _ => (st, Returned (JArr []))
        end
  end.

Definition save_history_record (record : json) (st : fsys)
    : fsys * outcome unit :=
  match _ensure_data_dir st with
  | (st, Raised e) => (st, Raised e)
  | (st, Returned _) =>
      match load_history st with
      | (st, Raised e) => (st, Raised e)
      | (st, Returned history) =>
          match history with
          | JArr l => write_json HistoryPath (JArr (l ++ [record])) st
          | _ => (st, Raised AttributeError)
          end
      end
  end.

(** ** Sample states and records *)

(** No data directory yet; it can be made. *)
Definition empty_fs : fsys :=
  FSys None true (fun _ => true) (fun _ => true) (fun _ => None).

Definition fs_with_history (c : content) : fsys :=
  FSys (Some (fun p => if path_eqb p HistoryPath then Some c else None))
       true (fun _ => true) (fun _ => true) (fun _ => None).

Definition rec_a : json := JObj [(lit "goal", JStr (lit "a"))].
Definition rec_b : json := JObj [(lit "goal", JStr (lit "b"))].
Definition rec_old : json := JObj [(lit "goal", JStr (lit "old"))].

Definition goal_rust : text := lit "learn rust".

Definition progress_day1 : json :=
  JObj [(lit "day_1",
         JObj [(lit "completed", JBool true);
               (lit "title", JStr (lit "Day 1:"));
               (lit "topic", JStr (lit "Ownership"))])].

(** A file system in which nothing can be written. *)
Definition read_only_fs : fsys :=
  FSys (Some (fun _ => None)) true (fun _ => true) (fun _ => false)
       (fun _ => None).

(** No data directory, and none can be made: the place is read-only, or
    a file of that name is in the way. *)
Definition no_dir_fs : fsys :=
  FSys None false (fun _ => true) (fun _ => true) (fun _ => None).

(** The disk is full: files open for writing, and [json.dump] fails after
    the first character. *)
Definition full_disk_fs : fsys :=
  FSys (Some (fun _ => None)) true (fun _ => true) (fun _ => true)
       (fun _ => Some (lit "{")).

(** A history file that holds a record and can be written but not read. *)
Definition write_only_history_fs : fsys :=
  FSys (Some (fun p => if path_eqb p HistoryPath
                       then Some (Json (JArr [rec_old])) else None))
       true (fun _ => false) (fun _ => true) (fun _ => None).

(** ** What a pattern matches

    [matches f r pv w k]: under the flags [f] the pattern [r] matches the
    characters [w] when the character before them is [pv] (none at the start
    of the subject) and the characters after them are [k].  The relation
    says which matches exist; the matcher [run] chooses one of them. *)

Definition last_of (pv : option ascii) (w : text) : option ascii :=
  fold_left (fun _ c => Some c) w pv.

Definition bol_at (f : flags) (pv : option ascii) : bool :=
  match pv with
  | None => true
  | Some c => multiline f && ascii_eqb c LF
  end.

Definition eol_at (f : flags) (k : text) : bool :=
  match k with
  | [] => true
  | c :: t => ascii_eqb c LF && (multiline f || is_empty t)
  end.

Definition all_in (f : flags) (a : cset) (w : text) : Prop :=
  Forall (fun c => accepts f a c = true) w.

Inductive matches (f : flags) : re -> option ascii -> text -> text -> Prop :=
| M_Eps : forall pv k, matches f Eps pv [] k
| M_Atom : forall a c pv k,
    accepts f a c = true -> matches f (Atom a) pv [c] k
| M_Seq : forall r1 r2 pv w1 w2 k,
    matches f r1 pv w1 (w2 ++ k) ->
    matches f r2 (last_of pv w1) w2 k ->
    matches f (Seq r1 r2) pv (w1 ++ w2) k
| M_AltL : forall r1 r2 pv w k,
    matches f r1 pv w k -> matches f (Alt r1 r2) pv w k
| M_AltR : forall r1 r2 pv w k,
    matches f r2 pv w k -> matches f (Alt r1 r2) pv w k
| M_Star : forall a pv w k, all_in f a w -> matches f (Star a) pv w k
| M_Plus : forall a pv w k,
    w <> [] -> all_in f a w -> matches f (Plus a) pv w k
| M_StarLazy : forall a pv w k,
    all_in f a w -> matches f (StarLazy a) pv w k
| M_OptSome : forall r pv w k,
    matches f r pv w k -> matches f (Opt r) pv w k
| M_OptNone : forall r pv k, matches f (Opt r) pv [] k
| M_Group : forall n r pv w k,
    matches f r pv w k -> matches f (Group n r) pv w k
| M_Ahead : forall r pv w k,
    matches f r pv w k -> matches f (Ahead r) pv [] (w ++ k)
| M_Bol : forall pv k, bol_at f pv = true -> matches f Bol pv [] k
| M_Eol : forall pv k, eol_at f k = true -> matches f Eol pv [] k.

(** The pattern matches somewhere in the subject. *)
Definition matches_in (f : flags) (r : re) (s : text) : Prop :=
  exists a w b, s = a ++ w ++ b /\ matches f r (last_of None a) w b.

(** ** Sample texts *)

Local Open Scope string_scope.

Definition unlines (lns : list string) : text := join [LF] (map lit lns).

(** The fragment of the extraction-completeness property. *)
Definition day1_fragment : text :=
  unlines ["Day 1: Intro"; "Topic: X"; "Practice Questions (10)";
           "1. Q1"; "2. Q2"].

(** A day header that nothing separates from the word before it. *)
Definition glued_header : text := lit "xDay 1: foo".

(** A header line without a separator after the number. *)
Definition bare_header : text := unlines ["Day 1 Intro"; "Topic: Recursion"].





Definition recursion_block : text :=
  unlines ["Day 4: Recursion basics"; "Topic: Recursion";
           "Practice Questions (10)"; "1. What is a base case?"].

Definition no_topic_block : text := lit "Day 5: Review".

Local Close Scope string_scope.

(** ** Numbered question lines *)








(** A text without line boundaries. *)
Definition one_line (l : text) : Prop :=
  Forall (fun c => is_linebreak c = false) l.



(** ** Texts inside texts *)

(** [t] occurs in [s]. *)
Definition sub_of (t s : text) : Prop := exists a b, s = a ++ t ++ b.

(** [p] occurs in [s] in some letter case. *)
Definition contains_ci (p s : text) : bool :=
  contains (map lower p) (map lower s).

(** The text has no [http://] and no [https://], in any letter case. *)
Definition no_url (s : text) : bool :=
  negb (contains_ci (lit "http://") s) && negb (contains_ci (lit "https://") s).

Definition recursion_url : text :=
  lit "https://www.youtube.com/results?search_query=Recursion+tutorial".

Definition recursion_item : item :=
  Item (lit "Day") (lit "Recursion") recursion_url
       [lit "What is a base case?"].

(** The whole of a text as the span of a fallback block. *)
Definition whole (s : text) : nat * nat := (0, length s).

Definition no_topic_item : item :=
  Item (lit "Day 5:") [] generic_url [].


Definition loops_item : item :=
  Item (lit "Day") (lit "Loops")
       (lit "https://www.youtube.com/results?search_query=Loops+tutorial") [].



(** ** Header lines *)

(** Some line of the text begins, after optional white space, with [Day]
    in any letter case, white space and a number. *)
Definition has_header_line (s : text) : Prop :=
  exists a ws d1 d2 d3 sp ds b,
    s = a ++ ws ++ [d1; d2; d3] ++ sp ++ ds ++ b /\
    (a = [] \/ exists a', a = a' ++ [LF]) /\
    forallb is_space ws = true /\
    lower d1 = "d"%char /\ lower d2 = "a"%char /\ lower d3 = "y"%char /\
    sp <> [] /\ forallb is_space sp = true /\
    ds <> [] /\ forallb is_digit ds = true.

(** ** The sanitized form *)




(** ** The first day header, directly

    [Day\s+\d+\s*[:\-]] never has to give characters back: each part ends
    where the next class begins.  [day_prefix] recognises it at the start
    of a text by running through the parts once. *)

Definition eat_ci (x : ascii) (s : text) : option text :=
  match s with
  | c :: t => if ascii_eqb (lower c) (lower x) then Some t else None
  | [] => None
  end.

Definition eat_plus (p : ascii -> bool) (s : text) : option text :=
  match s with
  | c :: t => if p c then Some (dropwhile p t) else None
  | [] => None
  end.

Definition eat_one (p : ascii -> bool) (s : text) : option text :=
  match s with
  | c :: t => if p c then Some t else None
  | [] => None
  end.

Definition and_then (o : option text) (g : text -> option text)
    : option text :=
  match o with
  | Some t => g t
  | None => None
  end.

Definition is_separator (c : ascii) : bool :=
  mem_char c [":"%char; "-"%char].

Definition day_prefix (s : text) : bool :=
  is_some
    (and_then (and_then (and_then (and_then (and_then (and_then
       (eat_ci "D" s) (eat_ci "a")) (eat_ci "y")) (eat_plus is_space))
       (eat_plus is_digit)) (fun t => Some (dropwhile is_space t)))
       (eat_one is_separator)).

(** [(^|\n)\s*Day\s+\d+\s*[:\-]] at a position: [pv] is the character
    before it. *)
Definition header_here (pv : option ascii) (s : text) : bool :=
  match pv with
  | None => day_prefix (dropwhile is_space s)
  | Some _ => false
  end
  || match s with
     | c :: t => ascii_eqb c LF && day_prefix (dropwhile is_space t)
     | [] => false
     end.

(** The offset of the first position with a header. *)
Fixpoint first_header (pv : option ascii) (s : text) : option nat :=
  if header_here pv s then Some 0
  else match s with
       | [] => None
       | c :: t => option_map S (first_header (Some c) t)
       end.



(** ** Texts that differ in their white space

    [wsr s s']: [s'] is [s] with its runs of white space changed; a run may
    shrink, vanish or be replaced, and white space is added only where [s]
    has some, or after the last word. *)

Definition all_space (j : text) : Prop :=
  Forall (fun c => is_space c = true) j.

Inductive wsr : text -> text -> Prop :=
| wsr_end : forall j j', all_space j -> all_space j' -> wsr j j'
| wsr_run : forall j j' c s s',
    all_space j -> all_space j' -> (j = [] -> j' = []) ->
    is_space c = false -> wsr s s' ->
    wsr (j ++ c :: s) (j' ++ c :: s').

(** Patterns for which only the words of the subject matter: their
    characters are no white space, white space is matched by starred
    classes only, and nothing looks at the context. *)
Fixpoint ws_insensitive (f : flags) (r : re) : Prop :=
  match r with
  | Eps => True
  | Atom a => forall c, accepts f a c = true -> is_space c = false
  | Seq r1 r2 => ws_insensitive f r1 /\ ws_insensitive f r2
  | Alt r1 r2 => ws_insensitive f r1 /\ ws_insensitive f r2
  | Star a => a = CSpace \/ a = CAll
  | StarLazy a => a = CSpace \/ a = CAll
  | Plus _ => False
  | Opt r1 => ws_insensitive f r1
  | Group _ r1 => ws_insensitive f r1
  | Ahead _ => False
  | Bol => False
  | Eol => False
  end.

(** ** Lines of a cleaned text *)

(** What the line loop appends for a line that it keeps. *)
Definition blank_line (ln : text) : text :=
  if is_empty (strip ln) then [] else ln.

(** A line that the line loop appends unchanged. *)
Definition good_line (l : text) : Prop :=
  one_line l /\ keep_line l = Some l.

(** A text made of such lines, joined by line feeds. *)
Definition lined (s : text) : Prop :=
  exists lns, s = join [LF] lns /\ Forall good_line lns.

(** A text without white space at its ends. *)
Definition trimmed (s : text) : Prop :=
  match s with
  | [] => True
  | c :: _ => is_space c = false /\ is_space (last s c) = false
  end.

(** A text cut into lines at runs of white space, as [splitlines] cuts it
    at line boundaries. *)
Inductive splits : text -> list text -> Prop :=
| splits_nil : splits [] []
| splits_last : forall l, l <> [] -> one_line l -> splits l [l]
| splits_line : forall l b x lns,
    one_line l -> b <> [] -> all_space b -> splits x lns ->
    splits (l ++ b ++ x) (l :: lns).

(** The part of [keep_from_first_day] that follows the search, for a
    header found at offset [start]. *)
Definition cut_at (start : nat) (cleaned : text) : text :=
  let head := splitlines (strip (firstn start cleaned)) in
  let title := if is_empty head then [] else join [LF] (lastn 2 head) in
  let body := strip (skipn start cleaned) in
  if is_empty title then body else strip (title ++ [LF; LF] ++ body).


(** [cut_at] from the trimmed text before the header and the trimmed
    text from the header on. *)
Definition title_and_body (before body : text) : text :=
  let head := splitlines before in
  let title := if is_empty head then [] else join [LF] (lastn 2 head) in
  if is_empty title then body else strip (title ++ [LF; LF] ++ body).

(** A text in sanitized form: two title lines, an empty line, and a day
    with its topic. *)
Definition titled_plan : text :=
  unlines ["Python in a week"; "A plan"; ""; "Day 1: Basics";
           "Topic: Variables"; ""; "Day 2: Loops"]%string.

(** ** Links in a text *)

(** The text has a link: a match of [https?://\S+], in any letter
    case. *)
Definition has_url (s : text) : Prop := matches_in flag_i url_re s.

(** Patterns that do not look at what is around a match. *)
Fixpoint anchor_free (r : re) : Prop :=
  match r with
  | Seq r1 r2 => anchor_free r1 /\ anchor_free r2
  | Alt r1 r2 => anchor_free r1 /\ anchor_free r2
  | Opt r1 => anchor_free r1
  | Group _ r1 => anchor_free r1
  | Ahead _ => False
  | Bol => False
  | Eol => False
  | _ => True
  end.

(** ** Repeated saves *)

(** [save_history_record] called for each record in turn, as the
    application does once per generated path; a call that raises ends the
    sequence. *)
Fixpoint save_history_records (records : list json) (st : fsys)
    : fsys * outcome unit :=
  match records with
  | [] => (st, Returned tt)
  | r :: rs =>
      match save_history_record r st with
      | (st', Returned _) => save_history_records rs st'
      | (st', Raised e) => (st', Raised e)
      end
  end.

(** A goal other than [goal_rust]. *)
Definition goal_go : text := lit "learn go".

(** A progress file that does not hold JSON. *)
Definition fs_with_progress (key : Z) (c : content) : fsys :=
  FSys (Some (fun p => if path_eqb p (ProgressPath key) then Some c
                       else None))
       true (fun _ => true) (fun _ => true) (fun _ => None).

(** ** Groups of a match *)

(** The numbers of the groups of a pattern. *)
Fixpoint group_ids (r : re) : list nat :=
  match r with
  | Seq r1 r2 => group_ids r1 ++ group_ids r2
  | Alt r1 r2 => group_ids r1 ++ group_ids r2
  | Opt r1 => group_ids r1
  | Group n r1 => n :: group_ids r1
  | _ => []
  end.

(** The matcher is at a position of the subject [s]. *)
Definition at_text (s : text) (st : mstate) : Prop :=
  exists pre, s = pre ++ rest st /\ length pre = pos st.

(** The pattern ends with group [n], of pattern [g]. *)
Fixpoint ends_in_group (r : re) (n : nat) (g : re) : Prop :=
  match r with
  | Group m r1 => m = n /\ r1 = g
  | Seq _ r2 => ends_in_group r2 n g
  | _ => False
  end.

(** ** Links *)

(** A text that reads as a link: it begins with [http], in any letter
    case, and has no white space. *)
Definition is_link (l : text) : bool :=
  startswith (lit "http") (map lower l)
  && forallb (fun c => negb (is_space c)) l.

(** ** Titles *)

(** The text begins with [Day], in any letter case. *)
Definition starts_with_day (t : text) : bool :=
  startswith (lit "day") (map lower t).

(** ** The matches of [finditer] *)

(** Matches of [r] in the subject [t], from offset [lo] on, one after the
    other: each is a match of the relation at its span, and the next one
    starts where it ends, or one character further when it is empty. *)
Fixpoint spans_ok (f : flags) (r : re) (t : text) (lo : nat)
    (ms : list rmatch) : Prop :=
  match ms with
  | [] => True
  | m :: ms' =>
      lo <= m_start m /\
      (exists a w k,
         t = a ++ w ++ k /\ matches f r (last_of None a) w k /\
         m_start m = length a /\ m_end m = length a + length w) /\
      spans_ok f r t (Nat.max (m_end m) (S (m_start m))) ms'
  end.

(** ** [export_to_pdf]

    The document is the sequence of calls made on the [FPDF] object.  The
    world of the function: whether [fpdf] could be imported, the
    directories that exist, the time stamp that
    [datetime.now().strftime('%Y%m%d_%H%M%S')] gives, and whether
    [pdf.output] raises, with the text of the exception. *)

(** The characters that [[a-zA-Z0-9_\-]] accepts. *)
Definition safe_chars : list ascii :=
  lit "abcdefghijklmnopqrstuvwxyzABCDEFGHIJKLMNOPQRSTUVWXYZ0123456789_-".

Definition is_safe (c : ascii) : bool := mem_char c safe_chars.

(** [[^a-zA-Z0-9_\-]+] *)
Definition unsafe_re : re := Plus (CNoneOf safe_chars).

Definition underscore (_ : text) (_ : rmatch) : text := lit "_".

(** [title or default] *)
Definition or_default (title default : text) : text :=
  if is_empty title then default else title.

(** [safe_title] of [export_to_pdf] *)
Definition safe_title (title : text) : text :=
  re_sub no_flags unsafe_re underscore
    (or_default title (lit "learning_path")).

Inductive pdf_op : Type :=
| SetAutoPageBreak (auto : bool) (margin : nat)
| AddPage
| SetFont (family style : text) (size : nat)
| Cell (w h : nat) (txt : text)
| Ln (h : nat)
| MultiCell (w h : nat) (txt : text).

(** The loop over the lines of the content. *)
Fixpoint pdf_lines (lns : list text) : list pdf_op :=
  match lns with
  | [] => []
  | line :: lns' =>
      (if is_empty (strip line) then Ln 4 else MultiCell 0 6 line)
      :: pdf_lines lns'
  end.

Record pdf_world : Type := PdfWorld {
  fpdf_available : bool;
  is_dir : text -> bool;
  time_stamp : text;
  output_error : text -> option text
}.

(** [os.path.join(a, b)] on POSIX *)
Definition path_join (a b : text) : text :=
  if startswith (lit "/") b then b
  else if is_empty a || endswith (lit "/") a then a ++ b
  else a ++ lit "/" ++ b.

(** [filename] of [export_to_pdf] *)
Definition pdf_filename (w : pdf_world) (title : text) : text :=
  safe_title title ++ lit "_" ++ time_stamp w ++ lit ".pdf".

(** What a call of [export_to_pdf] does and returns: the directory it
    creates, if any, the calls on the document, the file it writes, if
    any, and the pair returned. *)
Record export : Type := Export {
  made_dir : option text;
  drawn : list pdf_op;
  written : option text;
  returned : bool * text
}.

Definition export_to_pdf (w : pdf_world) (title content output_dir : text)
    : export :=
  if negb (fpdf_available w) then
    Export None [] None
           (false, lit "FPDF not available. Install 'fpdf' package.")
  else
    let made := if is_dir w output_dir then None else Some output_dir in
    let out_path := path_join output_dir (pdf_filename w title) in
    let ops :=
      [SetAutoPageBreak true 15; AddPage;
       SetFont (lit "Arial") (lit "B") 16;
       Cell 0 10 (or_default title (lit "Learning Path"));
       Ln 5;
       SetFont (lit "Arial") [] 11]
      ++ pdf_lines (splitlines content) in
    match output_error w out_path with
    | None => Export made ops (Some out_path) (true, out_path)
    | Some e => Export made ops None (false, e)
    end.

(** A world in which everything works, at a fixed time. *)
Definition pdf_world_ok : pdf_world :=
  PdfWorld true (fun _ => true) (lit "20240131_235959") (fun _ => None).

(** ** The progress display ([update_progress] of [app.py])

    The session state holds the four fields that [app.py] initialises.
    [progress] is kept in tenths: [0.1] is [1] and [1.0] is [10].  What
    the function shows is the sequence of its calls on the page. *)

Record session : Type := Session {
  current_step : text;
  progress : nat;
  last_section : text;
  is_generating : bool
}.

Inductive ui_event : Type :=
| ProgressBar (tenths : nat)          (* progress_bar.progress(...) *)
| SectionHeader (section : text)      (* st.write of the section in bold *)
| AllDone                             (* st.success(...) *)
| StepLine (ticked : bool) (message : text).  (* st.write(prefix message) *)

Definition set_progress (p : nat) (st : session) : session :=
  Session (current_step st) p (last_section st) (is_generating st).

Definition update_progress (message : text) (st : session)
    : session * list ui_event :=
  let st := Session message (progress st) (last_section st)
                    (is_generating st) in
  let '(section, st) :=
    if contains (lit "Setting up agent with tools") message then
      (lit "Setup", set_progress 1 st)
    else if contains (lit "Added Google Drive integration") message
            || contains (lit "Added Notion integration") message then
      (lit "Integration", set_progress 2 st)
    else if contains (lit "Creating AI agent") message then
      (lit "Setup", set_progress 3 st)
    else if contains (lit "Generating your learning path") message then
      (lit "Generation", set_progress 5 st)
    else if contains (lit "Learning path generation complete") message then
      (lit "Complete",
       Session (current_step st) 10 (last_section st) false)
    else (or_default (last_section st) (lit "Progress"), st) in
  let st := Session (current_step st) (progress st) section
                    (is_generating st) in
  let header :=
    if negb (text_eqb section (last_section st))
       && negb (text_eqb section (lit "Complete"))
    then [SectionHeader section] else [] in
  let line :=
    if text_eqb message (lit "Learning path generation complete!")
    then [AllDone]
    else [StepLine (5 <=? progress st) message] in
  (st, ProgressBar (progress st) :: header ++ line).

(** The messages of [run_agent_sync]

    The messages that [setup_agent_with_tools] and [run_agent_sync] pass
    to [progress_callback], in order, when no call raises; when one
    raises, the messages passed are the first ones of these.  Most end
    with a check mark, U+2705, which is outside the range of [text]: it
    is written as its three UTF-8 bytes.  [update_progress] only asks
    whether an ASCII phrase occurs in a message and whether the message
    is an ASCII text, which does not depend on how that character is
    written. *)

Definition check_mark : text := map ascii_of_nat [226; 156; 133].

Definition checked (s : string) : text := lit s ++ SP :: check_mark.

(** [if url:] for a URL that may be [None] *)
Definition given (url : option text) : bool :=
  match url with
  | Some (_ :: _) => true
  | _ => false
  end.

Definition setup_messages (drive_url notion_url : option text)
    : list text :=
  [checked "Setting up agent with tools..."]
  ++ (if given drive_url
      then [checked "Added Google Drive integration..."] else [])
  ++ (if given notion_url
      then [checked "Added Notion integration..."] else [])
  ++ [checked "Initializing MCP client...";
      checked "Getting available tools...";
      checked "Creating AI agent...";
      checked "Setup complete! Starting to generate learning path..."].

Definition run_messages (drive_url notion_url : option text) : list text :=
  setup_messages drive_url notion_url
  ++ [lit "Generating your learning path...";
      lit "Learning path generation complete!"].

(** The callback called on each message in turn: the state reached, the
    value of [progress] after each call, and everything shown. *)
Fixpoint feed (ms : list text) (st : session)
    : session * list nat * list ui_event :=
  match ms with
  | [] => (st, [], [])
  | m :: ms' =>
      let '(st1, shown1) := update_progress m st in
      let '(st2, trace, shown2) := feed ms' st1 in
      (st2, progress st1 :: trace, shown1 ++ shown2)
  end.

Fixpoint nondecreasing (l : list nat) : bool :=
  match l with
  | a :: (b :: _) as t => (a <=? b) && nondecreasing t
  | _ => true
  end.

(** The session state when the handler of the button starts a run. *)
Definition run_start : session := Session [] 0 [] true.

(** ** [concatenate_messages]

    The agent result is a dict, or [None]; its [messages] entry, when it
    has one, is a list of message objects or [None].  Of a message only
    [getattr(msg, "content", None)] is used: a [str], or anything else (a
    list of content blocks, [None], no such attribute). *)

Inductive msg_content : Type :=
| StrContent (s : text)
| OtherContent.

Inductive result_value : Type :=
| MessageList (ms : list msg_content)
| NoneValue.

Fixpoint dict_get {V : Type} (key : text) (d : list (text * V))
    : option V :=
  match d with
  | [] => None
  | (k, v) :: d' => if text_eqb k key then Some v else dict_get key d'
  end.

(** [agent_result.get("messages") or []] *)
Definition messages_of (d : list (text * result_value))
    : list msg_content :=
  match dict_get (lit "messages") d with
  | Some (MessageList ms) => ms
  | _ => []
  end.

(** [parts] after the loop *)
Fixpoint str_parts (ms : list msg_content) : list text :=
  match ms with
  | [] => []
  | StrContent s :: ms' => s :: str_parts ms'
  | OtherContent :: ms' => str_parts ms'
  end.

Definition concatenate_messages
    (agent_result : option (list (text * result_value))) : text :=
  match agent_result with
  | None => []
  | Some [] => []
  | Some d => strip (join [LF; LF] (str_parts (messages_of d)))
  end.

(** The texts that the messages of a result carry. *)
Definition texts_of (agent_result : option (list (text * result_value)))
    : list text :=
  match agent_result with
  | None => []
  | Some d => str_parts (messages_of d)
  end.

(** A result whose only message with text is a blank one, between two
    messages without text. *)
Definition blank_result : option (list (text * result_value)) :=
  Some [(lit "messages",
         MessageList [OtherContent; StrContent [SP; LF]; OtherContent])].

(** ** Day tracking (the loop over the days in [app.py])

    For each day the page reads the mark of the day from the progress
    record of the goal, shows a checkbox, and saves the record when the
    checkbox differs from the mark. *)

(** [str(n)] for a natural number *)
Definition decimal (n : nat) : text :=
  list_ascii_of_string
    (DecimalString.NilEmpty.string_of_uint (Nat.to_uint n)).

(** [f"day_{idx}"] *)
Definition day_key (idx : nat) : text := lit "day_" ++ decimal idx.

(** [d[key] = v]: the value is replaced where the key is, or the entry
    is added at the end. *)
Fixpoint dict_set {V : Type} (key : text) (v : V) (d : list (text * V))
    : list (text * V) :=
  match d with
  | [] => [(key, v)]
  | (k, x) :: d' =>
      if text_eqb k key then (k, v) :: d' else (k, x) :: dict_set key v d'
  end.

(** [progress_data.get(day_key, {}).get("completed", False)]: a value
    that is not a dict has no [get]. *)
Definition is_completed (progress_data : json) (idx : nat) : outcome json :=
  match progress_data with
  | JObj kv =>
      match dict_get (day_key idx) kv with
      | None => Returned (JBool false)
      | Some (JObj e) =>
          match dict_get (lit "completed") e with
          | Some v => Returned v
          | None => Returned (JBool false)
          end
      | Some _ => Raised AttributeError
      end
  | _ => Raised AttributeError
  end.

(** [completed != is_completed], for the [bool] of the checkbox and a
    JSON value: [True] equals [1] and [False] equals [0]. *)
Definition differs (completed : bool) (v : json) : bool :=
  match v with
  | JBool b => negb (Bool.eqb completed b)
  | JNum z => negb (Z.eqb z (if completed then 1 else 0))
  | _ => true
  end.

(** The entry stored for a day. *)
Definition day_record (completed : bool) (it : item) : json :=
  JObj [(lit "completed", JBool completed);
        (lit "title", JStr (day_title it));
        (lit "topic", JStr (topic it))].

(** One turn of the loop, for the checkbox state [completed]: the
    progress record after it, the files, and how the turn ends.  The
    assignment is reached only when [progress_data] is a dict, since
    [get] raised otherwise. *)
Definition track_day (hash : text -> Z) (user_goal : text) (idx : nat)
    (it : item) (completed : bool) (progress_data : json) (st : fsys)
    : json * fsys * outcome unit :=
  match is_completed progress_data idx with
  | Raised e => (progress_data, st, Raised e)
  | Returned v =>
      if differs completed v then
        match progress_data with
        | JObj kv =>
            let pd := JObj (dict_set (day_key idx)
                              (day_record completed it) kv) in
            (pd, fst (save_progress hash user_goal pd st),
             snd (save_progress hash user_goal pd st))
        | _ => (progress_data, st, Raised AttributeError)
        end
      else (progress_data, st, Returned tt)
  end.

(** ** Counting lines *)

(** The number of line boundaries characters in a text. *)
Definition line_breaks (s : text) : nat := length (filter is_linebreak s).

(** A plan with three lines before its first day. *)
Definition long_titled_plan : text :=
  unlines ["Course"; "Python in a week"; "A plan"; "Day 1: Basics";
           "Topic: Variables"]%string.

(** ** All characters *)

Definition all_chars : list ascii := map ascii_of_nat (seq 0 256).

(** No character other than [c] has an encoding that begins with the
    encoding of [c], or of which the encoding of [c] is the beginning. *)
Definition encoding_apart (c : ascii) : bool :=
  forallb (fun d => ascii_eqb c d
                    || negb (startswith (quote_char c) (quote_char d)
                             || startswith (quote_char d) (quote_char c)))
          all_chars.

(** ** Texts of one day

    A text that the primary parser takes as one block: trimmed, it begins
    with a day header, [Day], white space, a number and [:] or [-], and no
    day header follows white space anywhere in it. *)
Definition one_day_block (t : text) : bool :=
  day_prefix (strip t) && negb (is_some (re_search flag_i canon_re t)).

(** [Day], white space and a number at the start of a text. *)
Definition bare_prefix (s : text) : bool :=
  is_some
    (and_then (and_then (and_then (and_then
       (eat_ci "D" s) (eat_ci "a")) (eat_ci "y")) (eat_plus is_space))
       (eat_plus is_digit)).

(** A text that only the fallback parser takes as a block: it begins with
    [Day], white space and a number, no [:] or [-] comes after the number,
    and [day] does not occur in it again, in any letter case. *)
Definition bare_day_block (t : text) : bool :=
  bare_prefix t && negb (day_prefix t)
  && negb (contains_ci (lit "day") (tl t)).

(** ** Links with the sentinel token *)






(** * Properties *)

Unset Implicit Arguments.

(** ** Persistence *)

Lemma path_eqb_refl : forall p, path_eqb p p = true.
Proof. destruct p; simpl; auto using Z.eqb_refl. Qed.

(** [_ensure_data_dir] where the directory is in place or can be made:
    it returns, the directory is there, and nothing else has changed. *)
Lemma ensure_ok :
  forall st,
    data_dir st || can_make_dir st = true ->
    exists st',
      _ensure_data_dir st = (st', Returned tt) /\
      data_dir st' = true /\ files st' = files st /\
      readable st' = readable st /\ can_open st' = can_open st /\
      dump_fails st' = dump_fails st /\ can_make_dir st' = can_make_dir st.
Proof.
  intros [d cm rd co df]; unfold _ensure_data_dir, data_dir, files; simpl.
  destruct d as [d|]; simpl.
  - intros _; eexists; repeat split; reflexivity.
  - intros ->; eexists; repeat split; reflexivity.
Qed.

Lemma ensure_present :
  forall st, data_dir st = true -> _ensure_data_dir st = (st, Returned tt).
Proof.
  intros st; unfold _ensure_data_dir, data_dir.
  destruct (dir st); [reflexivity | discriminate].
Qed.

Lemma ensure_fails :
  forall st,
    data_dir st = false -> can_make_dir st = false ->
    _ensure_data_dir st = (st, Raised OSError).
Proof.
  intros st; unfold _ensure_data_dir, data_dir.
  destruct (dir st); [discriminate|].
  intros _ ->; reflexivity.
Qed.

Lemma file_in_data_dir :
  forall st p, is_some (files st p) = true -> data_dir st = true.
Proof.
  intros st p; unfold files, data_dir; destruct (dir st); auto.
Qed.

Lemma writable_parts :
  forall st p,
    writable st p = true ->
    data_dir st || can_make_dir st = true /\ can_open st p = true /\
    dump_fails st p = None.
Proof.
  intros st p; unfold writable; intros H.
  apply andb_prop in H; destruct H as [H H3].
  apply andb_prop in H; destruct H as [H1 H2].
  repeat split; auto.
  destruct (dump_fails st p); [discriminate | reflexivity].
Qed.

(** What [load_history] returns depends on the history file alone, once
    the directory is there. *)
Lemma load_history_present :
  forall st,
    data_dir st = true ->
    load_history st
    = (st, Returned
             (if negb (is_some (files st HistoryPath)) then JArr []
              else match read_json HistoryPath st with
                   | Returned v => v
                   | Raised _ => JArr []
                   end)).
Proof.
  intros st H; unfold load_history; rewrite (ensure_present st H).
  destruct (negb _); [reflexivity|].
  destruct (read_json _ _); reflexivity.
Qed.

Lemma load_progress_present :
  forall hash g st,
    data_dir st = true ->
    load_progress hash g st
    = (st, Returned
             (if negb (is_some (files st (progress_file hash g))) then JObj []
              else match read_json (progress_file hash g) st with
                   | Returned v => v
                   | Raised _ => JObj []
                   end)).
Proof.
  intros hash g st H; unfold load_progress; rewrite (ensure_present st H).
  cbv zeta; destruct (negb _); [reflexivity|].
  destruct (read_json _ _); reflexivity.
Qed.

(** A loader that returns has found or made the directory. *)
Lemma load_history_returned :
  forall st v,
    snd (load_history st) = Returned v ->
    data_dir st || can_make_dir st = true.
Proof.
  intros st v; unfold load_history, _ensure_data_dir, data_dir.
  destruct (dir st); [reflexivity|].
  destruct (can_make_dir st); [reflexivity | discriminate].
Qed.

(** A loader on the state that [_ensure_data_dir] leaves. *)
Lemma load_history_ensured :
  forall st st',
    _ensure_data_dir st = (st', Returned tt) ->
    load_history st = load_history st'.
Proof.
  intros st st' E.
  assert (Hd : data_dir st' = true).
  { revert E; unfold _ensure_data_dir, data_dir.
    destruct (dir st) eqn:D.
    - intros E; inversion E; subst st'; rewrite D; reflexivity.
    - destruct (can_make_dir st); intros E; inversion E; reflexivity. }
  unfold load_history at 1; rewrite E.
  rewrite (load_history_present st' Hd).
  destruct (negb _); [reflexivity|].
  destruct (read_json _ _); reflexivity.
Qed.

Lemma load_progress_ensured :
  forall hash g st st',
    _ensure_data_dir st = (st', Returned tt) ->
    load_progress hash g st = load_progress hash g st'.
Proof.
  intros hash g st st' E.
  assert (Hd : data_dir st' = true).
  { revert E; unfold _ensure_data_dir, data_dir.
    destruct (dir st) eqn:D.
    - intros E; inversion E; subst st'; rewrite D; reflexivity.
    - destruct (can_make_dir st); intros E; inversion E; reflexivity. }
  unfold load_progress at 1; rewrite E.
  rewrite (load_progress_present hash g st' Hd).
  cbv zeta; destruct (negb _); [reflexivity|].
  destruct (read_json _ _); reflexivity.
Qed.

(** What a successful write leaves behind. *)
Lemma write_json_ok :
  forall p v st,
    data_dir st = true -> can_open st p = true -> dump_fails st p = None ->
    write_json p v st = (set_file p (Json v) st, Returned tt).
Proof.
  intros p v st H1 H2 H3; unfold write_json; rewrite H1, H2, H3; reflexivity.
Qed.

Lemma set_file_same :
  forall p c st, files (set_file p c st) p = Some c.
Proof. intros; unfold set_file, files; simpl; rewrite path_eqb_refl; auto. Qed.

Lemma set_file_other :
  forall p c st q, path_eqb q p = false -> files (set_file p c st) q = files st q.
Proof. intros p c st q H; unfold set_file, files at 1; simpl; rewrite H; auto. Qed.

Lemma set_file_data_dir : forall p c st, data_dir (set_file p c st) = true.
Proof. reflexivity. Qed.

Lemma write_json_fails :
  forall p v st,
    data_dir st = true -> writable st p = false ->
    snd (write_json p v st) = Raised OSError.
Proof.
  intros p v st Hd Hw; unfold write_json, writable in *; rewrite Hd in *.
  simpl in *; destruct (can_open st p); simpl in *; [|reflexivity].
  destruct (dump_fails st p); [reflexivity | discriminate].
Qed.

(** Reading back a file that holds a value. *)
Lemma load_history_of_value :
  forall st v,
    files st HistoryPath = Some (Json v) ->
    readable st HistoryPath = true ->
    load_history st = (st, Returned v).
Proof.
  intros st v Hf Hr.
  rewrite load_history_present
    by (apply (file_in_data_dir st HistoryPath); rewrite Hf; reflexivity).
  unfold read_json; rewrite Hf, Hr; reflexivity.
Qed.

Lemma load_progress_of_value :
  forall hash g st v,
    files st (progress_file hash g) = Some (Json v) ->
    readable st (progress_file hash g) = true ->
    load_progress hash g st = (st, Returned v).
Proof.
  intros hash g st v Hf Hr.
  rewrite load_progress_present
    by (apply (file_in_data_dir st (progress_file hash g)); rewrite Hf;
        reflexivity).
  unfold read_json; rewrite Hf, Hr; reflexivity.
Qed.

(** One append: the record goes after what [load_history] returned. *)
Lemma save_history_record_appends :
  forall r st prev,
    writable st HistoryPath = true ->
    snd (load_history st) = Returned (JArr prev) ->
    snd (save_history_record r st) = Returned tt /\
    files (fst (save_history_record r st)) HistoryPath
      = Some (Json (JArr (prev ++ [r]))) /\
    readable (fst (save_history_record r st)) = readable st /\
    (forall p, writable (fst (save_history_record r st)) p = writable st p).
Proof.
  intros r st prev Hw Hl.
  destruct (writable_parts _ _ Hw) as (Hd & Ho & Hf).
  destruct (ensure_ok st Hd) as (st' & E & D' & F' & R' & O' & DF' & CM').
  unfold save_history_record; rewrite E.
  rewrite (load_history_ensured st st' E) in Hl.
  rewrite (load_history_present st' D') in *; simpl in Hl.
  inversion Hl as [Hl']; rewrite Hl'.
  rewrite write_json_ok by (rewrite ?O', ?DF'; auto).
  simpl; rewrite set_file_same; repeat split; auto.
  intros p; unfold writable; rewrite Hd; simpl.
  rewrite O', DF'; reflexivity.
Qed.



(** C9, as stated for every starting state: on a history file that holds
    the one record [rec_old] and can be written but not read,
    [load_history()] returns the empty list at the start, both calls
    return, and afterwards [load_history()] still returns the empty list,
    with neither [rec_a] nor [rec_b] in it, while the file holds [rec_b]
    alone. *)
Lemma history_lost_on_write_only_file :
  let st := write_only_history_fs in
  let r1 := save_history_record rec_a st in
  let r2 := save_history_record rec_b (fst r1) in
  files st HistoryPath = Some (Json (JArr [rec_old])) /\
  snd (load_history st) = Returned (JArr []) /\
  snd r1 = Returned tt /\ snd r2 = Returned tt /\
  snd (load_history (fst r2)) = Returned (JArr []) /\
  files (fst r2) HistoryPath = Some (Json (JArr [rec_b])).
Proof. vm_compute; repeat split. Qed.

(** C10: when the history file exists but cannot be read or does not hold
    JSON, [load_history] returns the empty list, and
    [save_history_record(r)] returns normally and leaves a file that holds
    the one-element list of [r]: whatever the file held is gone, and no
    error reports it. *)
Theorem corrupt_history_is_replaced :
  forall r st,
    is_some (files st HistoryPath) = true ->
    (readable st HistoryPath = false \/
     exists raw, files st HistoryPath = Some (Garbage raw)) ->
    writable st HistoryPath = true ->
    snd (load_history st) = Returned (JArr []) /\
    snd (save_history_record r st) = Returned tt /\
    files (fst (save_history_record r st)) HistoryPath
      = Some (Json (JArr [r])).
Proof.
  intros r st Hex Hbad Hw.
  assert (Hl : snd (load_history st) = Returned (JArr [])).
  { rewrite load_history_present by (apply (file_in_data_dir _ _ Hex)).
    unfold read_json; rewrite Hex; simpl.
    destruct Hbad as [Hr | [raw Hg]].
    - rewrite Hr; reflexivity.
    - rewrite Hg; destruct (readable st HistoryPath); reflexivity. }
  destruct (save_history_record_appends r st [] Hw Hl) as (A1 & A2 & _).
  auto.
Qed.

Lemma corrupt_history_is_replaced_witness :
  let st := fs_with_history (Garbage (lit "[{")) in
  snd (load_history st) = Returned (JArr []) /\
  snd (save_history_record rec_a st) = Returned tt /\
  files (fst (save_history_record rec_a st)) HistoryPath
    = Some (Json (JArr [rec_a])).
Proof.
  apply (corrupt_history_is_replaced rec_a
           (fs_with_history (Garbage (lit "[{")))).
  - reflexivity.
  - right; exists (lit "[{"); reflexivity.
  - reflexivity.
Defined.

(** [save_progress] returns whenever the directory is there or can be
    made, whatever becomes of the write. *)
Lemma save_progress_returns :
  forall hash g r st,
    data_dir st || can_make_dir st = true ->
    snd (save_progress hash g r st) = Returned tt.
Proof.
  intros hash g r st Hd.
  destruct (ensure_ok st Hd) as (st' & E & _).
  unfold save_progress; rewrite E; cbv zeta.
  destruct (write_json _ _ _) as [st2 [u|e]]; reflexivity.
Qed.

Lemma save_history_record_raises :
  forall r st,
    writable st HistoryPath = false ->
    exists e, snd (save_history_record r st) = Raised e.
Proof.
  intros r st Hw; unfold save_history_record.
  destruct (data_dir st || can_make_dir st) eqn:Hd.
  - destruct (ensure_ok st Hd) as (st' & E & D' & F' & R' & O' & DF' & CM').
    rewrite E, (load_history_present st' D').
    match goal with |- context [match ?h with JArr _ => _ | _ => _ end] =>
      destruct h end; try (eexists; reflexivity).
    rewrite write_json_fails; [eexists; reflexivity | exact D' |].
    revert Hw; unfold writable; rewrite O', DF', D', Hd; auto.
  - apply orb_false_elim in Hd; destruct Hd as [H1 H2].
    rewrite (ensure_fails st H1 H2); eexists; reflexivity.
Qed.

Lemma save_history_record_write_error :
  forall r st l,
    data_dir st || can_make_dir st = true ->
    writable st HistoryPath = false ->
    snd (load_history st) = Returned (JArr l) ->
    snd (save_history_record r st) = Raised OSError.
Proof.
  intros r st l Hd Hw Hl.
  destruct (ensure_ok st Hd) as (st' & E & D' & F' & R' & O' & DF' & CM').
  unfold save_history_record; rewrite E.
  rewrite (load_history_ensured st st' E) in Hl.
  rewrite (load_history_present st' D') in *; simpl in Hl.
  inversion Hl as [Hl']; rewrite Hl'.
  apply write_json_fails; [exact D'|].
  revert Hw; unfold writable; rewrite O', DF', D', Hd; auto.
Qed.

(** C5: a failed write.  While the directory is there or can be made, a
    file that cannot be opened for writing, or a [json.dump] that fails,
    leaves [save_progress] returning normally, and makes
    [save_history_record] raise: the write error itself whenever the
    loaded history is a list.  When the directory is missing and cannot be
    made, [os.makedirs] raises before the [try], and [save_progress]
    raises to its caller as [save_history_record] does. *)
Theorem write_failure_asymmetry :
  forall hash g r rec st,
    (data_dir st || can_make_dir st = true ->
     writable st (progress_file hash g) = false ->
     snd (save_progress hash g r st) = Returned tt) /\
    (data_dir st || can_make_dir st = true ->
     writable st HistoryPath = false ->
     (exists e, snd (save_history_record rec st) = Raised e) /\
     (forall l, snd (load_history st) = Returned (JArr l) ->
                snd (save_history_record rec st) = Raised OSError)) /\
    (data_dir st = false -> can_make_dir st = false ->
     save_progress hash g r st = (st, Raised OSError) /\
     save_history_record rec st = (st, Raised OSError)).
Proof.
  intros hash g r rec st; repeat split.
  - intros Hd _; apply save_progress_returns; exact Hd.
  - apply save_history_record_raises; assumption.
  - intros l Hl; apply (save_history_record_write_error rec st l); assumption.
  - unfold save_progress; rewrite (ensure_fails st H H0); reflexivity.
  - unfold save_history_record; rewrite (ensure_fails st H H0); reflexivity.
Qed.

Lemma write_failure_asymmetry_witness :
  snd (save_progress (str_hash 1) goal_rust progress_day1 read_only_fs)
    = Returned tt /\
  snd (save_progress (str_hash 1) goal_rust progress_day1 full_disk_fs)
    = Returned tt /\
  ((exists e, snd (save_history_record rec_a read_only_fs) = Raised e) /\
   (forall l, snd (load_history full_disk_fs) = Returned (JArr l) ->
              snd (save_history_record rec_a full_disk_fs)
                = Raised OSError)) /\
  (save_progress (str_hash 1) goal_rust progress_day1 no_dir_fs
     = (no_dir_fs, Raised OSError) /\
   save_history_record rec_a no_dir_fs = (no_dir_fs, Raised OSError)).
Proof.
  split; [|split; [|split]].
  - apply (write_failure_asymmetry (str_hash 1) goal_rust progress_day1
             rec_a read_only_fs); reflexivity.
  - apply (write_failure_asymmetry (str_hash 1) goal_rust progress_day1
             rec_a full_disk_fs); reflexivity.
  - split.
    + apply (write_failure_asymmetry (str_hash 1) goal_rust progress_day1
               rec_a read_only_fs); reflexivity.
    + apply (write_failure_asymmetry (str_hash 1) goal_rust progress_day1
               rec_a full_disk_fs); reflexivity.
  - apply (write_failure_asymmetry (str_hash 1) goal_rust progress_day1
             rec_a no_dir_fs); reflexivity.
Defined.

(** Within one process, on a file that can be written and read, the
    record saved for a goal is the record loaded for it. *)
Lemma progress_roundtrip_same_process :
  forall hash g r st,
    writable st (progress_file hash g) = true ->
    readable st (progress_file hash g) = true ->
    snd (load_progress hash g (fst (save_progress hash g r st)))
    = Returned r.
Proof.
  intros hash g r st Hw Hr.
  destruct (writable_parts _ _ Hw) as (Hd & Ho & Hf).
  destruct (ensure_ok st Hd) as (st' & E & D' & F' & R' & O' & DF' & CM').
  unfold save_progress; rewrite E; cbv zeta.
  rewrite write_json_ok by (rewrite ?O', ?DF'; auto).
  simpl; rewrite (load_progress_of_value hash g _ r); [reflexivity| |].
  - apply set_file_same.
  - simpl; rewrite R'; exact Hr.
Qed.

(** The state that [save_progress] leaves. *)
Lemma save_progress_state :
  forall hash g r st,
    (data_dir st = false /\ can_make_dir st = false /\
     save_progress hash g r st = (st, Raised OSError)) \/
    (exists st',
       _ensure_data_dir st = (st', Returned tt) /\
       fst (save_progress hash g r st)
       = fst (write_json (progress_file hash g) r st')).
Proof.
  intros hash g r st.
  destruct (data_dir st || can_make_dir st) eqn:Hd.
  - right; destruct (ensure_ok st Hd) as (st' & E & _).
    exists st'; split; [exact E|].
    unfold save_progress; rewrite E; cbv zeta.
    destruct (write_json _ _ _) as [st2 [u|e]]; reflexivity.
  - left; apply orb_false_elim in Hd; destruct Hd as [H1 H2].
    repeat split; auto.
    unfold save_progress; rewrite (ensure_fails st H1 H2); reflexivity.
Qed.

(** A write changes the file it names and nothing else. *)
Lemma write_json_frame :
  forall p v st q,
    data_dir st = true ->
    path_eqb q p = false ->
    files (fst (write_json p v st)) q = files st q.
Proof.
  intros p v st q Hd H; unfold write_json.
  destruct (data_dir st && can_open st p); [|reflexivity].
  destruct (dump_fails st p); simpl; apply set_file_other; exact H.
Qed.

Lemma write_json_modes :
  forall p v st,
    data_dir st = true ->
    readable (fst (write_json p v st)) = readable st /\
    data_dir (fst (write_json p v st)) = true.
Proof.
  intros p v st Hd; unfold write_json.
  destruct (data_dir st && can_open st p); [|auto].
  destruct (dump_fails st p); simpl; auto.
Qed.

(** A process whose [hash] gives the goal another key finds no file and
    loads the empty record. *)
Lemma progress_lost_under_other_hash :
  forall hash1 hash2 g r st,
    hash1 g <> hash2 g ->
    data_dir st || can_make_dir st = true ->
    files st (progress_file hash2 g) = None ->
    snd (load_progress hash2 g (fst (save_progress hash1 g r st)))
    = Returned (JObj []).
Proof.
  intros hash1 hash2 g r st Hne Hd Hnone.
  destruct (save_progress_state hash1 g r st) as [(H1 & H2 & _) | (st' & E & S)].
  - rewrite H1, H2 in Hd; discriminate.
  - destruct (ensure_ok st Hd) as (st2 & E2 & D' & F' & _).
    rewrite E in E2; inversion E2; subst st2.
    rewrite S.
    destruct (write_json_modes (progress_file hash1 g) r st' D') as [_ D2].
    rewrite (load_progress_present _ _ _ D2).
    rewrite write_json_frame, F', Hnone; [reflexivity | exact D' |].
    unfold progress_file; simpl; apply Z.eqb_neq; congruence.
Qed.

(** C1, at the failing input: the progress saved for the goal
    [learn rust] by a process started with hash seed 1 is found again by
    that process, and is not found by a process started with hash seed 2,
    which loads the empty record. *)
Theorem progress_not_found_after_restart :
  let st := fst (save_progress (str_hash 1) goal_rust progress_day1
                   empty_fs) in
  snd (load_progress (str_hash 1) goal_rust st) = Returned progress_day1 /\
  snd (load_progress (str_hash 2) goal_rust st) = Returned (JObj []) /\
  progress_file (str_hash 1) goal_rust = ProgressPath (-8164428743978048644) /\
  progress_file (str_hash 2) goal_rust = ProgressPath 2061378092042310116.
Proof. vm_compute; repeat split. Qed.

(** ** The matcher against the relation *)

Lemma last_of_app :
  forall pv w1 w2, last_of pv (w1 ++ w2) = last_of (last_of pv w1) w2.
Proof. intros; unfold last_of; apply fold_left_app. Qed.

Lemma last_of_cons :
  forall pv c w, last_of pv (c :: w) = last_of (Some c) w.
Proof. reflexivity. Qed.

Lemma last_of_snoc : forall pv w c, last_of pv (w ++ [c]) = Some c.
Proof. intros; rewrite last_of_app; reflexivity. Qed.

Section MatcherCorrect.
Variable A : Type.
Variable f : flags.

Lemma star_greedy_sound :
  forall p l n pv cp (k : mstate -> option A) x,
    star_greedy p l n pv cp k = Some x ->
    exists w l',
      l = w ++ l' /\ Forall (fun c => p c = true) w /\
      k (MState (n + length w) (last_of pv w) l' cp) = Some x.
Proof.
  induction l as [|c t IH]; intros n pv cp k x H; simpl in H.
  - exists [], []; simpl; rewrite Nat.add_0_r; auto.
  - destruct (p c) eqn:Hp.
    + destruct (star_greedy p t (S n) (Some c) cp k) eqn:E.
      * inversion H; subst a.
        destruct (IH _ _ _ _ _ E) as (w & l' & -> & Hw & Hk).
        exists (c :: w), l'; simpl; repeat split; auto.
        rewrite <- plus_n_Sm; exact Hk.
      * exists [], (c :: t); simpl; rewrite Nat.add_0_r; auto.
    + exists [], (c :: t); simpl; rewrite Nat.add_0_r; auto.
Qed.

Lemma star_lazy_sound :
  forall p l n pv cp (k : mstate -> option A) x,
    star_lazy p l n pv cp k = Some x ->
    exists w l',
      l = w ++ l' /\ Forall (fun c => p c = true) w /\
      k (MState (n + length w) (last_of pv w) l' cp) = Some x.
Proof.
  induction l as [|c t IH]; intros n pv cp k x H; simpl in H.
  - destruct (k (MState n pv [] cp)) eqn:E; [|discriminate].
    exists [], []; simpl; rewrite Nat.add_0_r; split; [auto|].
    split; [constructor | congruence].
  - destruct (k (MState n pv (c :: t) cp)) eqn:E.
    + exists [], (c :: t); simpl; rewrite Nat.add_0_r; split; [auto|].
      split; [constructor | congruence].
    + destruct (p c) eqn:Hp; [|discriminate].
      destruct (IH _ _ _ _ _ H) as (w & l' & -> & Hw & Hk).
      exists (c :: w), l'; simpl; repeat split; auto.
      rewrite <- plus_n_Sm; exact Hk.
Qed.

Lemma star_greedy_complete :
  forall p w l' n pv cp (k : mstate -> option A),
    Forall (fun c => p c = true) w ->
    (exists x, k (MState (n + length w) (last_of pv w) l' cp) = Some x) ->
    exists x, star_greedy p (w ++ l') n pv cp k = Some x.
Proof.
  induction w as [|c w IH]; intros l' n pv cp k Hw Hk.
  - simpl in Hk; rewrite Nat.add_0_r in Hk.
    destruct l' as [|c t]; simpl; [exact Hk|].
    destruct (p c); [|exact Hk].
    destruct (star_greedy p t (S n) (Some c) cp k); [eauto | exact Hk].
  - inversion Hw as [|? ? Hc Hw']; subst; simpl; rewrite Hc.
    destruct (IH l' (S n) (Some c) cp k Hw') as [x Hx].
    + simpl in Hk; rewrite <- plus_n_Sm in Hk; exact Hk.
    + rewrite Hx; eauto.
Qed.

Lemma star_lazy_complete :
  forall p w l' n pv cp (k : mstate -> option A),
    Forall (fun c => p c = true) w ->
    (exists x, k (MState (n + length w) (last_of pv w) l' cp) = Some x) ->
    exists x, star_lazy p (w ++ l') n pv cp k = Some x.
Proof.
  induction w as [|c w IH]; intros l' n pv cp k Hw Hk.
  - simpl in Hk; rewrite Nat.add_0_r in Hk; destruct Hk as [x Hx].
    destruct l'; simpl; rewrite Hx; eauto.
  - inversion Hw as [|? ? Hc Hw']; subst; simpl.
    destruct (k (MState n pv (c :: w ++ l') cp)); [eauto|].
    rewrite Hc; apply IH; auto.
    simpl in Hk; rewrite <- plus_n_Sm in Hk; exact Hk.
Qed.

(** Whatever the matcher finds is a match of the relation. *)
Lemma run_sound :
  forall r s (k : mstate -> option A) x,
    run f r s k = Some x ->
    exists w s',
      rest s = w ++ rest s' /\ pos s' = pos s + length w /\
      prev s' = last_of (prev s) w /\
      matches f r (prev s) w (rest s') /\ k s' = Some x.
Proof.
  induction r; intros s k x H; simpl in H.
  - exists [], s; simpl; rewrite Nat.add_0_r; repeat split; auto.
    constructor.
  - unfold step in H; destruct (rest s) as [|c t] eqn:Er; [discriminate|].
    destruct (accepts f a c) eqn:Ea; [|discriminate].
    eexists [c], _; simpl; repeat split; try exact H; simpl; auto.
    + rewrite Nat.add_1_r; reflexivity.
    + constructor; exact Ea.
  - destruct (IHr1 _ _ _ H) as (w1 & s1 & E1 & P1 & V1 & M1 & K1).
    destruct (IHr2 _ _ _ K1) as (w2 & s2 & E2 & P2 & V2 & M2 & K2).
    exists (w1 ++ w2), s2; repeat split; auto.
    + rewrite E1, E2, app_assoc; reflexivity.
    + rewrite P2, P1, length_app; lia.
    + rewrite V2, V1, last_of_app; reflexivity.
    + constructor; [rewrite <- E2; exact M1 | rewrite <- V1; exact M2].
  - destruct (run f r1 s k) eqn:E.
    + inversion H; subst a.
      destruct (IHr1 _ _ _ E) as (w & s' & ? & ? & ? & ? & ?).
      exists w, s'; repeat split; auto using M_AltL.
    + destruct (IHr2 _ _ _ H) as (w & s' & ? & ? & ? & ? & ?).
      exists w, s'; repeat split; auto using M_AltR.
  - unfold on_state in H.
    destruct (star_greedy_sound _ _ _ _ _ _ _ H) as (w & l' & E & Hw & Hk).
    eexists w, _; repeat split; try exact Hk; simpl; auto.
    constructor; exact Hw.
  - unfold step in H; destruct (rest s) as [|c t] eqn:Er; [discriminate|].
    destruct (accepts f a c) eqn:Ea; [|discriminate].
    unfold on_state in H; simpl in H.
    destruct (star_greedy_sound _ _ _ _ _ _ _ H) as (w & l' & E & Hw & Hk).
    exists (c :: w),
      (MState (S (pos s) + length w) (last_of (Some c) w) l' (caps s)).
    simpl; repeat split; auto.
    + rewrite E; reflexivity.
    + constructor; [discriminate | constructor; auto].
  - unfold on_state in H.
    destruct (star_lazy_sound _ _ _ _ _ _ _ H) as (w & l' & E & Hw & Hk).
    eexists w, _; repeat split; try exact Hk; simpl; auto.
    constructor; exact Hw.
  - destruct (run f r s k) eqn:E.
    + inversion H; subst a.
      destruct (IHr _ _ _ E) as (w & s' & ? & ? & ? & ? & ?).
      exists w, s'; repeat split; auto using M_OptSome.
    + exists [], s; simpl; rewrite Nat.add_0_r; repeat split; auto.
      apply M_OptNone.
  - destruct (IHr _ _ _ H) as (w & s' & ? & ? & ? & ? & ?).
    exists w, (set_cap n (pos s, pos s') s'); repeat split; auto.
    constructor; assumption.
  - destruct (IHr _ _ _ H) as (w & s' & E & ? & ? & M & K).
    exists [], s; simpl; rewrite Nat.add_0_r; repeat split; auto.
    rewrite E; constructor; exact M.
  - destruct (at_bol f s) eqn:E; [|discriminate].
    exists [], s; simpl; rewrite Nat.add_0_r; repeat split; auto.
    constructor; exact E.
  - destruct (at_eol f s) eqn:E; [|discriminate].
    exists [], s; simpl; rewrite Nat.add_0_r; repeat split; auto.
    constructor; exact E.
Qed.

(** Whenever the relation has a match at the position of the matcher,
    and the continuation accepts what follows it, the matcher finds a
    match. *)
Lemma run_complete :
  forall r pv w k',
    matches f r pv w k' ->
    forall s (k : mstate -> option A),
      prev s = pv -> rest s = w ++ k' ->
      (forall s', pos s' = pos s + length w ->
                  prev s' = last_of pv w -> rest s' = k' ->
                  exists x, k s' = Some x) ->
      exists x, run f r s k = Some x.
Proof.
  induction 1; intros s k0 Hp Hr Hk; simpl.
  - apply Hk; simpl; auto.
  - unfold step; rewrite Hr; simpl; rewrite H.
    apply Hk; simpl; auto. rewrite Nat.add_1_r; reflexivity.
  - apply IHmatches1; auto.
    + rewrite Hr, app_assoc; reflexivity.
    + intros s1 P1 V1 R1.
      apply IHmatches2; auto.
      intros s2 P2 V2 R2; apply Hk; auto.
      * rewrite P2, P1, length_app; lia.
      * rewrite V2, last_of_app; reflexivity.
  - destruct (IHmatches s k0 Hp Hr Hk) as [x Hx]; rewrite Hx; eauto.
  - destruct (run f r1 s k0); [eauto|]. apply IHmatches; auto.
  - unfold on_state; rewrite Hr.
    apply star_greedy_complete; [exact H|].
    apply Hk; simpl; congruence.
  - destruct w as [|c w]; [congruence|].
    inversion H0 as [|? ? Hc Hw]; subst.
    unfold step; rewrite Hr; simpl; rewrite Hc.
    unfold on_state; simpl.
    apply star_greedy_complete; [exact Hw|].
    apply Hk; simpl; auto.
  - unfold on_state; rewrite Hr.
    apply star_lazy_complete; [exact H|].
    apply Hk; simpl; congruence.
  - destruct (IHmatches s k0 Hp Hr Hk) as [x Hx]; rewrite Hx; eauto.
  - destruct (run f r s k0); [eauto|]. apply Hk; simpl; auto.
  - apply IHmatches; auto;
      intros s' P V R; apply Hk; simpl; auto.
  - apply (IHmatches s (fun _ => k0 s)); auto;
      intros s' _ _ _; apply Hk; simpl; auto.
  - unfold at_bol; rewrite Hp; unfold bol_at in H; rewrite H.
    apply Hk; simpl; auto.
  - unfold at_eol; simpl in Hr; rewrite Hr.
    unfold eol_at in H; rewrite H; apply Hk; simpl; auto.
Qed.
End MatcherCorrect.

Lemma match_here_sound :
  forall f r s m,
    match_here f r s = Some m ->
    exists w k,
      rest s = w ++ k /\ matches f r (prev s) w k /\
      m_start m = pos s /\ m_end m = pos s + length w.
Proof.
  intros f r s m H; unfold match_here in H.
  destruct (run_sound _ _ _ _ _ _ H) as (w & s' & E & P & V & M & K).
  simpl in *; inversion K; subst m; simpl.
  exists w, (rest s'); auto.
Qed.

Lemma match_here_complete :
  forall f r s w k,
    rest s = w ++ k -> matches f r (prev s) w k ->
    exists m, match_here f r s = Some m.
Proof.
  intros f r s w k E M; unfold match_here.
  eapply run_complete; simpl; eauto.
Qed.

Lemma match_here_none :
  forall f r s,
    match_here f r s = None ->
    forall w k, rest s = w ++ k -> ~ matches f r (prev s) w k.
Proof.
  intros f r s H w k E M.
  destruct (match_here_complete f r s w k E M) as [m Hm]; congruence.
Qed.

(** [re.search] fails exactly when no position of the subject has a
    match. *)
Lemma search_from_none :
  forall f r l n pv,
    search_from f r n pv l = None <->
    (forall a w b, l = a ++ w ++ b -> ~ matches f r (last_of pv a) w b).
Proof.
  induction l as [|c t IH]; intros n pv; simpl.
  - destruct (match_here f r (MState n pv [] [])) eqn:E; split; intros H.
    + discriminate.
    + destruct (match_here_sound _ _ _ _ E) as (w & k & Er & M & _).
      simpl in *; exfalso; apply (H [] w k); auto.
    + intros a w b Hl M.
      destruct a; [|discriminate]; simpl in *.
      eapply (match_here_none _ _ _ E); eauto.
    + reflexivity.
  - destruct (match_here f r (MState n pv (c :: t) [])) eqn:E; split; intros H.
    + discriminate.
    + destruct (match_here_sound _ _ _ _ E) as (w & k & Er & M & _).
      simpl in *; exfalso; apply (H [] w k); auto.
    + intros a w b Hl M.
      destruct a as [|c' a]; simpl in *.
      * eapply (match_here_none _ _ _ E); eauto.
      * inversion Hl; subst c' t.
        apply (proj1 (IH (S n) (Some c)) H a w b); auto.
    + apply IH; intros a w b Hl M.
      apply (H (c :: a) w b); [simpl; congruence | exact M].
Qed.

(** [re.search] returns a match at the leftmost position that has one. *)
Lemma search_from_some :
  forall f r l n pv m,
    search_from f r n pv l = Some m ->
    exists a w b,
      l = a ++ w ++ b /\ matches f r (last_of pv a) w b /\
      m_start m = n + length a /\ m_end m = n + length a + length w /\
      (forall a' w' b', l = a' ++ w' ++ b' -> length a' < length a ->
                        ~ matches f r (last_of pv a') w' b').
Proof.
  induction l as [|c t IH]; intros n pv m H; simpl in H.
  - destruct (match_here f r (MState n pv [] [])) eqn:E; [|discriminate].
    inversion H; subst r0.
    destruct (match_here_sound _ _ _ _ E) as (w & k & Er & M & S1 & S2).
    simpl in *; exists [], w, k; simpl; rewrite Nat.add_0_r.
    repeat split; auto. intros; lia.
  - destruct (match_here f r (MState n pv (c :: t) [])) eqn:E.
    + inversion H; subst r0.
      destruct (match_here_sound _ _ _ _ E) as (w & k & Er & M & S1 & S2).
      simpl in *; exists [], w, k; simpl; rewrite Nat.add_0_r.
      repeat split; auto. intros; lia.
    + destruct (IH _ _ _ H) as (a & w & b & El & M & S1 & S2 & Hmin).
      exists (c :: a), w, b; simpl; repeat split; auto; try lia.
      * rewrite El; reflexivity.
      * intros a' w' b' El' Hlen M'.
        destruct a' as [|c' a']; simpl in *.
        { eapply (match_here_none _ _ _ E); eauto. }
        inversion El'; subst c'.
        apply (Hmin a' w' b'); auto; lia.
Qed.

Lemma re_search_none :
  forall f r s, re_search f r s = None <-> ~ matches_in f r s.
Proof.
  intros f r s; unfold re_search, matches_in; rewrite search_from_none.
  split.
  - intros H (a & w & b & E & M); exact (H a w b E M).
  - intros H a w b E M; apply H; eauto.
Qed.

Lemma re_search_some :
  forall f r s m,
    re_search f r s = Some m ->
    exists a w b,
      s = a ++ w ++ b /\ matches f r (last_of None a) w b /\
      m_start m = length a /\ m_end m = length a + length w /\
      (forall a' w' b', s = a' ++ w' ++ b' -> length a' < length a ->
                        ~ matches f r (last_of None a') w' b').
Proof. intros f r s m H; exact (search_from_some _ _ _ _ _ _ H). Qed.

Lemma scan_nil :
  forall f r l n pv,
    scan f r n pv l 0 = [] <-> search_from f r n pv l = None.
Proof.
  induction l as [|c t IH]; intros n pv; simpl.
  - destruct (match_here f r (MState n pv [] [])); split;
      intros; auto; discriminate.
  - destruct (match_here f r (MState n pv (c :: t) [])).
    + split; intros; discriminate.
    + apply IH.
Qed.

Lemma scan_head :
  forall f r l n pv m,
    search_from f r n pv l = Some m ->
    exists ms, scan f r n pv l 0 = m :: ms.
Proof.
  induction l as [|c t IH]; intros n pv m H; simpl in *.
  - destruct (match_here f r (MState n pv [] [])); [|discriminate].
    inversion H; subst; eauto.
  - destruct (match_here f r (MState n pv (c :: t) [])).
    + inversion H; subst; eauto.
    + apply IH; exact H.
Qed.

(** A pattern that matches nowhere leaves the subject as it is. *)
Lemma re_sub_no_match :
  forall f r repl s, re_search f r s = None -> re_sub f r repl s = s.
Proof.
  intros f r repl s H; unfold re_sub, re_finditer.
  rewrite (proj2 (scan_nil f r s 0 None) H); reflexivity.
Qed.

(** ** Extraction *)

(** C3, at the failing input: on the fragment itself the extractor
    returns one item with the topic [X] and the questions [Q1], [Q2], but
    its [day_title] is the default [Day]: [title_match] fails on a block of
    several lines, because [.] stops at the line feed and [$] needs the
    end of the block.  On the header line alone the title is parsed. *)
Theorem multiline_block_gets_default_title :
  extract_days_and_questions day1_fragment
    = [Item (lit "Day") (lit "X")
            (lit "https://www.youtube.com/results?search_query=X+tutorial")
            [lit "Q1"; lit "Q2"]] /\
  contains (lit "Day 1") (lit "Day") = false /\
  re_match flag_i title_re day1_fragment = None /\
  primary_title (lit "Day 1: Intro") = lit "Day 1:".
Proof. vm_compute; repeat split. Qed.

(** ** Strings *)

Lemma rstrip_by_snoc :
  forall p l x, p x = false -> rstrip_by p (l ++ [x]) = l ++ [x].
Proof.
  intros p l x Hx; unfold rstrip_by.
  rewrite rev_app_distr; simpl; rewrite Hx.
  change (x :: rev l) with ([x] ++ rev l).
  rewrite rev_app_distr, rev_involutive; reflexivity.
Qed.

Lemma strip_by_id :
  forall p c t,
    p c = false -> p (last (c :: t) c) = false ->
    strip_by p (c :: t) = c :: t.
Proof.
  intros p c t Hc Hl; unfold strip_by, lstrip_by.
  simpl dropwhile; rewrite Hc.
  assert (E : c :: t = removelast (c :: t) ++ [last (c :: t) c])
    by (apply app_removelast_last; discriminate).
  rewrite E; apply rstrip_by_snoc; exact Hl.
Qed.

Lemma lines_from_line :
  forall l tl,
    one_line l ->
    lines_from false (l ++ LF :: tl) = l :: lines_from false tl.
Proof.
  induction l as [|c l IH]; intros tl H.
  - reflexivity.
  - inversion H as [|? ? Hc Hl]; subst.
    simpl; rewrite Hc, (IH tl Hl); reflexivity.
Qed.

Lemma lines_from_last :
  forall l, l <> [] -> one_line l -> lines_from false l = [l].
Proof.
  induction l as [|c l IH]; intros Hne H; [congruence|].
  inversion H as [|? ? Hc Hl]; subst.
  simpl; rewrite Hc.
  destruct l as [|d l]; [reflexivity|].
  rewrite IH; [reflexivity | discriminate | exact Hl].
Qed.

(** Lines joined by line feeds split back into the same lines, when each
    is on one line and the last is not empty. *)
Lemma splitlines_join :
  forall lns,
    Forall one_line lns -> last lns [LF] <> [] ->
    splitlines (join [LF] lns) = lns.
Proof.
  unfold splitlines.
  induction lns as [|l lns IH]; intros H Hlast; [reflexivity|].
  inversion H as [|? ? Hl Hls]; subst.
  destruct lns as [|l2 lns].
  - simpl in *; apply lines_from_last; auto.
  - change (join [LF] (l :: l2 :: lns)) with (l ++ LF :: join [LF] (l2 :: lns)).
    rewrite lines_from_line by exact Hl.
    rewrite IH; auto.
Qed.

(** ** The matcher on known prefixes *)

(** A greedy run takes the whole run of accepted characters when the
    continuation succeeds after it. *)
Lemma star_greedy_max :
  forall A p w l' n pv cp (k : mstate -> option A) x,
    Forall (fun c => p c = true) w ->
    match l' with [] => True | c :: _ => p c = false end ->
    k (MState (n + length w) (last_of pv w) l' cp) = Some x ->
    star_greedy p (w ++ l') n pv cp k = Some x.
Proof.
  induction w as [|c w IH]; intros l' n pv cp k x Hw Hl Hk.
  - simpl in *; rewrite Nat.add_0_r in Hk.
    destruct l' as [|c t]; simpl; [exact Hk|].
    rewrite Hl; exact Hk.
  - inversion Hw as [|? ? Hc Hw']; subst; simpl; rewrite Hc.
    rewrite (IH l' (S n) (Some c) cp k x); auto.
    simpl in Hk; rewrite <- plus_n_Sm in Hk; exact Hk.
Qed.


Lemma last_of_some :
  forall c w, exists d, last_of (Some c) w = Some d.
Proof.
  intros c w; revert c; induction w as [|x w IH]; intros c; simpl; eauto.
Qed.

(** Passing the characters of a match. *)
Lemma scan_skip :
  forall f r w l n pv,
    scan f r n pv (w ++ l) (length w)
    = scan f r (n + length w) (last_of pv w) l 0.
Proof.
  induction w as [|c w IH]; intros l n pv; simpl.
  - rewrite Nat.add_0_r; reflexivity.
  - rewrite IH, <- plus_n_Sm; reflexivity.
Qed.

(** Without [MULTILINE], a pattern that begins with [^] matches nowhere
    after the start of the subject. *)
Lemma bol_only_at_start :
  forall f r l n c,
    multiline f = false ->
    search_from f (Seq Bol r) n (Some c) l = None.
Proof.
  intros f r l n c Hm; apply search_from_none.
  intros a w b _ M; inversion M as [| |? ? ? w1 w2 ? M1 M2| | | | | | | | | | |];
    subst.
  inversion M1 as [| | | | | | | | | | | |? ? Hb|]; subst.
  destruct (last_of_some c a) as [d Hd]; rewrite Hd in Hb; simpl in Hb.
  rewrite Hm in Hb; discriminate.
Qed.



(** ** Questions *)

Ltac by_cases_on_char c :=
  destruct c as [[] [] [] [] [] [] [] []]; vm_compute; try reflexivity;
  try discriminate; auto.



Lemma last_app_nonempty :
  forall (a b : text) d d', b <> [] -> last (a ++ b) d = last b d'.
Proof.
  induction a as [|x a IH]; intros b d d' Hb; simpl.
  - destruct b as [|y b]; [congruence|]. clear Hb.
    revert y; induction b as [|z b IHb]; intros y; [reflexivity|].
    simpl in *; apply IHb.
  - destruct (a ++ b) eqn:E.
    + destruct a; [simpl in E; congruence | discriminate].
    + rewrite <- E; apply IH; exact Hb.
Qed.



Lemma question_lines_cons :
  forall ln lns,
    question_lines (ln :: lns)
    = if is_empty (re_sub no_flags numbering_re erase
                     (strip_chars [SP; "-"%char; TAB] ln))
      then question_lines lns
      else re_sub no_flags numbering_re erase
             (strip_chars [SP; "-"%char; TAB] ln) :: question_lines lns.
Proof. reflexivity. Qed.




Lemma primary_items_in :
  forall blocks it,
    In it (primary_items blocks) ->
    exists b, In b blocks /\ primary_item b = Some it.
Proof.
  induction blocks as [|b bs IH]; intros it H; simpl in H; [contradiction|].
  destruct (primary_item b) as [it'|] eqn:E.
  - destruct H as [<- | H].
    + exists b; split; [left; reflexivity | exact E].
    + destruct (IH it H) as (b' & Hin & Hb'); exists b'; split; auto.
      right; exact Hin.
  - destruct (IH it H) as (b' & Hin & Hb'); exists b'; split; auto.
    right; exact Hin.
Qed.

(** Every item returned comes from one of the two loop bodies. *)
Lemma extract_items :
  forall text0 it,
    In it (extract_days_and_questions text0) ->
    (exists b, primary_item b = Some it) \/
    (exists span, it = fallback_item text0 span).
Proof.
  intros text0 it H; unfold extract_days_and_questions in H.
  destruct (is_empty text0); [contradiction|].
  destruct (primary text0) as [|i0 is0] eqn:E.
  - right; unfold fallback in H; apply in_map_iff in H.
    destruct H as (span & Hs & _); exists span; auto.
  - left; rewrite <- E in H; unfold primary in H.
    destruct (primary_items_in _ _ H) as (b & _ & Hb); eauto.
Qed.

Lemma primary_item_questions :
  forall block it,
    primary_item block = Some it ->
    questions it
    = firstn 10 (primary_questions (primary_rest (strip block))).
Proof.
  intros block it H; unfold primary_item in H.
  destruct (_ || _); [discriminate|].
  inversion H; subst it; simpl.
  destruct (primary_questions _); reflexivity.
Qed.

Lemma fallback_item_questions :
  forall text0 span,
    questions (fallback_item text0 span)
    = firstn 10 (fallback_questions (fallback_block text0 span)).
Proof. reflexivity. Qed.




(** ** Occurrences *)

Lemma ascii_eqb_eq : forall a b, ascii_eqb a b = true <-> a = b.
Proof. intros; unfold ascii_eqb; apply Ascii.eqb_eq. Qed.

Lemma startswith_spec :
  forall p s, startswith p s = true <-> exists b, s = p ++ b.
Proof.
  induction p as [|x p IH]; intros s; simpl.
  - split; eauto.
  - destruct s as [|y s]; [split; [discriminate | intros [b Hb]; discriminate]|].
    rewrite andb_true_iff, ascii_eqb_eq, IH; split.
    + intros [-> [b ->]]; eauto.
    + intros [b Hb]; inversion Hb; subst; eauto.
Qed.

Lemma contains_spec : forall p s, contains p s = true <-> sub_of p s.
Proof.
  intros p s; unfold sub_of; induction s as [|c s IH].
  - simpl; rewrite orb_false_r, startswith_spec; split.
    + intros [b Hb]; exists [], b; exact Hb.
    + intros (a & b & H); destruct a; [eauto|discriminate].
  - change (contains p (c :: s))
      with (startswith p (c :: s) || contains p s).
    rewrite orb_true_iff, startswith_spec, IH; split.
    + intros [[b Hb] | (a & b & ->)].
      * exists [], b; exact Hb.
      * exists (c :: a), b; reflexivity.
    + intros (a & b & H); destruct a as [|x a].
      * left; eauto.
      * right; inversion H; subst; eauto.
Qed.

Lemma sub_of_refl : forall s, sub_of s s.
Proof. intros s; exists [], []; rewrite app_nil_r; reflexivity. Qed.

Lemma sub_of_trans : forall a b c, sub_of a b -> sub_of b c -> sub_of a c.
Proof.
  intros a b c (x & y & ->) (u & v & ->).
  exists (u ++ x), (y ++ v); repeat rewrite <- app_assoc; reflexivity.
Qed.

Lemma sub_of_nil : forall s, sub_of [] s.
Proof. intros s; exists [], s; reflexivity. Qed.

Lemma sub_of_skipn : forall n s, sub_of (skipn n s) s.
Proof.
  intros n s; exists (firstn n s), []; rewrite app_nil_r.
  symmetry; apply firstn_skipn.
Qed.

Lemma sub_of_firstn : forall n s, sub_of (firstn n s) s.
Proof.
  intros n s; exists [], (skipn n s); symmetry; apply firstn_skipn.
Qed.

Lemma sub_of_slice : forall i j s, sub_of (slice i j s) s.
Proof.
  intros; unfold slice.
  eapply sub_of_trans; [apply sub_of_firstn | apply sub_of_skipn].
Qed.

Lemma dropwhile_suffix : forall p s, exists a, s = a ++ dropwhile p s.
Proof.
  induction s as [|c s [a IH]]; simpl; [exists []; reflexivity|].
  destruct (p c); [exists (c :: a); simpl; congruence | exists []; reflexivity].
Qed.

Lemma sub_of_strip_by : forall p s, sub_of (strip_by p s) s.
Proof.
  intros p s; unfold strip_by, rstrip_by, lstrip_by.
  destruct (dropwhile_suffix p s) as [a Ha].
  destruct (dropwhile_suffix p (rev (dropwhile p s))) as [b Hb].
  exists a, (rev b); rewrite Ha at 1; f_equal.
  rewrite <- (rev_involutive (dropwhile p s)), Hb at 1.
  apply rev_app_distr.
Qed.

Lemma sub_of_strip : forall s, sub_of (strip s) s.
Proof. intros; apply sub_of_strip_by. Qed.

Lemma sub_of_group : forall s m n, sub_of (group s m n) s.
Proof.
  intros; unfold group.
  destruct (lookup_cap n (m_caps m)) as [[i j]|];
    [apply sub_of_slice | apply sub_of_nil].
Qed.

Lemma sub_of_map :
  forall (g : ascii -> ascii) t s, sub_of t s -> sub_of (map g t) (map g s).
Proof.
  intros g t s (a & b & ->); exists (map g a), (map g b).
  repeat rewrite map_app; reflexivity.
Qed.

Lemma contains_ci_sub :
  forall p t s, sub_of t s -> contains_ci p t = true -> contains_ci p s = true.
Proof.
  intros p t s Hs H; unfold contains_ci in *.
  apply contains_spec; apply contains_spec in H.
  eapply sub_of_trans; [exact H | apply sub_of_map; exact Hs].
Qed.

Lemma no_url_sub :
  forall t s, sub_of t s -> no_url s = true -> no_url t = true.
Proof.
  intros t s Hs H; unfold no_url in *.
  apply andb_true_iff in H; destruct H as [H1 H2].
  apply negb_true_iff in H1, H2.
  apply andb_true_iff; split; apply negb_true_iff.
  - destruct (contains_ci (lit "http://") t) eqn:E; [|reflexivity].
    rewrite (contains_ci_sub _ _ _ Hs E) in H1; discriminate.
  - destruct (contains_ci (lit "https://") t) eqn:E; [|reflexivity].
    rewrite (contains_ci_sub _ _ _ Hs E) in H2; discriminate.
Qed.

(** ** Links *)

Lemma accepts_char_lower :
  forall f x c, accepts f (CChar x) c = true -> lower c = lower x.
Proof.
  intros f x c H; simpl in H.
  destruct (ignorecase f); apply ascii_eqb_eq in H; congruence.
Qed.

Ltac inv_matches :=
  repeat match goal with
    | H : matches _ (Seq _ _) _ _ _ |- _ => inversion H; clear H; subst
    | H : matches _ (Atom _) _ _ _ |- _ => inversion H; clear H; subst
    | H : matches _ (Group _ _) _ _ _ |- _ => inversion H; clear H; subst
    | H : matches _ (Opt _) _ _ _ |- _ => inversion H; clear H; subst
    | H : matches _ Eps _ _ _ |- _ => inversion H; clear H; subst
    end.

Ltac lower_chars :=
  repeat match goal with
    | H : accepts _ (CChar _) _ = true |- _ =>
        apply accepts_char_lower in H
    end.

(** What [url_re] matches begins with [http://] or [https://]. *)
Lemma url_match_scheme :
  forall f pv w k,
    matches f url_re pv w k ->
    contains_ci (lit "http://") w = true \/
    contains_ci (lit "https://") w = true.
Proof.
  intros f pv w k M; unfold url_re in M; simpl in M.
  inv_matches; lower_chars.
  - right; unfold contains_ci; apply contains_spec.
    match goal with
    | H : matches _ (Plus _) _ ?t _ |- _ => exists [], (map lower t)
    end.
    simpl; repeat rewrite map_app; simpl.
    repeat match goal with H : lower _ = _ |- _ => rewrite H; clear H end.
    reflexivity.
  - left; unfold contains_ci; apply contains_spec.
    match goal with
    | H : matches _ (Plus _) _ ?t _ |- _ => exists [], (map lower t)
    end.
    simpl; repeat rewrite map_app; simpl.
    repeat match goal with H : lower _ = _ |- _ => rewrite H; clear H end.
    reflexivity.
Qed.

Lemma matches_any_context :
  forall f r pv w k,
    matches f r pv w k -> anchor_free r ->
    forall pv' k', matches f r pv' w k'.
Proof.
  induction 1; intros Hr pv' k'; simpl in Hr; try contradiction;
    try (constructor; auto; fail).
  - destruct Hr; constructor; auto.
  - destruct Hr; apply M_AltL; auto.
  - destruct Hr; apply M_AltR; auto.
Qed.

(** A match without [IGNORECASE] is a match with it. *)
Lemma matches_icase :
  forall r pv w k, matches no_flags r pv w k -> matches flag_i r pv w k.
Proof.
  induction 1; try (constructor; auto; fail).
  - constructor; destruct a; simpl in *; auto.
    apply ascii_eqb_eq in H; subst c0; apply ascii_eqb_eq; reflexivity.
  - constructor; unfold all_in in *.
    eapply Forall_impl; [|exact H].
    intros c Hc; destruct a; simpl in *; auto.
    apply ascii_eqb_eq in Hc; subst c0; apply ascii_eqb_eq; reflexivity.
  - constructor; [assumption|]; unfold all_in in *.
    eapply Forall_impl; [|exact H0].
    intros c Hc; destruct a; simpl in *; auto.
    apply ascii_eqb_eq in Hc; subst c0; apply ascii_eqb_eq; reflexivity.
  - constructor; unfold all_in in *.
    eapply Forall_impl; [|exact H].
    intros c Hc; destruct a; simpl in *; auto.
    apply ascii_eqb_eq in Hc; subst c0; apply ascii_eqb_eq; reflexivity.
Qed.

Lemma url_anchor_free : anchor_free url_re.
Proof. unfold url_re; simpl; tauto. Qed.

Lemma has_url_inside :
  forall pv w w' k s,
    matches flag_i url_re pv w' k -> sub_of w' w -> sub_of w s -> has_url s.
Proof.
  intros pv w w' k s M H1 H2.
  destruct (sub_of_trans _ _ _ H1 H2) as (a & b & ->).
  exists a, w', b; split; [reflexivity|].
  apply (matches_any_context _ _ _ _ _ M url_anchor_free).
Qed.

(** A text without [http://] and [https://] has no link. *)
Lemma no_scheme_no_url : forall s, no_url s = true -> ~ has_url s.
Proof.
  intros s H (a & w & b & -> & M).
  assert (Hw : no_url w = true).
  { apply (no_url_sub w (a ++ w ++ b)); [exists a, b; reflexivity | exact H]. }
  unfold no_url in Hw; apply andb_true_iff in Hw; destruct Hw as [H1 H2].
  apply negb_true_iff in H1, H2.
  destruct (url_match_scheme _ _ _ _ M); congruence.
Qed.

Lemma url_search_none :
  forall s, ~ has_url s -> re_search no_flags url_re s = None.
Proof.
  intros s H; apply re_search_none; intros (a & w & b & -> & M).
  apply H; exists a, w, b; split; [reflexivity|].
  apply matches_icase; exact M.
Qed.

Lemma matches_seq_tail :
  forall f r1 r2 pv w k,
    matches f (Seq r1 r2) pv w k ->
    exists w2 pv', sub_of w2 w /\ matches f r2 pv' w2 k.
Proof.
  intros f r1 r2 pv w k M; inversion M; subst.
  eexists _, _; split; [|eassumption].
  eexists _, []; rewrite app_nil_r; reflexivity.
Qed.

Lemma link_match_has_url :
  forall pv w k,
    matches flag_i link_re pv w k ->
    exists w' pv', sub_of w' w /\ matches flag_i url_re pv' w' k.
Proof.
  intros pv w k M; unfold link_re in M.
  do 7 (apply matches_seq_tail in M;
        let w2 := fresh "w" in let pv2 := fresh "pv" in
        let S := fresh "S" in
        destruct M as (w2 & pv2 & S & M)).
  inversion M; subst.
  eexists _, _; split; [|eassumption].
  repeat (eapply sub_of_trans; [eassumption|]); apply sub_of_refl.
Qed.

Lemma link_search_none :
  forall s, ~ has_url s -> re_search flag_i link_re s = None.
Proof.
  intros s H; apply re_search_none; intros (a & w & b & -> & M).
  destruct (link_match_has_url _ _ _ M) as (w' & pv' & Hs & M').
  apply H; apply (has_url_inside pv' w w' b); auto.
  exists a, b; reflexivity.
Qed.

Lemma has_url_sub : forall t s, sub_of t s -> has_url t -> has_url s.
Proof.
  intros t s Hs (a & w & b & -> & M).
  apply (has_url_inside _ (a ++ w ++ b) w b s M); [|exact Hs].
  exists a, b; reflexivity.
Qed.

Lemma primary_rest_sub : forall block, sub_of (primary_rest block) block.
Proof.
  intros block; unfold primary_rest.
  destruct (re_match flag_i title_re block);
    [|apply sub_of_refl].
  eapply sub_of_trans; [apply sub_of_strip | apply sub_of_group].
Qed.

Lemma primary_link_none :
  forall s, ~ has_url s -> primary_link s = [].
Proof.
  intros s H; unfold primary_link.
  rewrite (link_search_none s H), (url_search_none s H).
  reflexivity.
Qed.

Lemma fallback_link_none :
  forall s, ~ has_url s -> fallback_link s = [].
Proof.
  intros s H; unfold fallback_link.
  rewrite (url_search_none s H); reflexivity.
Qed.

Lemma primary_item_link :
  forall block it,
    primary_item block = Some it ->
    topic it = find_topic (primary_rest (strip block)) /\
    video_link it
    = default_link (topic it)
        (fix_placeholder (topic it)
           (primary_link (primary_rest (strip block)))).
Proof.
  intros block it H; unfold primary_item in H.
  destruct (_ || _); [discriminate|].
  inversion H; subst it; simpl; auto.
Qed.

Lemma fallback_item_link :
  forall text0 span,
    topic (fallback_item text0 span)
    = find_topic (fallback_block text0 span) /\
    video_link (fallback_item text0 span)
    = default_link (topic (fallback_item text0 span))
        (fix_placeholder (topic (fallback_item text0 span))
           (fallback_link (fallback_block text0 span))).
Proof. intros; split; reflexivity. Qed.

(** Without a link in the block the link comes from the topic. *)
Lemma link_from_topic :
  forall tp,
    default_link tp (fix_placeholder tp [])
    = if is_empty tp then generic_url else search_url tp.
Proof. intros tp; destruct tp; reflexivity. Qed.

Lemma default_link_nonempty :
  forall tp link, default_link tp link <> [].
Proof.
  intros tp link; unfold default_link.
  destruct link; simpl; [|discriminate].
  destruct tp; simpl; discriminate.
Qed.



(** ** The fallback parser *)

(** C2, as stated, fails on a header that is glued to the word before
    it: the header pattern occurs in the text, the primary parser finds no
    block that starts with it, and the fallback parser, whose pattern is
    anchored at the start of a line, finds none either. *)
Lemma glued_header_not_recovered :
  is_some (re_search flag_i day_core glued_header) = true /\
  day_blocks glued_header = [glued_header] /\
  primary glued_header = [] /\
  header_matches glued_header = [] /\
  extract_days_and_questions glued_header = [].
Proof. vm_compute; repeat split. Qed.

Lemma M_Seq_eq :
  forall f r1 r2 pv w w1 w2 k,
    w = w1 ++ w2 ->
    matches f r1 pv w1 (w2 ++ k) ->
    matches f r2 (last_of pv w1) w2 k ->
    matches f (Seq r1 r2) pv w k.
Proof. intros; subst; constructor; assumption. Qed.

Lemma forallb_Forall :
  forall (p : ascii -> bool) l,
    forallb p l = true -> Forall (fun c => p c = true) l.
Proof.
  intros p l H; apply Forall_forall; intros x Hx.
  rewrite forallb_forall in H; auto.
Qed.

(** The rest of a line: up to the next line feed or the end. *)
Lemma split_at_line_feed :
  forall b,
    exists tl k,
      b = tl ++ k /\ Forall (fun c => negb (ascii_eqb c LF) = true) tl /\
      eol_at flag_im k = true.
Proof.
  induction b as [|c b (tl & k & E & Ht & Hk)].
  - exists [], []; repeat split; constructor.
  - destruct (ascii_eqb c LF) eqn:Ec.
    + exists [], (c :: b); repeat split; [constructor|].
      simpl; rewrite Ec; reflexivity.
    + exists (c :: tl), k; repeat split; [simpl; congruence | | exact Hk].
      constructor; [rewrite Ec; reflexivity | exact Ht].
Qed.

(** A header line is a match of the fallback pattern. *)
Lemma header_line_matches :
  forall s, has_header_line s -> matches_in flag_im header_re s.
Proof.
  intros s (a & ws & d1 & d2 & d3 & sp & ds & b & -> & Ha & Hws & H1 & H2
            & H3 & Hsp & Hsps & Hds & Hdss).
  destruct (split_at_line_feed b) as (tl & k & -> & Htl & Hk).
  exists a, (ws ++ [d1; d2; d3] ++ sp ++ ds ++ tl), k; split.
  { repeat rewrite <- app_assoc; reflexivity. }
  unfold header_re.
  apply M_Seq_eq with (w1 := []) (w2 := ws ++ [d1; d2; d3] ++ sp ++ ds ++ tl);
    [reflexivity | |].
  { constructor; destruct Ha as [-> | [a' ->]];
      [reflexivity | rewrite last_of_snoc; reflexivity]. }
  apply M_Seq_eq with (w1 := ws) (w2 := [d1; d2; d3] ++ sp ++ ds ++ tl);
    [reflexivity | constructor; apply forallb_Forall; exact Hws |].
  apply M_Seq_eq with (w1 := [d1; d2; d3]) (w2 := sp ++ ds ++ tl);
    [reflexivity | |].
  { simpl lits.
    apply M_Seq_eq with (w1 := [d1]) (w2 := [d2; d3]); [reflexivity | |].
    - constructor; simpl; rewrite H1; reflexivity.
    - apply M_Seq_eq with (w1 := [d2]) (w2 := [d3]); [reflexivity | |];
        constructor; simpl; [rewrite H2 | rewrite H3]; reflexivity. }
  apply M_Seq_eq with (w1 := sp) (w2 := ds ++ tl);
    [reflexivity | constructor; [exact Hsp | apply forallb_Forall; exact Hsps] |].
  apply M_Seq_eq with (w1 := ds) (w2 := tl);
    [reflexivity | constructor; [exact Hds | apply forallb_Forall; exact Hdss] |].
  apply M_Seq_eq with (w1 := []) (w2 := tl);
    [reflexivity | constructor; constructor |].
  apply M_Seq_eq with (w1 := []) (w2 := tl);
    [reflexivity | apply M_OptNone |].
  apply M_Seq_eq with (w1 := tl) (w2 := []);
    [symmetry; apply app_nil_r | constructor; exact Htl |].
  constructor; exact Hk.
Qed.

Lemma header_matches_nonempty :
  forall s, has_header_line s -> header_matches s <> [].
Proof.
  intros s H E; unfold header_matches, re_finditer in E.
  apply scan_nil in E.
  apply (proj1 (re_search_none flag_im header_re s) E).
  apply header_line_matches; exact H.
Qed.

Lemma block_spans_length :
  forall ms len, length (block_spans ms len) = length ms.
Proof.
  induction ms as [|m ms IH]; intros len; simpl; [reflexivity|].
  rewrite IH; reflexivity.
Qed.

(** The fallback parser returns one item for each header it finds. *)
Lemma fallback_length :
  forall s, length (fallback s) = length (header_matches s).
Proof.
  intros s; unfold fallback; rewrite length_map; apply block_spans_length.
Qed.

(** A match of the fallback pattern begins at a header line. *)
Lemma header_match_line :
  forall a w b,
    matches flag_im header_re (last_of None a) w b ->
    has_header_line (a ++ w ++ b).
Proof.
  intros a w b M; unfold header_re in M; simpl lits in M.
  inversion M as [| |? ? ? e0 w1 ? B M1| | | | | | | | | | |]; subst; clear M.
  inversion B as [| | | | | | | | | | | |? ? Hb|]; subst; clear B.
  inversion M1 as [| |? ? ? ws w2 ? S1 M2| | | | | | | | | | |]; subst;
    clear M1.
  inversion S1 as [| | | | |? ? ? ? Hws| | | | | | | |]; subst; clear S1.
  inversion M2 as [| |? ? ? day w3 ? D M3| | | | | | | | | | |]; subst;
    clear M2.
  inversion M3 as [| |? ? ? sp w4 ? P1 M4| | | | | | | | | | |]; subst;
    clear M3.
  inversion P1 as [| | | | | |? ? ? ? Hsp Hsps| | | | | | |]; subst; clear P1.
  inversion M4 as [| |? ? ? ds w5 ? P2 M5| | | | | | | | | | |]; subst;
    clear M4 M5.
  inversion P2 as [| | | | | |? ? ? ? Hds Hdss| | | | | | |]; subst; clear P2.
  inv_matches; lower_chars.
  match goal with
  | |- has_header_line (a ++ (_ ++ ws ++ ([?d1] ++ [?d2] ++ [?d3])
                                ++ sp ++ ds ++ ?r) ++ b) =>
      exists a, ws, d1, d2, d3, sp, ds, (r ++ b)
  end.
  repeat split; auto.
  - simpl; repeat (rewrite <- app_assoc; simpl); reflexivity.
  - revert Hb.
    destruct a as [|x a' _] using rev_ind; [left; reflexivity|].
    rewrite last_of_snoc; simpl; intros H; right; exists a'.
    apply ascii_eqb_eq in H; subst x; reflexivity.
  - apply forallb_forall; intros x Hx.
    apply (proj1 (Forall_forall _ _) Hws x Hx).
  - apply forallb_forall; intros x Hx.
    apply (proj1 (Forall_forall _ _) Hsps x Hx).
  - apply forallb_forall; intros x Hx.
    apply (proj1 (Forall_forall _ _) Hdss x Hx).
Qed.

(** The fallback pattern matches in a text exactly when the text has a
    header line. *)
Lemma header_matches_iff :
  forall s, header_matches s <> [] <-> has_header_line s.
Proof.
  intros s; split; [|apply header_matches_nonempty].
  intros H; unfold header_matches, re_finditer in H.
  destruct (re_search flag_im header_re s) as [m|] eqn:E.
  - destruct (re_search_some flag_im header_re s m E)
      as (a & w & b & -> & M & _).
    apply header_match_line; exact M.
  - exfalso; apply H; apply scan_nil; exact E.
Qed.

(** C2, amended: when the primary parser yields no item, the extractor
    returns what the fallback parser finds, one item for each match of the
    fallback pattern [(?im)^\s*Day\s+\d+\s*[:\-]?.*$]; there is at least
    one when some line of the text begins, after optional white space,
    with [Day], white space and a number, and there is none when no line
    does. *)
Theorem fallback_activation :
  forall text0,
    primary text0 = [] ->
    (has_header_line text0 ->
     extract_days_and_questions text0 = fallback text0 /\
     length (extract_days_and_questions text0)
     = length (header_matches text0) /\
     1 <= length (extract_days_and_questions text0)) /\
    (~ has_header_line text0 -> extract_days_and_questions text0 = []).
Proof.
  intros text0 Hp; split.
  - intros Hh.
    assert (Hne : text0 <> []).
    { intros ->. destruct Hh as (a & ws & d1 & d2 & d3 & sp & ds & b & E & _).
      destruct a; [destruct ws|]; discriminate. }
    assert (Hex : extract_days_and_questions text0 = fallback text0).
    { unfold extract_days_and_questions; rewrite Hp.
      destruct text0; [congruence | reflexivity]. }
    split; [exact Hex|].
    rewrite Hex, fallback_length; split; [reflexivity|].
    pose proof (header_matches_nonempty text0 Hh) as Hm.
    destruct (header_matches text0); [congruence | simpl; lia].
  - intros Hn.
    assert (Hm : header_matches text0 = []).
    { destruct (header_matches text0) as [|m ms] eqn:E; [reflexivity|].
      exfalso; apply Hn, header_matches_iff; rewrite E; discriminate. }
    unfold extract_days_and_questions; rewrite Hp.
    destruct text0; [reflexivity|].
    cbv iota; unfold fallback; rewrite Hm; reflexivity.
Qed.

Lemma fallback_activation_witness :
  (extract_days_and_questions bare_header = fallback bare_header /\
   length (extract_days_and_questions bare_header)
   = length (header_matches bare_header) /\
   1 <= length (extract_days_and_questions bare_header)) /\
  extract_days_and_questions glued_header = [].
Proof.
  split.
  - apply (fallback_activation bare_header); [vm_compute; reflexivity|].
    exists [], [], "D"%char, "a"%char, "y"%char, [SP], (lit "1"),
      (lit " Intro" ++ [LF] ++ lit "Topic: Recursion").
    repeat split; try reflexivity; try discriminate.
    left; reflexivity.
  - apply (fallback_activation glued_header); [vm_compute; reflexivity|].
    intros H; apply header_matches_iff in H; apply H.
    vm_compute; reflexivity.
Defined.

(** ** The sanitizer *)



(** ** Character classes *)

Lemma digit_not_space : forall c, is_digit c = true -> is_space c = false.
Proof. intros c; by_cases_on_char c. Qed.

Lemma space_not_digit : forall c, is_space c = true -> is_digit c = false.
Proof. intros c; by_cases_on_char c. Qed.

Lemma separator_not_space :
  forall c, is_separator c = true -> is_space c = false.
Proof. intros c; by_cases_on_char c. Qed.

Lemma separator_not_digit :
  forall c, is_separator c = true -> is_digit c = false.
Proof. intros c; by_cases_on_char c. Qed.


Lemma letter_D_not_space :
  forall c, ascii_eqb (lower c) (lower "D") = true -> is_space c = false.
Proof. intros c; by_cases_on_char c. Qed.



Lemma lower_line_feed :
  forall c, ascii_eqb (lower c) (lower LF) = ascii_eqb c LF.
Proof. intros c; by_cases_on_char c. Qed.

Lemma line_feed_is_space : is_space LF = true.
Proof. reflexivity. Qed.

(** ** [dropwhile] *)

Lemma dropwhile_all :
  forall p w l,
    Forall (fun c => p c = true) w -> dropwhile p (w ++ l) = dropwhile p l.
Proof.
  induction w as [|c w IH]; intros l H; [reflexivity|].
  inversion H as [|? ? Hc Hw]; subst; simpl; rewrite Hc; auto.
Qed.

Lemma dropwhile_stop :
  forall p l,
    match l with [] => True | c :: _ => p c = false end ->
    dropwhile p l = l.
Proof. intros p [|c t] H; simpl; [reflexivity | rewrite H; reflexivity]. Qed.

Lemma dropwhile_split :
  forall p l,
    exists w, l = w ++ dropwhile p l /\ Forall (fun c => p c = true) w.
Proof.
  induction l as [|c l (w & E & H)]; simpl.
  - exists []; split; [reflexivity | constructor].
  - destruct (p c) eqn:Hc.
    + exists (c :: w); split; [simpl; congruence | constructor; auto].
    + exists []; split; [reflexivity | constructor].
Qed.

Lemma dropwhile_head :
  forall p l,
    match dropwhile p l with [] => True | c :: _ => p c = false end.
Proof.
  induction l as [|c l IH]; simpl; [exact I|].
  destruct (p c) eqn:Hc; [exact IH | exact Hc].
Qed.

(** ** The day header against its pattern *)

Ltac inv_matches_all :=
  repeat match goal with
    | H : matches _ (Seq _ _) _ _ _ |- _ => inversion H; clear H; subst
    | H : matches _ (Atom _) _ _ _ |- _ => inversion H; clear H; subst
    | H : matches _ (Group _ _) _ _ _ |- _ => inversion H; clear H; subst
    | H : matches _ (Plus _) _ _ _ |- _ => inversion H; clear H; subst
    | H : matches _ (Star _) _ _ _ |- _ => inversion H; clear H; subst
    | H : matches _ (StarLazy _) _ _ _ |- _ => inversion H; clear H; subst
    | H : matches _ Eps _ _ _ |- _ => inversion H; clear H; subst
    end.

Lemma eat_plus_run :
  forall p w l,
    w <> [] -> Forall (fun c => p c = true) w ->
    match l with [] => True | c :: _ => p c = false end ->
    eat_plus p (w ++ l) = Some l.
Proof.
  intros p [|c w] l Hne Hw Hl; [congruence|].
  inversion Hw as [|? ? Hc Hw']; subst; simpl; rewrite Hc.
  rewrite dropwhile_all by exact Hw'.
  rewrite dropwhile_stop by exact Hl; reflexivity.
Qed.

Lemma day_core_sound :
  forall pv w k,
    matches flag_i day_core pv w k -> day_prefix (w ++ k) = true.
Proof.
  intros pv w k M; unfold day_core in M; simpl lits in M.
  inv_matches_all.
  repeat match goal with
    | H : accepts flag_i _ _ = true |- _ => simpl in H
    | H : all_in _ _ _ |- _ => unfold all_in in H; simpl in H
    end.
  unfold day_prefix.
  repeat rewrite <- app_assoc; simpl app.
  unfold eat_ci at 1.
  match goal with H : ascii_eqb (lower _) (lower "D") = true |- _ =>
    rewrite H end.
  unfold and_then at 6, eat_ci at 1.
  match goal with H : ascii_eqb (lower _) (lower "a") = true |- _ =>
    rewrite H end.
  unfold and_then at 5, eat_ci at 1.
  match goal with H : ascii_eqb (lower _) (lower "y") = true |- _ =>
    rewrite H end.
  unfold and_then at 4.
  match goal with
  | H1 : Forall (fun c => is_space c = true) ?sp,
    H2 : Forall (fun c => is_digit c = true) ?ds,
    H3 : Forall (fun c => is_space c = true) ?sp2,
    H4 : ascii_eqb ?sep _ || _ = true,
    N1 : ?sp <> [], N2 : ?ds <> [] |- _ =>
      change (is_separator sep = true) in H4;
      destruct ds as [|d ds']; [congruence|];
      pose proof (Forall_inv H2) as Hd; simpl in Hd;
      rewrite (eat_plus_run is_space sp _ N1 H1)
        by (simpl; apply digit_not_space; exact Hd);
      unfold and_then at 3;
      change ((d :: ds') ++ sp2 ++ sep :: k)
        with ((d :: ds') ++ (sp2 ++ sep :: k));
      rewrite (eat_plus_run is_digit (d :: ds') _ N2 H2);
      [ unfold and_then at 2;
        rewrite dropwhile_all by exact H3;
        rewrite dropwhile_stop
          by (simpl; apply separator_not_space; exact H4);
        simpl; rewrite H4; reflexivity
      | destruct sp2 as [|s0 sp2'];
        [ simpl; apply separator_not_digit; exact H4
        | simpl; apply space_not_digit; exact (Forall_inv H3) ] ]
  end.
Qed.

Lemma day_core_complete :
  forall pv s,
    day_prefix s = true ->
    exists w k, s = w ++ k /\ matches flag_i day_core pv w k.
Proof.
  intros pv s H; unfold day_prefix in H.
  destruct s as [|c1 s]; [discriminate|]; simpl eat_ci in H.
  destruct (ascii_eqb (lower c1) (lower "D")) eqn:E1; [|discriminate].
  destruct s as [|c2 s]; [discriminate|]; simpl in H.
  destruct (ascii_eqb (lower c2) (lower "a")) eqn:E2; [|discriminate].
  destruct s as [|c3 s]; [discriminate|]; simpl in H.
  destruct (ascii_eqb (lower c3) (lower "y")) eqn:E3; [|discriminate].
  destruct s as [|j t1]; [discriminate|]; simpl in H.
  destruct (is_space j) eqn:Ej; [|discriminate]; simpl in H.
  destruct (dropwhile_split is_space t1) as (w1 & Et1 & Hw1).
  destruct (dropwhile is_space t1) as [|d t3] eqn:Et2; [discriminate|].
  simpl in H.
  destruct (is_digit d) eqn:Ed; [|discriminate]; simpl in H.
  destruct (dropwhile_split is_digit t3) as (w3 & Et3 & Hw3).
  destruct (dropwhile_split is_space (dropwhile is_digit t3))
    as (w4 & Et4 & Hw4).
  destruct (dropwhile is_space (dropwhile is_digit t3)) as [|sep k] eqn:Et5;
    [discriminate|].
  simpl in H.
  destruct (is_separator sep) eqn:Es; [|discriminate].
  exists ([c1; c2; c3] ++ (j :: w1) ++ (d :: w3) ++ w4 ++ [sep]), k; split.
  { simpl; rewrite Et1, Et3, Et4.
    repeat (rewrite <- app_assoc; simpl); reflexivity. }
  unfold day_core.
  eapply M_Seq_eq; [reflexivity | |].
  { simpl lits.
    apply M_Seq_eq with (w1 := [c1]) (w2 := [c2; c3]); [reflexivity | |].
    - constructor; exact E1.
    - apply M_Seq_eq with (w1 := [c2]) (w2 := [c3]); [reflexivity | |];
        constructor; assumption. }
  eapply M_Seq_eq; [reflexivity | |].
  { constructor; [discriminate | constructor; assumption]. }
  eapply M_Seq_eq; [reflexivity | |].
  { constructor; [discriminate | constructor; assumption]. }
  eapply M_Seq_eq; [reflexivity | constructor; exact Hw4 |].
  constructor; exact Es.
Qed.

(** The pattern of the first day header has a match at a position exactly
    when [header_here] says so. *)
Lemma first_day_sound :
  forall pv w k,
    matches flag_i first_day_re pv w k -> header_here pv (w ++ k) = true.
Proof.
  intros pv w k M; unfold first_day_re in M.
  inversion M as [| |? ? ? g w' ? Mg M'| | | | | | | | | | |]; subst.
  inversion M' as [| |? ? ? ws w'' ? Mw Md| | | | | | | | | | |]; subst.
  inversion Mw; subst.
  pose proof (day_core_sound _ _ _ Md) as Hd.
  assert (Hdrop : dropwhile is_space (ws ++ w'' ++ k) = w'' ++ k).
  { rewrite dropwhile_all by assumption.
    apply dropwhile_stop.
    unfold day_prefix in Hd; destruct (w'' ++ k) as [|c t]; [exact I|].
    simpl in Hd.
    destruct (ascii_eqb (lower c) (lower "D")) eqn:E; [|discriminate].
    apply letter_D_not_space; exact E. }
  unfold header_here; apply orb_true_iff.
  inversion Mg; subst.
  match goal with
  | Ma : matches _ (Alt _ _) _ _ _ |- _ => inversion Ma; subst
  end.
  - match goal with
    | Mb : matches _ Bol _ _ _ |- _ => inversion Mb as [| | | | | | | | | | | |? ? Hb|]; subst
    end.
    left; destruct pv as [c|]; [simpl in Hb; discriminate|].
    simpl app; rewrite <- app_assoc, Hdrop; exact Hd.
  - match goal with
    | Mc : matches _ (Atom _) _ _ _ |- _ => inversion Mc as [|? c ? ? Hc| | | | | | | | | | | |]; subst
    end.
    right; simpl in Hc; rewrite lower_line_feed in Hc.
    change (([c] ++ ws ++ w'') ++ k) with (c :: (ws ++ w'') ++ k).
    cbv iota; rewrite Hc, <- app_assoc, Hdrop; exact Hd.
Qed.

Lemma first_day_complete :
  forall pv s,
    header_here pv s = true ->
    exists w k, s = w ++ k /\ matches flag_i first_day_re pv w k.
Proof.
  intros pv s H; unfold header_here in H; apply orb_true_iff in H.
  destruct H as [H | H].
  - destruct pv; [discriminate|].
    destruct (dropwhile_split is_space s) as (ws & Es & Hws).
    destruct (day_core_complete (last_of None ws) _ H) as (w & k & E & M).
    exists (ws ++ w), k; split.
    { rewrite Es at 1; rewrite E, app_assoc; reflexivity. }
    unfold first_day_re.
    apply M_Seq_eq with (w1 := []) (w2 := ws ++ w); [reflexivity | |].
    { constructor; apply M_AltL; constructor; reflexivity. }
    apply M_Seq_eq with (w1 := ws) (w2 := w); [reflexivity | |].
    { constructor; exact Hws. }
    exact M.
  - destruct s as [|c t]; [discriminate|].
    apply andb_true_iff in H; destruct H as [Hc H].
    destruct (dropwhile_split is_space t) as (ws & Es & Hws).
    destruct (day_core_complete (last_of (Some c) ws) _ H)
      as (w & k & E & M).
    exists ([c] ++ ws ++ w), k; split.
    { simpl; rewrite Es at 1; rewrite E, app_assoc; reflexivity. }
    unfold first_day_re.
    apply M_Seq_eq with (w1 := [c]) (w2 := ws ++ w); [reflexivity | |].
    { constructor; apply M_AltR; constructor.
      simpl; rewrite lower_line_feed; exact Hc. }
    apply M_Seq_eq with (w1 := ws) (w2 := w); [reflexivity | |].
    { constructor; exact Hws. }
    exact M.
Qed.

Lemma match_here_first_day :
  forall n pv l,
    match match_here flag_i first_day_re (MState n pv l []) with
    | Some m => header_here pv l = true /\ m_start m = n
    | None => header_here pv l = false
    end.
Proof.
  intros n pv l.
  destruct (match_here flag_i first_day_re (MState n pv l [])) as [m|] eqn:E.
  - destruct (match_here_sound _ _ _ _ E) as (w & k & Er & M & S1 & _).
    simpl in *; subst l; split; [|exact S1].
    apply (first_day_sound _ _ _ M).
  - destruct (header_here pv l) eqn:H; [|reflexivity].
    destruct (first_day_complete pv l H) as (w & k & El & M).
    exfalso; apply (match_here_none _ _ _ E w k); simpl; auto.
Qed.

(** [m.start()] of the search for the first day header. *)
Lemma search_first_header :
  forall l n pv,
    option_map m_start (search_from flag_i first_day_re n pv l)
    = option_map (fun k => n + k) (first_header pv l).
Proof.
  induction l as [|c t IH]; intros n pv; simpl;
    pose proof (match_here_first_day n pv) as Hm.
  - specialize (Hm []).
    destruct (match_here flag_i first_day_re (MState n pv [] [])) as [m|].
    + destruct Hm as [Hh Hs]; rewrite Hh; simpl; rewrite Hs.
      f_equal; lia.
    + rewrite Hm; reflexivity.
  - specialize (Hm (c :: t)).
    destruct (match_here flag_i first_day_re (MState n pv (c :: t) []))
      as [m|].
    + destruct Hm as [Hh Hs]; rewrite Hh; simpl; rewrite Hs.
      f_equal; lia.
    + rewrite Hm, IH.
      destruct (first_header (Some c) t); simpl; [f_equal; lia | reflexivity].
Qed.

Lemma re_search_first_header :
  forall s,
    option_map m_start (re_search flag_i first_day_re s)
    = first_header None s.
Proof.
  intros s; unfold re_search; rewrite search_first_header.
  destruct (first_header None s); reflexivity.
Qed.

(** ** One run of white space replaced by another *)

Section Junction.
Variables J J' R : text.
Hypothesis J_nonempty : J <> [].
Hypothesis J'_nonempty : J' <> [].
Hypothesis J_space : Forall (fun c => is_space c = true) J.
Hypothesis J'_space : Forall (fun c => is_space c = true) J'.












End Junction.

(** ** Where the first header is *)



(** ** Matches under a change of white space *)





(** Passing any characters on the left passes characters on the right;
    passing white space passes white space. *)
Lemma wsr_skip :
  forall w k s',
    wsr (w ++ k) s' ->
    exists w' k',
      s' = w' ++ k' /\ wsr k k' /\ (all_space w -> all_space w').
Proof.
  induction w as [|x w IH]; intros k s' H.
  - exists [], s'; repeat split; auto.
  - simpl in H.
    inversion H as [j j' Hj Hj' Ej | j j' c t t' Hj Hj' Hjj Hc Ht Ej]; subst.
    + exists [], s'; repeat split; auto; [|constructor].
      apply wsr_end; [|exact Hj'].
      inversion Hj as [|? ? _ Hwk]; subst.
      apply Forall_app in Hwk; tauto.
    + destruct j as [|y j1].
      * simpl in Ej; inversion Ej; subst c t.
        rewrite (Hjj eq_refl).
        destruct (IH k t' Ht) as (w' & k' & -> & Hk & Hs).
        exists (x :: w'), k'; repeat split; auto.
        intros Hall; inversion Hall as [|? ? Hx _]; subst; congruence.
      * simpl in Ej; inversion Ej; subst y.
        match goal with E : _ = w ++ k |- _ => rename E into Ew end.
        assert (Hrel : wsr (w ++ k)
                         ((match j1 with [] => [] | _ => j' end) ++ c :: t')).
        { rewrite <- Ew; apply wsr_run; auto.
          - inversion Hj; assumption.
          - destruct j1; [constructor | exact Hj'].
          - intros ->; reflexivity. }
        destruct (IH k _ Hrel) as (w' & k' & E' & Hk & Hs).
        destruct j1 as [|z j2].
        { exists (j' ++ w'), k'; repeat split; auto.
          - simpl in E'; rewrite E', app_assoc; reflexivity.
          - intros Hall; apply Forall_app; split; [exact Hj'|].
            apply Hs; inversion Hall; assumption. }
        { exists w', k'; repeat split; auto.
          intros Hall; apply Hs; inversion Hall; assumption. }
Qed.

Lemma accepts_space_class :
  forall f a w,
    a = CSpace \/ a = CAll -> all_space w -> all_in f a w.
Proof.
  intros f a w [-> | ->] H; unfold all_in.
  - exact H.
  - apply Forall_forall; intros; reflexivity.
Qed.

(** A match of a pattern for which only the words matter carries over to
    a text with other white space. *)
Lemma wsr_transfer :
  forall f r pv w k,
    matches f r pv w k -> ws_insensitive f r ->
    forall s',
      wsr (w ++ k) s' ->
      exists w' k',
        s' = w' ++ k' /\ wsr k k' /\
        (forall pv' k0, matches f r pv' w' k0).
Proof.
  induction 1; intros Hr s' Hs; simpl in Hr; try contradiction.
  - exists [], s'; repeat split; auto; intros; constructor.
  - simpl in Hs.
    inversion Hs as [j j' Hj Hj' Ej | j j' c0 t t' Hj Hj' Hjj Hc Ht Ej]; subst.
    + inversion Hj as [|? ? Hx _]; subst.
      rewrite (Hr c H) in Hx; discriminate.
    + destruct j as [|y j1].
      * simpl in Ej; inversion Ej; subst c0 t; rewrite (Hjj eq_refl).
        exists [c], t'; repeat split; auto; intros; constructor; exact H.
      * simpl in Ej; inversion Ej; subst y.
        inversion Hj as [|? ? Hx _]; subst.
        rewrite (Hr c H) in Hx; discriminate.
  - destruct Hr as [Hr1 Hr2].
    rewrite <- app_assoc in Hs.
    destruct (IHmatches1 Hr1 s' Hs) as (w1' & k1 & -> & Hk1 & M1).
    destruct (IHmatches2 Hr2 k1 Hk1) as (w2' & k2 & -> & Hk2 & M2).
    exists (w1' ++ w2'), k2; repeat split; auto.
    + apply app_assoc.
    + intros; constructor; auto.
  - destruct Hr as [Hr1 _].
    destruct (IHmatches Hr1 s' Hs) as (w' & k' & -> & Hk & M).
    exists w', k'; repeat split; auto; intros; apply M_AltL; auto.
  - destruct Hr as [_ Hr2].
    destruct (IHmatches Hr2 s' Hs) as (w' & k' & -> & Hk & M).
    exists w', k'; repeat split; auto; intros; apply M_AltR; auto.
  - destruct (wsr_skip w k s' Hs) as (w' & k' & -> & Hk & Hsp).
    exists w', k'; repeat split; auto; intros; constructor.
    destruct Hr as [-> | ->].
    + apply Hsp; exact H.
    + apply Forall_forall; intros; reflexivity.
  - destruct (wsr_skip w k s' Hs) as (w' & k' & -> & Hk & Hsp).
    exists w', k'; repeat split; auto; intros; constructor.
    destruct Hr as [-> | ->].
    + apply Hsp; exact H.
    + apply Forall_forall; intros; reflexivity.
  - destruct (IHmatches Hr s' Hs) as (w' & k' & -> & Hk & M).
    exists w', k'; repeat split; auto; intros; apply M_OptSome; auto.
  - exists [], s'; repeat split; auto; intros; apply M_OptNone.
  - destruct (IHmatches Hr s' Hs) as (w' & k' & -> & Hk & M).
    exists w', k'; repeat split; auto; intros; constructor; auto.
Qed.

Lemma matches_in_wsr :
  forall f r s s',
    ws_insensitive f r -> wsr s s' ->
    matches_in f r s -> matches_in f r s'.
Proof.
  intros f r s s' Hr Hs (a & w & b & -> & M).
  destruct (wsr_skip a (w ++ b) s' Hs) as (a' & k1 & -> & Hk1 & _).
  destruct (wsr_transfer _ _ _ _ _ M Hr k1 Hk1) as (w' & k' & -> & _ & M').
  exists a', w', k'; split; [reflexivity | apply M'].
Qed.


(** ** The three span patterns look at words only *)

Lemma lower_of_space : forall c, is_space c = true -> lower c = c.
Proof. intros c; by_cases_on_char c. Qed.

Lemma lower_not_space :
  forall c, is_space c = false -> is_space (lower c) = false.
Proof. intros c; by_cases_on_char c. Qed.

Lemma atom_char_not_space :
  forall f x c,
    is_space x = false -> accepts f (CChar x) c = true -> is_space c = false.
Proof.
  intros f x c Hx H; simpl in H.
  destruct (ignorecase f); apply ascii_eqb_eq in H.
  - destruct (is_space c) eqn:Hc; [|reflexivity].
    rewrite (lower_of_space c Hc) in H; subst c.
    rewrite (lower_not_space x Hx) in Hc; discriminate.
  - subst c; exact Hx.
Qed.

Lemma lower_eq_not_space :
  forall c y,
    ascii_eqb (lower c) y = true -> is_space y = false -> is_space c = false.
Proof.
  intros c y H Hy; apply ascii_eqb_eq in H.
  destruct (is_space c) eqn:Hc; [|reflexivity].
  rewrite (lower_of_space c Hc) in H; congruence.
Qed.

Ltac solve_ws_insensitive :=
  simpl; repeat split; auto;
  intros c H;
  first [ apply (lower_eq_not_space c _ H); reflexivity
        | apply ascii_eqb_eq in H; subst c; reflexivity ].

Lemma fence_ws_insensitive : ws_insensitive no_flags fence_re.
Proof. unfold fence_re; solve_ws_insensitive. Qed.

Lemma toolexc_ws_insensitive : ws_insensitive flag_i toolexc_re.
Proof. unfold toolexc_re; solve_ws_insensitive. Qed.

Lemma datajson_ws_insensitive : ws_insensitive no_flags datajson_re.
Proof. unfold datajson_re; solve_ws_insensitive. Qed.

(** ** Stripping *)

Lemma dropwhile_nil :
  forall p s, dropwhile p s = [] -> Forall (fun c => p c = true) s.
Proof.
  intros p s H; destruct (dropwhile_split p s) as (w & E & Hw).
  rewrite H, app_nil_r in E; subst w; exact Hw.
Qed.

Lemma dropwhile_keep :
  forall p a b,
    dropwhile p a <> [] -> dropwhile p (a ++ b) = dropwhile p a ++ b.
Proof.
  induction a as [|c a IH]; intros b H; simpl in *; [congruence|].
  destruct (p c); [apply IH; exact H | reflexivity].
Qed.

Lemma rstrip_drop :
  forall p a b,
    Forall (fun c => p c = true) b -> rstrip_by p (a ++ b) = rstrip_by p a.
Proof.
  intros p a b H; unfold rstrip_by.
  rewrite rev_app_distr, dropwhile_all; [reflexivity|].
  apply Forall_rev; exact H.
Qed.

Lemma rstrip_keep :
  forall p a b,
    rstrip_by p b <> [] -> rstrip_by p (a ++ b) = a ++ rstrip_by p b.
Proof.
  intros p a b H; unfold rstrip_by in *.
  rewrite rev_app_distr, dropwhile_keep.
  - rewrite rev_app_distr, rev_involutive; reflexivity.
  - intros E; rewrite E in H; apply H; reflexivity.
Qed.

Lemma rstrip_nil :
  forall p s, rstrip_by p s = [] -> Forall (fun c => p c = true) s.
Proof.
  intros p s H; unfold rstrip_by in H.
  assert (E : dropwhile p (rev s) = []).
  { rewrite <- (rev_involutive (dropwhile p (rev s))), H; reflexivity. }
  rewrite <- (rev_involutive s); apply Forall_rev, dropwhile_nil, E.
Qed.

Lemma strip_nil_iff : forall l, strip l = [] <-> all_space l.
Proof.
  intros l; unfold strip, strip_by, lstrip_by; split.
  - intros H; apply rstrip_nil in H.
    destruct (dropwhile is_space l) as [|c t] eqn:E.
    + apply dropwhile_nil; exact E.
    + pose proof (dropwhile_head is_space l) as Hh; rewrite E in Hh.
      inversion H; congruence.
  - intros H.
    rewrite <- (app_nil_r l), (dropwhile_all is_space l [] H); reflexivity.
Qed.

Lemma rstrip_trimmed_end :
  forall p s c, rstrip_by p s <> [] -> p (last (rstrip_by p s) c) = false.
Proof.
  intros p s c H; unfold rstrip_by in *.
  pose proof (dropwhile_head p (rev s)) as Hh.
  destruct (dropwhile p (rev s)) as [|x t]; [simpl in H; congruence|].
  simpl; rewrite last_last; exact Hh.
Qed.

Lemma rstrip_prefix :
  forall p s,
    exists b, s = rstrip_by p s ++ b /\ Forall (fun c => p c = true) b.
Proof.
  intros p s; unfold rstrip_by.
  destruct (dropwhile_split p (rev s)) as (w & E & Hw).
  exists (rev w); split; [|apply Forall_rev; exact Hw].
  rewrite <- (rev_involutive s) at 1; rewrite E at 1.
  apply rev_app_distr.
Qed.

Lemma rstrip_head :
  forall p s c,
    rstrip_by p (c :: s) = [] \/ exists t, rstrip_by p (c :: s) = c :: t.
Proof.
  intros p s c.
  destruct (rstrip_prefix p (c :: s)) as (b & E & _).
  destruct (rstrip_by p (c :: s)) as [|x t]; [left; reflexivity|].
  right; exists t; simpl in E; inversion E; reflexivity.
Qed.

Lemma strip_trimmed : forall s, trimmed (strip s).
Proof.
  intros s; unfold strip, strip_by, lstrip_by, trimmed.
  pose proof (dropwhile_head is_space s) as Hh.
  destruct (dropwhile is_space s) as [|c t] eqn:E.
  - reflexivity.
  - destruct (rstrip_head is_space t c) as [-> | [t' Ht]]; [exact I|].
    rewrite Ht; split; [exact Hh|].
    rewrite <- Ht; apply rstrip_trimmed_end; rewrite Ht; discriminate.
Qed.

Lemma strip_of_trimmed : forall s, trimmed s -> strip s = s.
Proof.
  intros [|c t] H; [reflexivity|].
  destruct H as [H1 H2]; apply strip_by_id; assumption.
Qed.

Lemma strip_idem : forall s, strip (strip s) = strip s.
Proof. intros; apply strip_of_trimmed, strip_trimmed. Qed.

Lemma strip_decomp :
  forall l,
    exists w1 w2, l = w1 ++ strip l ++ w2 /\ all_space w1 /\ all_space w2.
Proof.
  intros l; unfold strip, strip_by, lstrip_by.
  destruct (dropwhile_split is_space l) as (w1 & E1 & H1).
  destruct (rstrip_prefix is_space (dropwhile is_space l)) as (w2 & E2 & H2).
  exists w1, w2; repeat split; auto.
  rewrite <- E2; exact E1.
Qed.

Lemma lstrip_padded :
  forall w1 m w2,
    all_space w1 -> trimmed m -> m <> [] ->
    dropwhile is_space (w1 ++ m ++ w2) = m ++ w2.
Proof.
  intros w1 m w2 H1 Hm Hne.
  rewrite dropwhile_all by exact H1.
  apply dropwhile_stop.
  destruct m as [|c t]; [congruence|]; simpl; apply Hm.
Qed.

Lemma rstrip_padded :
  forall w1 m w2,
    all_space w2 -> trimmed m -> m <> [] ->
    rstrip_by is_space (w1 ++ m ++ w2) = w1 ++ m.
Proof.
  intros w1 m w2 H2 Hm Hne.
  rewrite app_assoc, rstrip_drop by exact H2.
  assert (E : rstrip_by is_space m = m).
  { destruct m as [|c t]; [congruence|]; destruct Hm as [_ Hl].
    assert (E0 : c :: t = removelast (c :: t) ++ [last (c :: t) c])
      by (apply app_removelast_last; discriminate).
    rewrite E0; apply rstrip_by_snoc; exact Hl. }
  rewrite rstrip_keep; rewrite E; [reflexivity | exact Hne].
Qed.

Lemma strip_padded :
  forall w1 m w2,
    all_space w1 -> all_space w2 -> trimmed m -> strip (w1 ++ m ++ w2) = m.
Proof.
  intros w1 m w2 H1 H2 Hm.
  destruct m as [|c t] eqn:Em.
  - apply strip_nil_iff; apply Forall_app; split; assumption.
  - rewrite <- Em in *.
    assert (Hne : m <> []) by (rewrite Em; discriminate).
    unfold strip, strip_by, lstrip_by.
    rewrite (lstrip_padded w1 m w2 H1 Hm Hne).
    rewrite <- (app_nil_l (m ++ w2)).
    rewrite (rstrip_padded [] m w2 H2 Hm Hne); reflexivity.
Qed.

(** ** The line loop *)

Lemma keep_line_blank :
  forall ln, keep_line ln <> None -> keep_line ln = Some (blank_line ln).
Proof.
  intros ln H; unfold keep_line, blank_line in *.
  destruct (is_empty (strip ln)); [reflexivity|].
  destruct (is_some _); [congruence|].
  destruct (_ && _); [congruence | reflexivity].
Qed.

Lemma keep_line_variant :
  forall l l',
    strip l' = strip l -> strip l <> [] -> keep_line l <> None ->
    keep_line l' = Some l'.
Proof.
  intros l l' E Hne H; unfold keep_line in *; rewrite E.
  destruct (strip l); [congruence|]; simpl in *.
  destruct (is_some _); [congruence|].
  destruct (_ && _); [congruence | reflexivity].
Qed.

Lemma good_line_nil : good_line [].
Proof. split; [constructor | reflexivity]. Qed.

Lemma good_line_blank :
  forall ln, one_line ln -> keep_line ln <> None -> good_line (blank_line ln).
Proof.
  intros ln H1 H2; unfold blank_line.
  destruct (strip ln) as [|c t] eqn:E; simpl; [apply good_line_nil|].
  split; [exact H1|].
  apply (keep_line_variant ln ln eq_refl); [rewrite E; discriminate | exact H2].
Qed.

Lemma good_line_cases : forall l, good_line l -> l = [] \/ strip l <> [].
Proof.
  intros l [_ H]; unfold keep_line in H.
  destruct (strip l) as [|c t]; [|right; discriminate].
  simpl in H; left; congruence.
Qed.

Lemma good_line_lstrip :
  forall l, good_line l -> good_line (dropwhile is_space l).
Proof.
  intros l H; destruct (good_line_cases l H) as [-> | Hne]; [exact H|].
  destruct H as [H1 H2]; split.
  - destruct (dropwhile_split is_space l) as (w & E & _).
    unfold one_line in *; rewrite E in H1; apply Forall_app in H1; tauto.
  - apply (keep_line_variant l); [| exact Hne | congruence].
    destruct (strip_decomp l) as (w1 & w2 & E & Hw1 & Hw2).
    rewrite E at 1.
    rewrite (lstrip_padded w1 (strip l) w2 Hw1 (strip_trimmed l) Hne).
    rewrite <- (app_nil_l (strip l ++ w2)).
    apply strip_padded; auto using strip_trimmed; constructor.
Qed.

Lemma good_line_rstrip :
  forall l, good_line l -> good_line (rstrip_by is_space l).
Proof.
  intros l H; destruct (good_line_cases l H) as [-> | Hne]; [exact H|].
  destruct H as [H1 H2]; split.
  - destruct (rstrip_prefix is_space l) as (w & E & _).
    unfold one_line in *; rewrite E in H1; apply Forall_app in H1; tauto.
  - apply (keep_line_variant l); [| exact Hne | congruence].
    destruct (strip_decomp l) as (w1 & w2 & E & Hw1 & Hw2).
    rewrite E at 1.
    rewrite (rstrip_padded w1 (strip l) w2 Hw2 (strip_trimmed l) Hne).
    rewrite <- (app_nil_r (strip l)) at 1.
    apply strip_padded; auto using strip_trimmed; constructor.
Qed.

(** ** Joined lines *)

Lemma join_cons :
  forall sep l lns,
    lns <> [] -> join sep (l :: lns) = l ++ sep ++ join sep lns.
Proof. intros sep l [|l2 lns] H; [congruence | reflexivity]. Qed.

Lemma join_app :
  forall sep a b,
    a <> [] -> b <> [] ->
    join sep (a ++ b) = join sep a ++ sep ++ join sep b.
Proof.
  induction a as [|l a IH]; intros b Ha Hb; [congruence|].
  destruct a as [|l2 a].
  - simpl app; apply join_cons; exact Hb.
  - change ((l :: l2 :: a) ++ b) with (l :: (l2 :: a) ++ b).
    rewrite join_cons by discriminate.
    rewrite IH by (auto; discriminate).
    rewrite (join_cons sep l) by discriminate.
    repeat rewrite <- app_assoc; reflexivity.
Qed.

Lemma lined_nil : lined [].
Proof. exists []; split; [reflexivity | constructor]. Qed.

Lemma lined_lstrip : forall s, lined s -> lined (dropwhile is_space s).
Proof.
  intros s (lns & -> & H).
  induction lns as [|l lns IH]; [apply lined_nil|].
  inversion H as [|? ? Hl Hls]; subst.
  destruct lns as [|l2 lns].
  - exists [dropwhile is_space l]; split; [reflexivity|].
    constructor; [apply good_line_lstrip; exact Hl | constructor].
  - rewrite join_cons by discriminate.
    destruct (good_line_cases l Hl) as [-> | Hne].
    + simpl; apply IH; exact Hls.
    + assert (Hd : dropwhile is_space l <> []).
      { intros E; apply Hne; apply strip_nil_iff, dropwhile_nil, E. }
      rewrite dropwhile_keep by exact Hd.
      exists (dropwhile is_space l :: l2 :: lns); split.
      * reflexivity.
      * constructor; [apply good_line_lstrip; exact Hl | exact Hls].
Qed.

Lemma rstrip_nonempty_of_strip :
  forall l, strip l <> [] -> rstrip_by is_space l <> [].
Proof.
  intros l H E; apply H; apply strip_nil_iff; apply rstrip_nil; exact E.
Qed.

Lemma lined_rstrip : forall s, lined s -> lined (rstrip_by is_space s).
Proof.
  intros s (lns & -> & H).
  induction lns as [|l lns IH] using rev_ind; [apply lined_nil|].
  apply Forall_app in H; destruct H as [Hls Hl].
  inversion Hl as [|? ? Hg _]; subst.
  destruct lns as [|l0 lns].
  - exists [rstrip_by is_space l]; split; [reflexivity|].
    constructor; [apply good_line_rstrip; exact Hg | constructor].
  - rewrite join_app by discriminate.
    simpl join at 2.
    destruct (good_line_cases l Hg) as [-> | Hne].
    + rewrite rstrip_drop by (repeat constructor).
      apply IH; exact Hls.
    + pose proof (rstrip_nonempty_of_strip l Hne) as Hr.
      assert (E : rstrip_by is_space ([LF] ++ l) = [LF] ++ rstrip_by is_space l)
        by (apply rstrip_keep; exact Hr).
      rewrite rstrip_keep by (rewrite E; discriminate).
      rewrite E.
      exists ((l0 :: lns) ++ [rstrip_by is_space l]); split.
      * rewrite join_app by discriminate; reflexivity.
      * apply Forall_app; split; [exact Hls|].
        constructor; [apply good_line_rstrip; exact Hg | constructor].
Qed.

Lemma lined_strip : forall s, lined s -> lined (strip s).
Proof. intros s H; apply lined_rstrip, lined_lstrip, H. Qed.

(** A line feed of a lined text separates two lined texts. *)
Lemma one_line_split :
  forall l r a b,
    one_line l -> l ++ LF :: r = a ++ LF :: b ->
    (a = l /\ b = r) \/ (exists a', a = l ++ LF :: a' /\ r = a' ++ LF :: b).
Proof.
  induction l as [|c l IH]; intros r a b Hl E.
  - destruct a as [|x a]; simpl in E; inversion E; subst.
    + left; auto.
    + right; exists a; auto.
  - inversion Hl as [|? ? Hc Hl']; subst.
    destruct a as [|x a]; simpl in E; inversion E; subst.
    + discriminate.
    + destruct (IH r a b Hl' H1) as [[-> ->] | (a' & -> & ->)].
      * left; auto.
      * right; exists a'; auto.
Qed.

Lemma lined_split :
  forall s a b, lined s -> s = a ++ LF :: b -> lined a /\ lined b.
Proof.
  intros s a b (lns & -> & H); revert a b.
  induction lns as [|l lns IH]; intros a b E.
  - destruct a; discriminate.
  - inversion H as [|? ? Hl Hls]; subst.
    destruct lns as [|l2 lns].
    + simpl in E; exfalso.
      destruct Hl as [Hone _]; unfold one_line in Hone; rewrite E in Hone.
      apply Forall_app in Hone; destruct Hone as [_ Hb].
      inversion Hb; discriminate.
    + rewrite join_cons in E by discriminate; simpl app in E.
      destruct (one_line_split l _ a b (proj1 Hl) E)
        as [[-> ->] | (a' & -> & E')].
      * split; [exists [l]; split;
                  [reflexivity | constructor; [exact Hl | constructor]]|].
        exists (l2 :: lns); auto.
      * destruct (IH Hls a' b E') as [(la & -> & Ha) Hb].
        split; [|exact Hb].
        destruct la as [|x la].
        { exists [l; []]; split; [reflexivity|].
          constructor; [exact Hl|].
          constructor; [apply good_line_nil | constructor]. }
        { exists (l :: x :: la); split; [reflexivity|].
          constructor; assumption. }
Qed.

Lemma lined_junction :
  forall t r,
    lined t -> lined r -> lined (t ++ [LF; LF] ++ r).
Proof.
  intros t r (lt & -> & Ht) (lr & -> & Hr).
  destruct lt as [|x lt]; [|destruct lr as [|y lr]].
  - destruct lr as [|y lr].
    + exists [[]; []; []]; split; [reflexivity|].
      repeat (constructor; [apply good_line_nil|]); constructor.
    + exists ([[]; []] ++ (y :: lr)); split.
      * rewrite join_app by discriminate; reflexivity.
      * repeat (constructor; [apply good_line_nil|]); exact Hr.
  - exists ((x :: lt) ++ [[]; []]); split.
    + rewrite join_app by discriminate; reflexivity.
    + apply Forall_app; split; [exact Ht|].
      repeat (constructor; [apply good_line_nil|]); constructor.
  - exists ((x :: lt) ++ [] :: (y :: lr)); split.
    + rewrite join_app by discriminate.
      rewrite (join_cons [LF] []) by discriminate; reflexivity.
    + apply Forall_app; split; [exact Ht|].
      constructor; [apply good_line_nil | exact Hr].
Qed.

(** ** [splitlines] as a decomposition *)

Lemma linebreak_is_space :
  forall c, is_linebreak c = true -> is_space c = true.
Proof. intros c; by_cases_on_char c. Qed.

(** After a carriage return, a line feed that follows belongs to the
    boundary. *)
Lemma lines_after_cr :
  forall x,
    exists b x',
      x = b ++ x' /\ all_space b /\ lines_from true x = lines_from false x'.
Proof.
  intros [|c t].
  - exists [], []; repeat split; constructor.
  - destruct (ascii_eqb c LF) eqn:E.
    + exists [c], t; repeat split.
      * apply ascii_eqb_eq in E; subst c; repeat constructor.
      * simpl; rewrite E; reflexivity.
    + exists [], (c :: t); repeat split; [constructor|].
      simpl; rewrite E; reflexivity.
Qed.

Lemma splits_lines_from :
  forall n x, length x <= n -> splits x (lines_from false x).
Proof.
  induction n as [|n IH]; intros x Hn.
  - destruct x; [constructor | simpl in Hn; lia].
  - destruct x as [|c t]; [constructor|].
    simpl in Hn; simpl lines_from.
    destruct (is_linebreak c) eqn:Hc.
    + destruct (ascii_eqb c CR) eqn:Ecr.
      * destruct (lines_after_cr t) as (b & x' & -> & Hb & ->).
        change (c :: b ++ x') with ([] ++ (c :: b) ++ x').
        apply splits_line; [constructor | discriminate | |].
        { constructor; [apply linebreak_is_space; exact Hc | exact Hb]. }
        apply IH; rewrite length_app in Hn; lia.
      * change (c :: t) with ([] ++ [c] ++ t).
        apply splits_line; [constructor | discriminate | |].
        { repeat constructor; apply linebreak_is_space; exact Hc. }
        apply IH; lia.
    + pose proof (IH t ltac:(lia)) as Ht.
      inversion Ht as [E1 E2 | l Hl Hone E1 E2 | l b x lns Hone Hb Hbs Hx E1 E2].
      * apply splits_last; [discriminate | repeat constructor; exact Hc].
      * apply splits_last; [discriminate | constructor; assumption].
      * change (c :: l ++ b ++ x) with ((c :: l) ++ b ++ x).
        apply splits_line; auto; constructor; assumption.
Qed.

Lemma splits_splitlines : forall x, splits x (splitlines x).
Proof. intros x; apply (splits_lines_from (length x)); lia. Qed.

Lemma splits_one_line : forall x lns, splits x lns -> Forall one_line lns.
Proof. induction 1; repeat constructor; auto. Qed.

Lemma splitlines_one_line : forall x, Forall one_line (splitlines x).
Proof. intros x; apply (splits_one_line x), splits_splitlines. Qed.





(** ** The sanitizer on texts in sanitized form *)

Lemma keep_from_first_day_spec :
  forall c,
    keep_from_first_day c
    = match first_header None c with
      | Some start => cut_at start c
      | None => c
      end.
Proof.
  intros c; unfold keep_from_first_day.
  rewrite <- re_search_first_header.
  destruct (re_search flag_i first_day_re c); reflexivity.
Qed.



Lemma last_line_nonempty :
  forall lns c t,
    join [LF] lns = c :: t -> is_space (last (c :: t) c) = false ->
    last lns [LF] <> [].
Proof.
  intros lns c t E Hl.
  destruct lns as [|l0 lns] using rev_ind; [discriminate|].
  rewrite last_last; intros ->.
  destruct lns as [|l1 lns]; [discriminate|].
  rewrite join_app in E by discriminate.
  simpl join at 2 in E; rewrite app_nil_r in E.
  rewrite <- E in Hl.
  rewrite (last_app_nonempty _ [LF] c c) in Hl by discriminate.
  discriminate.
Qed.





Lemma first_header_at :
  forall s pv k,
    first_header pv s = Some k ->
    k <= length s /\
    header_here (last_of pv (firstn k s)) (skipn k s) = true.
Proof.
  induction s as [|c t IH]; intros pv k H; simpl in H.
  - destruct (header_here pv []) eqn:Hh; [|discriminate].
    inversion H; subst k; split; [simpl; lia | exact Hh].
  - destruct (header_here pv (c :: t)) eqn:Hh.
    + inversion H; subst k; split; [simpl; lia | exact Hh].
    + destruct (first_header (Some c) t) as [k'|] eqn:Hk; [|discriminate].
      simpl in H; inversion H; subst k.
      destruct (IH (Some c) k' Hk) as [Hle Hat].
      split; [simpl; lia | exact Hat].
Qed.

(** A header after the start of the text begins with a line feed. *)
Lemma header_after_start :
  forall c s,
    header_here (Some c) s = true ->
    exists t, s = LF :: t /\ day_prefix (dropwhile is_space t) = true.
Proof.
  intros c s H; unfold header_here in H; simpl in H.
  destruct s as [|x t]; [discriminate|].
  apply andb_true_iff in H; destruct H as [Hx Hd].
  apply ascii_eqb_eq in Hx; subst x; eauto.
Qed.

Lemma day_prefix_head :
  forall s,
    day_prefix s = true -> exists c t, s = c :: t /\ is_space c = false.
Proof.
  intros [|c t] H; [discriminate|].
  exists c, t; split; [reflexivity|].
  unfold day_prefix in H; simpl in H.
  destruct (ascii_eqb (lower c) (lower "D")) eqn:E; [|discriminate].
  apply letter_D_not_space; exact E.
Qed.


Lemma trimmed_last_space :
  forall s w,
    trimmed (s ++ w) -> s ++ w <> [] -> all_space w -> w = [].
Proof.
  intros s w Ht Hne Hw.
  destruct w as [|x w]; [reflexivity|]; exfalso.
  destruct (s ++ x :: w) as [|y r] eqn:E; [congruence|].
  destruct Ht as [_ Hl].
  rewrite <- E, (last_app_nonempty s (x :: w) y x) in Hl by discriminate.
  assert (Hin : In (last (x :: w) x) (x :: w)).
  { rewrite (@app_removelast_last _ (x :: w) x) at 2 by discriminate.
    apply in_or_app; right; left; reflexivity. }
  unfold all_space in Hw; rewrite Forall_forall in Hw.
  rewrite (Hw _ Hin) in Hl; discriminate.
Qed.

(** The shape of a cleaned text whose first header is not at its start:
    the title part, a run of white space, and the part from the header
    on. *)
Lemma header_cut_shape :
  forall c n,
    lined c -> trimmed c -> first_header None c = Some (S n) ->
    exists t j r,
      c = t ++ j ++ r /\ t <> [] /\ r <> [] /\ trimmed t /\ trimmed r /\
      all_space j /\ j <> [] /\ lined t /\ lined r /\
      strip (firstn (S n) c) = t /\ strip (skipn (S n) c) = r /\
      length t <= S n /\ day_prefix r = true.
Proof.
  intros c n Hl Ht Hf.
  destruct (first_header_at c None (S n) Hf) as [Hle Hat].
  pose proof (firstn_skipn (S n) c) as Ec.
  assert (Hlen : length (firstn (S n) c) = S n)
    by (rewrite length_firstn; lia).
  destruct (firstn (S n) c) as [|x a'] eqn:Ea; [discriminate|].
  destruct (last_of_some x a') as [d Hd].
  simpl last_of in Hat; rewrite Hd in Hat.
  destruct (header_after_start d _ Hat) as (t' & Es & Hday).
  rewrite Es in Ec.
  assert (Hx : is_space x = false).
  { rewrite <- Ec in Ht; simpl in Ht; apply Ht. }
  destruct (strip_decomp (x :: a')) as (w1 & post & E1 & Hw1 & Hpost).
  assert (Ew1 : w1 = []).
  { destruct w1 as [|y w1]; [reflexivity|].
    simpl in E1; inversion E1; subst y.
    inversion Hw1; congruence. }
  subst w1; simpl in E1.
  assert (HT : strip (x :: a') <> []).
  { intros E; rewrite E in E1; simpl in E1.
    rewrite <- E1 in Hpost; inversion Hpost; congruence. }
  destruct (strip_decomp (LF :: t')) as (ws0 & w2 & E2 & Hws0 & Hw2).
  assert (HR : strip (LF :: t') <> []).
  { intros E; apply strip_nil_iff in E; inversion E as [|? ? _ Et]; subst.
    rewrite <- (app_nil_r t'), (dropwhile_all is_space t' [] Et) in Hday.
    discriminate. }
  pose proof (strip_trimmed (LF :: t')) as HtR.
  assert (Hws0ne : ws0 <> []).
  { intros ->; simpl in E2.
    destruct (strip (LF :: t')) as [|y r] eqn:Er; [congruence|].
    simpl in E2; inversion E2; subst y.
    destruct HtR as [Hy _]; discriminate. }
  assert (Ew2 : w2 = []).
  { apply (trimmed_last_space ((x :: a') ++ ws0 ++ strip (LF :: t')) w2).
    - repeat rewrite <- app_assoc; rewrite <- E2, Ec; exact Ht.
    - discriminate.
    - exact Hw2. }
  subst w2; rewrite app_nil_r in E2.
  destruct (lined_split c (x :: a') t' Hl (eq_sym Ec)) as [Hla Hlt'].
  exists (strip (x :: a')), (post ++ ws0), (strip (LF :: t')).
  repeat split; auto.
  - rewrite <- Ec, E2, E1 at 1.
    repeat rewrite <- app_assoc; reflexivity.
  - apply strip_trimmed.
  - apply Forall_app; split; assumption.
  - intros E; apply app_eq_nil in E; destruct E; congruence.
  - apply lined_strip; exact Hla.
  - replace (strip (LF :: t')) with (strip t') by reflexivity.
    apply lined_strip; exact Hlt'.
  - rewrite Es; reflexivity.
  - pose proof (f_equal (@length ascii) E1) as HL.
    rewrite length_app in HL; lia.
  - replace (dropwhile is_space t') with (dropwhile is_space (LF :: t'))
      in Hday by reflexivity.
    rewrite E2 in Hday.
    rewrite <- (app_nil_r (strip (LF :: t'))) in Hday at 1.
    rewrite (lstrip_padded ws0 _ [] Hws0 HtR HR), app_nil_r in Hday.
    exact Hday.
Qed.





Lemma cut_at_eq :
  forall start c,
    cut_at start c
    = title_and_body (strip (firstn start c)) (strip (skipn start c)).
Proof. reflexivity. Qed.







(** * Further properties of the persistence functions *)

Lemma ensured_data_dir :
  forall st st', _ensure_data_dir st = (st', Returned tt) -> data_dir st' = true.
Proof.
  intros st st'; unfold _ensure_data_dir, data_dir.
  destruct (dir st) eqn:D.
  - intros E; inversion E; subst st'; rewrite D; reflexivity.
  - destruct (can_make_dir st); intros E; inversion E; reflexivity.
Qed.

Lemma ensured_parts :
  forall st st',
    _ensure_data_dir st = (st', Returned tt) ->
    files st' = files st /\ readable st' = readable st.
Proof.
  intros st st'; unfold _ensure_data_dir, files.
  destruct (dir st) eqn:D.
  - intros E; inversion E; subst st'; rewrite D; auto.
  - destruct (can_make_dir st); intros E; inversion E; auto.
Qed.

(** What [load_progress] and [load_history] return depends on the file
    they name only. *)
Lemma load_progress_ext :
  forall hash g st st',
    data_dir st = true -> data_dir st' = true ->
    files st (progress_file hash g) = files st' (progress_file hash g) ->
    readable st (progress_file hash g) = readable st' (progress_file hash g) ->
    snd (load_progress hash g st) = snd (load_progress hash g st').
Proof.
  intros hash g st st' D D' Hf Hr.
  rewrite (load_progress_present hash g st D),
          (load_progress_present hash g st' D').
  unfold read_json; rewrite Hf, Hr; reflexivity.
Qed.

Lemma load_history_ext :
  forall st st',
    data_dir st = true -> data_dir st' = true ->
    files st HistoryPath = files st' HistoryPath ->
    readable st HistoryPath = readable st' HistoryPath ->
    snd (load_history st) = snd (load_history st').
Proof.
  intros st st' D D' Hf Hr.
  rewrite (load_history_present st D), (load_history_present st' D').
  unfold read_json; rewrite Hf, Hr; reflexivity.
Qed.

(** The state that [save_history_record] leaves. *)
Lemma save_history_record_state :
  forall r st,
    (data_dir st = false /\ can_make_dir st = false /\
     save_history_record r st = (st, Raised OSError)) \/
    (exists st',
       _ensure_data_dir st = (st', Returned tt) /\
       (fst (save_history_record r st) = st' \/
        exists v, fst (save_history_record r st)
                  = fst (write_json HistoryPath v st'))).
Proof.
  intros r st.
  destruct (data_dir st || can_make_dir st) eqn:Hd.
  - right; destruct (ensure_ok st Hd) as (st' & E & D' & _).
    exists st'; split; [exact E|].
    unfold save_history_record; rewrite E.
    rewrite (load_history_present st' D').
    match goal with |- context [match ?h with JArr _ => _ | _ => _ end] =>
      destruct h end; try (left; reflexivity).
    right; eexists; reflexivity.
  - left; apply orb_false_elim in Hd; destruct Hd as [H1 H2].
    repeat split; auto.
    unfold save_history_record; rewrite (ensure_fails st H1 H2); reflexivity.
Qed.

(** X1: a progress record survives within one process: on a file that can be
    written and read, [load_progress] after [save_progress] returns the
    record saved for the goal, whatever the file held before. *)
Theorem progress_round_trip :
  forall hash user_goal r st,
    writable st (progress_file hash user_goal) = true ->
    readable st (progress_file hash user_goal) = true ->
    snd (save_progress hash user_goal r st) = Returned tt /\
    snd (load_progress hash user_goal
           (fst (save_progress hash user_goal r st))) = Returned r.
Proof.
  intros hash user_goal r st Hw Hr; split.
  - apply save_progress_returns.
    apply (writable_parts _ _ Hw).
  - apply progress_roundtrip_same_process; assumption.
Qed.

Lemma progress_round_trip_witness :
  snd (save_progress (str_hash 1) goal_rust progress_day1 empty_fs)
  = Returned tt /\
  snd (load_progress (str_hash 1) goal_rust
         (fst (save_progress (str_hash 1) goal_rust progress_day1 empty_fs)))
  = Returned progress_day1.
Proof.
  apply (progress_round_trip (str_hash 1) goal_rust progress_day1 empty_fs);
    reflexivity.
Defined.

(** X2: progress records of two goals: when [hash] gives the goals different
    keys, saving the record of one leaves what [load_progress] returns for
    the other as it was; when it gives them the same key they share one
    file, and the record saved for one is the record loaded for the
    other. *)
Theorem progress_of_two_goals :
  forall hash g1 g2 r st,
    (hash g1 <> hash g2 ->
     snd (load_progress hash g2 (fst (save_progress hash g1 r st)))
     = snd (load_progress hash g2 st)) /\
    (hash g1 = hash g2 ->
     writable st (progress_file hash g1) = true ->
     readable st (progress_file hash g1) = true ->
     snd (load_progress hash g2 (fst (save_progress hash g1 r st)))
     = Returned r).
Proof.
  intros hash g1 g2 r st; split.
  - intros Hne.
    destruct (save_progress_state hash g1 r st)
      as [(_ & _ & S) | (st' & E & S)]; rewrite S; [reflexivity|].
    rewrite (load_progress_ensured hash g2 st st' E).
    pose proof (ensured_data_dir st st' E) as D'.
    destruct (write_json_modes (progress_file hash g1) r st' D') as [R2 D2].
    apply load_progress_ext; auto.
    + apply write_json_frame; [exact D'|].
      unfold progress_file; simpl; apply Z.eqb_neq; congruence.
    + rewrite R2; reflexivity.
  - intros He Hw Hr.
    rewrite <- (progress_roundtrip_same_process hash g1 r st Hw Hr).
    unfold load_progress, progress_file; rewrite He; reflexivity.
Qed.

Lemma progress_of_two_goals_witness :
  snd (load_progress (str_hash 1) goal_go
         (fst (save_progress (str_hash 1) goal_rust progress_day1 empty_fs)))
  = snd (load_progress (str_hash 1) goal_go empty_fs) /\
  snd (load_progress (fun _ => 0%Z) goal_go
         (fst (save_progress (fun _ => 0%Z) goal_rust progress_day1
                 empty_fs)))
  = Returned progress_day1.
Proof.
  split.
  - apply (progress_of_two_goals (str_hash 1) goal_rust goal_go progress_day1
             empty_fs).
    vm_compute; discriminate.
  - apply (progress_of_two_goals (fun _ => 0%Z) goal_rust goal_go
             progress_day1 empty_fs); reflexivity.
Defined.

(** X3: a progress file that exists but cannot be read or does not hold JSON
    is read as the empty record, and the next [save_progress], when the
    file can be written, replaces what the file held. *)
Theorem corrupt_progress_is_replaced :
  forall hash g r st,
    is_some (files st (progress_file hash g)) = true ->
    (readable st (progress_file hash g) = false \/
     exists raw, files st (progress_file hash g) = Some (Garbage raw)) ->
    writable st (progress_file hash g) = true ->
    snd (load_progress hash g st) = Returned (JObj []) /\
    files (fst (save_progress hash g r st)) (progress_file hash g)
      = Some (Json r).
Proof.
  intros hash g r st Hex Hbad Hw.
  pose proof (file_in_data_dir _ _ Hex) as D; split.
  - rewrite (load_progress_present hash g st D).
    unfold read_json; rewrite Hex; simpl.
    destruct Hbad as [Hr | [raw Hg]].
    + rewrite Hr; reflexivity.
    + rewrite Hg; destruct (readable st _); reflexivity.
  - destruct (writable_parts _ _ Hw) as (_ & Ho & Hf).
    unfold save_progress; rewrite (ensure_present st D); cbv zeta.
    rewrite write_json_ok by assumption.
    apply set_file_same.
Qed.

Lemma corrupt_progress_is_replaced_witness :
  let st := fs_with_progress 7 (Garbage (lit "{")) in
  snd (load_progress (fun _ => 7%Z) goal_rust st) = Returned (JObj []) /\
  files (fst (save_progress (fun _ => 7%Z) goal_rust progress_day1 st))
        (ProgressPath 7)
    = Some (Json progress_day1).
Proof.
  apply (corrupt_progress_is_replaced (fun _ => 7%Z) goal_rust progress_day1
           (fs_with_progress 7 (Garbage (lit "{")))).
  - reflexivity.
  - right; exists (lit "{"); reflexivity.
  - reflexivity.
Defined.

(** X4: records saved one after the other, on a history file that can be read
    and written: every call returns, and [load_history] then returns what
    it returned at the start followed by the records in the order of the
    calls, so that its length has grown by their number. *)
Theorem history_accumulates :
  forall rs st prev,
    readable st HistoryPath = true ->
    writable st HistoryPath = true ->
    snd (load_history st) = Returned (JArr prev) ->
    snd (save_history_records rs st) = Returned tt /\
    snd (load_history (fst (save_history_records rs st)))
      = Returned (JArr (prev ++ rs)).
Proof.
  induction rs as [|r rs IH]; intros st prev Hr Hw Hl; simpl.
  - rewrite app_nil_r; auto.
  - destruct (save_history_record_appends r st prev Hw Hl)
      as (A1 & A2 & A3 & A4).
    destruct (save_history_record r st) as [st1 o]; simpl in *; subst o.
    assert (Hl1 : load_history st1 = (st1, Returned (JArr (prev ++ [r])))).
    { apply load_history_of_value; [exact A2 | rewrite A3; exact Hr]. }
    destruct (IH st1 (prev ++ [r])) as [B1 B2];
      [rewrite A3; exact Hr | rewrite A4; exact Hw
      | rewrite Hl1; reflexivity |].
    rewrite <- app_assoc in B2; auto.
Qed.

Lemma history_accumulates_witness :
  let st := fs_with_history (Json (JArr [rec_old])) in
  snd (save_history_records [rec_a; rec_b; rec_a] st) = Returned tt /\
  snd (load_history (fst (save_history_records [rec_a; rec_b; rec_a] st)))
    = Returned (JArr ([rec_old] ++ [rec_a; rec_b; rec_a])).
Proof.
  apply (history_accumulates [rec_a; rec_b; rec_a]
           (fs_with_history (Json (JArr [rec_old]))) [rec_old]);
    reflexivity.
Defined.

(** X5: a history file that holds a JSON value other than a list: the value
    loaded has no [append], so [save_history_record] raises
    [AttributeError] before it opens the file, and the file system stays
    as it was. *)
Theorem history_not_a_list :
  forall r st v,
    files st HistoryPath = Some (Json v) ->
    readable st HistoryPath = true ->
    (forall l, v <> JArr l) ->
    save_history_record r st = (st, Raised AttributeError) /\
    files (fst (save_history_record r st)) = files st.
Proof.
  intros r st v Hf Hr Hv.
  assert (D : data_dir st = true)
    by (apply (file_in_data_dir st HistoryPath); rewrite Hf; reflexivity).
  assert (E : save_history_record r st = (st, Raised AttributeError)).
  { unfold save_history_record.
    rewrite (ensure_present st D), (load_history_of_value st v Hf Hr).
    destruct v; try reflexivity.
    exfalso; apply (Hv l); reflexivity. }
  rewrite E; split; reflexivity.
Qed.

Lemma history_not_a_list_witness :
  let st := fs_with_history (Json rec_old) in
  save_history_record rec_a st = (st, Raised AttributeError) /\
  files (fst (save_history_record rec_a st)) = files st.
Proof.
  apply (history_not_a_list rec_a (fs_with_history (Json rec_old)) rec_old);
    [reflexivity | reflexivity | intros l; discriminate].
Defined.

(** X6: the two stores do not touch each other: saving a progress record
    leaves what [load_history] returns as it was, and saving a history
    record leaves what [load_progress] returns, for every goal, as it
    was. *)
Theorem progress_and_history_are_apart :
  forall hash g r rec st,
    snd (load_history (fst (save_progress hash g r st)))
    = snd (load_history st) /\
    snd (load_progress hash g (fst (save_history_record rec st)))
    = snd (load_progress hash g st).
Proof.
  intros hash g r rec st; split.
  - destruct (save_progress_state hash g r st)
      as [(_ & _ & S) | (st' & E & S)]; rewrite S; [reflexivity|].
    rewrite (load_history_ensured st st' E).
    pose proof (ensured_data_dir st st' E) as D'.
    destruct (write_json_modes (progress_file hash g) r st' D') as [R2 D2].
    apply load_history_ext; auto.
    + apply write_json_frame; [exact D' | reflexivity].
    + rewrite R2; reflexivity.
  - destruct (save_history_record_state rec st)
      as [(_ & _ & S) | (st' & E & [S | [v S]])]; rewrite S;
      [reflexivity | | ]; rewrite (load_progress_ensured hash g st st' E);
      [reflexivity|].
    pose proof (ensured_data_dir st st' E) as D'.
    destruct (write_json_modes HistoryPath v st' D') as [R2 D2].
    apply load_progress_ext; auto.
    + apply write_json_frame; [exact D' | reflexivity].
    + rewrite R2; reflexivity.
Qed.

(** X7: the data directory.  When it is missing and cannot be made, the
    two loaders raise the error of [os.makedirs] to their caller, although
    every read error after it gives the empty value; in every other state
    they return, and afterwards the directory is there. *)
Theorem loaders_need_data_dir :
  forall hash g st,
    (data_dir st = false -> can_make_dir st = false ->
     load_progress hash g st = (st, Raised OSError) /\
     load_history st = (st, Raised OSError)) /\
    (data_dir st || can_make_dir st = true ->
     (exists v, snd (load_progress hash g st) = Returned v) /\
     (exists v, snd (load_history st) = Returned v) /\
     data_dir (fst (load_progress hash g st)) = true /\
     data_dir (fst (load_history st)) = true).
Proof.
  intros hash g st; split.
  - intros H1 H2; unfold load_progress, load_history.
    rewrite (ensure_fails st H1 H2); auto.
  - intros Hd.
    destruct (ensure_ok st Hd) as (st' & E & D' & _).
    rewrite (load_progress_ensured hash g st st' E),
            (load_history_ensured st st' E),
            (load_progress_present hash g st' D'),
            (load_history_present st' D'); simpl.
    repeat split; try exact D'; eexists; reflexivity.
Qed.

Lemma loaders_need_data_dir_witness :
  (load_progress (str_hash 1) goal_rust no_dir_fs = (no_dir_fs, Raised OSError) /\
   load_history no_dir_fs = (no_dir_fs, Raised OSError)) /\
  ((exists v, snd (load_progress (str_hash 1) goal_rust empty_fs) = Returned v) /\
   (exists v, snd (load_history empty_fs) = Returned v) /\
   data_dir (fst (load_progress (str_hash 1) goal_rust empty_fs)) = true /\
   data_dir (fst (load_history empty_fs)) = true).
Proof.
  split.
  - apply (loaders_need_data_dir (str_hash 1) goal_rust no_dir_fs);
      reflexivity.
  - apply (loaders_need_data_dir (str_hash 1) goal_rust empty_fs);
      reflexivity.
Defined.

(** * Further properties of the sanitizer *)

Lemma filter_lines_are_good :
  forall lns, Forall one_line lns -> Forall good_line (filter_lines lns).
Proof.
  induction lns as [|l lns IH]; intros H; simpl; [constructor|].
  inversion H as [|? ? H1 H2]; subst.
  destruct (keep_line l) as [k|] eqn:E; [|apply IH; exact H2].
  constructor; [|apply IH; exact H2].
  assert (Hn : keep_line l <> None) by congruence.
  rewrite (keep_line_blank l Hn) in E; inversion E; subst k.
  apply good_line_blank; assumption.
Qed.

(** [cleaned] of the sanitizer is made of lines that the line loop keeps,
    whatever the text. *)
Lemma filtered_text_lined :
  forall t, lined (strip (join [LF] (filter_lines (splitlines t)))).
Proof.
  intros t; apply lined_strip.
  exists (filter_lines (splitlines t)); split; [reflexivity|].
  apply filter_lines_are_good, splitlines_one_line.
Qed.

Lemma lined_lines :
  forall s, lined s -> trimmed s -> Forall good_line (splitlines s).
Proof.
  intros s (lns & E & Hg) Ht.
  destruct s as [|c t]; [constructor|].
  assert (Hs : splitlines (c :: t) = lns).
  { rewrite E; apply splitlines_join.
    - apply Forall_forall; intros l Hl.
      rewrite Forall_forall in Hg; apply (Hg l Hl).
    - apply (last_line_nonempty lns c t); [symmetry; exact E | apply Ht]. }
  rewrite Hs; exact Hg.
Qed.

Lemma Forall_lastn :
  forall (A : Type) (P : A -> Prop) n l, Forall P l -> Forall P (lastn n l).
Proof.
  intros A P n l H; unfold lastn.
  rewrite <- (firstn_skipn (length l - n) l) in H.
  apply Forall_app in H; apply H.
Qed.

Lemma keep_from_first_day_lined :
  forall c,
    lined c -> trimmed c ->
    lined (keep_from_first_day c) /\ trimmed (keep_from_first_day c).
Proof.
  intros c Hl Ht; rewrite keep_from_first_day_spec.
  destruct (first_header None c) as [[|n]|] eqn:Hf; [| |auto].
  - assert (E : cut_at 0 c = c).
    { unfold cut_at; simpl; apply strip_of_trimmed; exact Ht. }
    rewrite E; auto.
  - destruct (header_cut_shape c n Hl Ht Hf)
      as (t & j & r & Ec & Hnt & Hnr & Htt & Htr & Hj & Hnj & Hlt & Hlr
          & Ef & Es & Hlen & Hday).
    rewrite cut_at_eq, Ef, Es; unfold title_and_body.
    destruct (is_empty (splitlines t)); simpl; [auto|].
    destruct (is_empty (join [LF] (lastn 2 (splitlines t)))); [auto|].
    split; [|apply strip_trimmed].
    apply lined_strip, lined_junction; [|exact Hlr].
    exists (lastn 2 (splitlines t)); split; [reflexivity|].
    apply Forall_lastn, lined_lines; assumption.
Qed.

Lemma sanitize_lined :
  forall x,
    lined (sanitize_learning_path_text x) /\
    trimmed (sanitize_learning_path_text x).
Proof.
  intros x; unfold sanitize_learning_path_text.
  destruct (is_empty x); [split; [apply lined_nil | exact I]|].
  apply keep_from_first_day_lined;
    [apply filtered_text_lined | apply strip_trimmed].
Qed.

(** X8: whatever the input, the text returned has no white space at its
    ends: stripping it changes nothing. *)
Theorem sanitize_output_trimmed :
  forall x,
    strip (sanitize_learning_path_text x) = sanitize_learning_path_text x.
Proof. intros x; apply strip_of_trimmed, sanitize_lined. Qed.

(** X9: whatever the input, no line of the text returned is one that the line
    loop drops: the line loop keeps each of them unchanged, none starts,
    after its white space, with [Thought], [Action] or [Observation], and
    none is enclosed in braces. *)
Theorem sanitize_output_lines_kept :
  forall x ln,
    In ln (splitlines (sanitize_learning_path_text x)) ->
    keep_line ln = Some ln /\
    re_match flag_i trace_re (strip ln) = None /\
    startswith (lit "{") (strip ln) && endswith (lit "}") (strip ln) = false.
Proof.
  intros x ln Hin.
  destruct (sanitize_lined x) as [Hl Ht].
  pose proof (lined_lines _ Hl Ht) as Hg.
  rewrite Forall_forall in Hg; destruct (Hg ln Hin) as [_ Hk].
  split; [exact Hk|].
  unfold keep_line in Hk.
  destruct (strip ln) as [|c t] eqn:Es; [split; reflexivity|].
  simpl is_empty in Hk; cbv iota in Hk.
  destruct (re_match flag_i trace_re (c :: t)); [discriminate|].
  simpl is_some in Hk; cbv iota in Hk.
  destruct (startswith (lit "{") (c :: t) && endswith (lit "}") (c :: t));
    [discriminate | split; reflexivity].
Qed.

Lemma sanitize_output_lines_kept_witness :
  keep_line (lit "Day 1: Basics") = Some (lit "Day 1: Basics") /\
  re_match flag_i trace_re (strip (lit "Day 1: Basics")) = None /\
  startswith (lit "{") (strip (lit "Day 1: Basics"))
  && endswith (lit "}") (strip (lit "Day 1: Basics")) = false.
Proof.
  apply (sanitize_output_lines_kept titled_plan (lit "Day 1: Basics")).
  vm_compute; auto 10.
Defined.

Lemma lines_from_all :
  forall (P : ascii -> Prop) x b,
    Forall P x -> Forall (Forall P) (lines_from b x).
Proof.
  intros P x; induction x as [|c t IH]; intros b H; simpl; [constructor|].
  inversion H as [|? ? Hc Htl]; subst.
  destruct (b && ascii_eqb c LF); [apply IH; exact Htl|].
  destruct (is_linebreak c).
  - constructor; [constructor | apply IH; exact Htl].
  - pose proof (IH false Htl) as Hr.
    destruct (lines_from false t) as [|l1 ls]; repeat constructor; auto;
      inversion Hr; auto.
Qed.

Lemma filter_blank_lines :
  forall lns,
    Forall all_space lns -> Forall (fun l => l = []) (filter_lines lns).
Proof.
  induction lns as [|l lns IH]; intros H; simpl; [constructor|].
  inversion H as [|? ? H1 H2]; subst.
  unfold keep_line.
  apply strip_nil_iff in H1; rewrite H1; simpl.
  constructor; [reflexivity | apply IH; exact H2].
Qed.

Lemma join_blank_lines :
  forall lns, Forall (fun l => l = []) lns -> all_space (join [LF] lns).
Proof.
  induction lns as [|l lns IH]; intros H; [constructor|].
  inversion H as [|? ? H1 H2]; subst.
  destruct lns as [|l' lns']; [constructor|].
  rewrite join_cons by discriminate.
  simpl; constructor; [reflexivity | apply IH; exact H2].
Qed.

Lemma no_match_in_white_space :
  forall f r x,
    ws_insensitive f r -> re_search f r [] = None -> all_space x ->
    re_search f r x = None.
Proof.
  intros f r x Hr He Hx.
  apply re_search_none; intros Hm.
  apply re_search_none in He; apply He.
  apply (matches_in_wsr f r x []); auto.
  apply wsr_end; [exact Hx | constructor].
Qed.

(** X10: a text of white space only is emptied: the three span patterns match
    nowhere in it, the line loop turns each of its lines into an empty
    line, and stripping leaves nothing. *)
Theorem sanitize_of_white_space :
  forall x, all_space x -> sanitize_learning_path_text x = [].
Proof.
  intros x Hx; unfold sanitize_learning_path_text.
  destruct (is_empty x); [reflexivity|].
  rewrite (re_sub_no_match no_flags fence_re erase x)
    by (apply no_match_in_white_space;
        [apply fence_ws_insensitive | reflexivity | exact Hx]).
  rewrite (re_sub_no_match flag_i toolexc_re erase x)
    by (apply no_match_in_white_space;
        [apply toolexc_ws_insensitive | reflexivity | exact Hx]).
  rewrite (re_sub_no_match no_flags datajson_re erase x)
    by (apply no_match_in_white_space;
        [apply datajson_ws_insensitive | reflexivity | exact Hx]).
  assert (E : strip (join [LF] (filter_lines (splitlines x))) = []).
  { apply strip_nil_iff, join_blank_lines, filter_blank_lines.
    apply lines_from_all; exact Hx. }
  rewrite E; reflexivity.
Qed.

Lemma sanitize_of_white_space_witness :
  sanitize_learning_path_text [SP; LF; TAB; CR; LF; SP] = [].
Proof.
  apply (sanitize_of_white_space [SP; LF; TAB; CR; LF; SP]).
  repeat constructor.
Defined.

(** * Further properties of the extractor *)

(** ** What a group holds *)

Section Captures.
Variable A : Type.
Variable f : flags.

(** [run_sound] with the groups: the matcher adds spans of the groups of
    the pattern, and nothing else, in front of the spans it had. *)
Lemma run_sound_caps :
  forall r s (k : mstate -> option A) x,
    run f r s k = Some x ->
    exists w s',
      rest s = w ++ rest s' /\ pos s' = pos s + length w /\
      prev s' = last_of (prev s) w /\
      matches f r (prev s) w (rest s') /\ k s' = Some x /\
      exists new, caps s' = new ++ caps s /\
                  Forall (fun e => In (fst e) (group_ids r)) new.
Proof.
  induction r; intros s k x H; simpl in H.
  - exists [], s; simpl; rewrite Nat.add_0_r; repeat split; auto.
    + constructor.
    + exists []; auto.
  - unfold step in H; destruct (rest s) as [|c t] eqn:Er; [discriminate|].
    destruct (accepts f a c) eqn:Ea; [|discriminate].
    eexists [c], _; simpl; repeat split; try exact H; simpl; auto.
    + rewrite Nat.add_1_r; reflexivity.
    + constructor; exact Ea.
    + exists []; auto.
  - destruct (IHr1 _ _ _ H)
      as (w1 & s1 & E1 & P1 & V1 & M1 & K1 & n1 & C1 & G1).
    destruct (IHr2 _ _ _ K1)
      as (w2 & s2 & E2 & P2 & V2 & M2 & K2 & n2 & C2 & G2).
    exists (w1 ++ w2), s2; repeat split; auto.
    + rewrite E1, E2, app_assoc; reflexivity.
    + rewrite P2, P1, length_app; lia.
    + rewrite V2, V1, last_of_app; reflexivity.
    + constructor; [rewrite <- E2; exact M1 | rewrite <- V1; exact M2].
    + exists (n2 ++ n1); split; [rewrite C2, C1, app_assoc; reflexivity|].
      apply Forall_app; split;
        [eapply Forall_impl; [|exact G2] | eapply Forall_impl; [|exact G1]];
        intros e He; simpl; apply in_or_app; auto.
  - destruct (run f r1 s k) eqn:E.
    + inversion H; subst a.
      destruct (IHr1 _ _ _ E) as (w & s' & ? & ? & ? & ? & ? & n1 & C1 & G1).
      exists w, s'; repeat split; auto using M_AltL.
      exists n1; split; [exact C1|].
      eapply Forall_impl; [|exact G1].
      intros e He; simpl; apply in_or_app; auto.
    + destruct (IHr2 _ _ _ H) as (w & s' & ? & ? & ? & ? & ? & n1 & C1 & G1).
      exists w, s'; repeat split; auto using M_AltR.
      exists n1; split; [exact C1|].
      eapply Forall_impl; [|exact G1].
      intros e He; simpl; apply in_or_app; auto.
  - unfold on_state in H.
    destruct (star_greedy_sound _ _ _ _ _ _ _ _ H) as (w & l' & E & Hw & Hk).
    eexists w, _; repeat split; try exact Hk; simpl; auto.
    + constructor; exact Hw.
    + exists []; auto.
  - unfold step in H; destruct (rest s) as [|c t] eqn:Er; [discriminate|].
    destruct (accepts f a c) eqn:Ea; [|discriminate].
    unfold on_state in H; simpl in H.
    destruct (star_greedy_sound _ _ _ _ _ _ _ _ H) as (w & l' & E & Hw & Hk).
    exists (c :: w),
      (MState (S (pos s) + length w) (last_of (Some c) w) l' (caps s)).
    simpl; repeat split; auto.
    + rewrite E; reflexivity.
    + constructor; [discriminate | constructor; auto].
    + exists []; auto.
  - unfold on_state in H.
    destruct (star_lazy_sound _ _ _ _ _ _ _ _ H) as (w & l' & E & Hw & Hk).
    eexists w, _; repeat split; try exact Hk; simpl; auto.
    + constructor; exact Hw.
    + exists []; auto.
  - destruct (run f r s k) eqn:E.
    + inversion H; subst a.
      destruct (IHr _ _ _ E) as (w & s' & ? & ? & ? & ? & ? & n1 & C1 & G1).
      exists w, s'; repeat split; auto using M_OptSome.
      exists n1; auto.
    + exists [], s; simpl; rewrite Nat.add_0_r; repeat split; auto.
      * apply M_OptNone.
      * exists []; auto.
  - destruct (IHr _ _ _ H) as (w & s' & ? & ? & ? & ? & ? & n1 & C1 & G1).
    exists w, (set_cap n (pos s, pos s') s'); repeat split; auto.
    + constructor; assumption.
    + exists ((n, (pos s, pos s')) :: n1); simpl; split;
        [rewrite C1; reflexivity|].
      constructor; [left; reflexivity|].
      eapply Forall_impl; [|exact G1]; intros e He; right; exact He.
  - destruct (run_sound _ _ _ _ _ _ H) as (w & s' & E & ? & ? & M & K).
    exists [], s; simpl; rewrite Nat.add_0_r; repeat split; auto.
    + rewrite E; constructor; exact M.
    + exists []; auto.
  - destruct (at_bol f s) eqn:E; [|discriminate].
    exists [], s; simpl; rewrite Nat.add_0_r; repeat split; auto.
    + constructor; exact E.
    + exists []; auto.
  - destruct (at_eol f s) eqn:E; [|discriminate].
    exists [], s; simpl; rewrite Nat.add_0_r; repeat split; auto.
    + constructor; exact E.
    + exists []; auto.
Qed.

Lemma at_text_step :
  forall t s s' w,
    at_text t s -> rest s = w ++ rest s' -> pos s' = pos s + length w ->
    at_text t s' /\ slice (pos s) (pos s') t = w.
Proof.
  intros t s s' w (pre & E & L) Er Ep; split.
  - exists (pre ++ w); split.
    + rewrite E, Er, app_assoc; reflexivity.
    + rewrite length_app; lia.
  - unfold slice; rewrite Ep, E, Er, <- L.
    rewrite skipn_app, skipn_all, Nat.sub_diag; simpl.
    replace (length pre + length w - length pre) with (length w + 0) by lia.
    rewrite firstn_app_2; simpl; apply app_nil_r.
Qed.

(** A pattern that ends with a group: the span of that group is put in
    front, and the group holds what its pattern matched. *)
Lemma run_last_group :
  forall r n g t s (k : mstate -> option A) x,
    ends_in_group r n g -> at_text t s ->
    run f r s k = Some x ->
    exists s1 s2 w,
      slice (pos s1) (pos s2) t = w /\
      matches f g (prev s1) w (rest s2) /\
      k (set_cap n (pos s1, pos s2) s2) = Some x.
Proof.
  induction r; intros m g t s k x He Ht H; simpl in He; try contradiction.
  - simpl in H.
    destruct (run_sound _ _ _ _ _ _ H) as (w1 & s1 & E1 & P1 & V1 & M1 & K1).
    destruct (at_text_step t s s1 w1 Ht E1 P1) as [Ht1 _].
    apply (IHr2 m g t s1 k x He Ht1 K1).
  - destruct He as [-> ->]; simpl in H.
    destruct (run_sound _ _ _ _ _ _ H) as (w1 & s1 & E1 & P1 & V1 & M1 & K1).
    destruct (at_text_step t s s1 w1 Ht E1 P1) as [_ Hs].
    exists s, s1, w1; auto.
Qed.

End Captures.

Lemma search_from_state :
  forall f r l n pv m,
    search_from f r n pv l = Some m ->
    exists a l',
      l = a ++ l' /\
      match_here f r (MState (n + length a) (last_of pv a) l' []) = Some m.
Proof.
  induction l as [|c t IH]; intros n pv m H; simpl in H.
  - destruct (match_here f r (MState n pv [] [])) eqn:E; [|discriminate].
    exists [], []; simpl; rewrite Nat.add_0_r; split; [reflexivity|].
    rewrite E; exact H.
  - destruct (match_here f r (MState n pv (c :: t) [])) eqn:E.
    + exists [], (c :: t); simpl; rewrite Nat.add_0_r; split; [reflexivity|].
      rewrite E; exact H.
    + destruct (IH _ _ _ H) as (a & l' & -> & Hm).
      exists (c :: a), l'; split; [reflexivity|].
      simpl; rewrite <- plus_n_Sm; exact Hm.
Qed.

(** [m.group(n)] for a pattern that ends with group [n]: what the pattern
    of the group matched, somewhere in the subject. *)
Lemma search_last_group :
  forall f r n g s m,
    ends_in_group r n g ->
    re_search f r s = Some m ->
    exists pv w k, group s m n = w /\ matches f g pv w k /\ sub_of w s.
Proof.
  intros f r n g s m He H; unfold re_search in H.
  destruct (search_from_state _ _ _ _ _ _ H) as (a & l' & E & Hm).
  unfold match_here in Hm; simpl in Hm.
  assert (Ht : at_text s (MState (length a) (last_of None a) l' [])).
  { exists a; simpl; auto. }
  destruct (run_last_group _ f r n g s _ _ _ He Ht Hm)
    as (s1 & s2 & w & Hs & M & K).
  simpl in K; inversion K; subst m; clear K.
  exists (prev s1), w, (rest s2); split; [|split; [exact M|]].
  - unfold group; simpl; rewrite Nat.eqb_refl; exact Hs.
  - rewrite <- Hs; apply sub_of_slice.
Qed.

(** [m.group(0)]: what the pattern matched. *)
Lemma search_group0 :
  forall f r s m,
    re_search f r s = Some m ->
    exists pv w k, group0 s m = w /\ matches f r pv w k /\ sub_of w s.
Proof.
  intros f r s m H.
  destruct (re_search_some _ _ _ _ H) as (a & w & b & E & M & Hs & He & _).
  exists (last_of None a), w, b; split; [|split; [exact M|]].
  - unfold group0, slice; rewrite Hs, He, E.
    rewrite skipn_app, skipn_all, Nat.sub_diag; simpl.
    replace (length a + length w - length a) with (length w + 0) by lia.
    rewrite firstn_app_2; simpl; apply app_nil_r.
  - exists a, b; exact E.
Qed.

(** ** The link of an item *)

Lemma no_space_app :
  forall a b,
    forallb (fun c => negb (is_space c)) (a ++ b)
    = forallb (fun c => negb (is_space c)) a
      && forallb (fun c => negb (is_space c)) b.
Proof. intros; apply forallb_app. Qed.

Lemma plus_not_space :
  forall f pv w k,
    matches f (Plus CNotSpace) pv w k ->
    forallb (fun c => negb (is_space c)) w = true.
Proof.
  intros f pv w k M; inversion M; subst.
  apply forallb_forall; intros c Hc.
  match goal with H : all_in _ _ _ |- _ =>
    unfold all_in in H; rewrite Forall_forall in H; apply (H c Hc) end.
Qed.

(** What [url_re] matches reads as a link. *)
Lemma url_match_is_link :
  forall f pv w k, matches f url_re pv w k -> is_link w = true.
Proof.
  intros f pv w k M; unfold url_re in M; simpl in M.
  inv_matches;
    repeat match goal with
      | H : accepts _ (CChar ?x) ?c = true |- _ =>
          pose proof (atom_char_not_space f x c eq_refl H);
          apply accepts_char_lower in H
      end;
    match goal with
    | H : matches _ (Plus _) _ _ _ |- _ => apply plus_not_space in H
    end;
    unfold is_link; simpl app; simpl map; rewrite ?map_app;
    repeat match goal with H : lower _ = _ |- _ => rewrite H; clear H end;
    simpl forallb; rewrite ?no_space_app; simpl forallb;
    repeat match goal with H : is_space _ = false |- _ => rewrite H; clear H end;
    simpl; assumption.
Qed.

Lemma quote_char_no_space :
  forall c, forallb (fun x => negb (is_space x)) (quote_char c) = true.
Proof. intros c; by_cases_on_char c. Qed.

Lemma quote_plus_no_space :
  forall s, forallb (fun x => negb (is_space x)) (quote_plus s) = true.
Proof.
  induction s as [|c s IH]; [reflexivity|].
  unfold quote_plus in *; simpl.
  rewrite no_space_app, quote_char_no_space, IH; reflexivity.
Qed.

Lemma search_url_is_link : forall tp, is_link (search_url tp) = true.
Proof.
  intros tp; unfold is_link, search_url.
  rewrite no_space_app, quote_plus_no_space, map_app; reflexivity.
Qed.

Lemma is_link_strip : forall l, is_link l = true -> strip l = l.
Proof.
  intros l H; unfold is_link in H.
  apply andb_true_iff in H; destruct H as [Hs Hn].
  destruct l as [|c t]; [discriminate|].
  rewrite forallb_forall in Hn.
  apply strip_by_id.
  - apply negb_true_iff, Hn; left; reflexivity.
  - apply negb_true_iff, Hn.
    destruct (exists_last (l := c :: t)) as (l' & x & E); [discriminate|].
    rewrite E, last_last, <- E.
    rewrite E; apply in_or_app; right; left; reflexivity.
Qed.

(** The link that a parser finds in a block, if any, reads as a link. *)
Lemma primary_link_is_link :
  forall s, primary_link s = [] \/ is_link (primary_link s) = true.
Proof.
  intros s; unfold primary_link.
  destruct (re_search flag_i link_re s) as [m|] eqn:E.
  - right.
    destruct (search_last_group flag_i link_re 1 url_re s m) as
      (pv & w & k & Hg & M & _); [simpl; auto | exact E |].
    rewrite Hg.
    rewrite (is_link_strip w); apply (url_match_is_link _ _ _ _ M).
  - destruct (re_search no_flags url_re s) as [m|] eqn:E'; [|left; reflexivity].
    right.
    destruct (search_group0 _ _ _ _ E') as (pv & w & k & Hg & M & _).
    rewrite Hg; apply (url_match_is_link _ _ _ _ M).
Qed.

Lemma fallback_link_is_link :
  forall s, fallback_link s = [] \/ is_link (fallback_link s) = true.
Proof.
  intros s; unfold fallback_link.
  destruct (re_search no_flags url_re s) as [m|] eqn:E'; [|left; reflexivity].
  right.
  destruct (search_group0 _ _ _ _ E') as (pv & w & k & Hg & M & _).
  rewrite Hg; apply (url_match_is_link _ _ _ _ M).
Qed.

Lemma final_link_is_link :
  forall tp link,
    link = [] \/ is_link link = true ->
    is_link (default_link tp (fix_placeholder tp link)) = true.
Proof.
  intros tp link H.
  assert (H' : fix_placeholder tp link = []
               \/ is_link (fix_placeholder tp link) = true).
  { unfold fix_placeholder.
    destruct (contains sentinel link); [right | exact H].
    destruct (negb (is_empty tp)); [apply search_url_is_link | reflexivity]. }
  unfold default_link.
  destruct H' as [-> | H']; simpl.
  - destruct (negb (is_empty tp)); [apply search_url_is_link | reflexivity].
  - destruct (fix_placeholder tp link) as [|c t]; [discriminate|exact H'].
Qed.

(** X11: whatever the text, the [video_link] of every item returned reads as a
    link: it begins with [http], in some letter case, and has no white
    space in it. *)
Theorem video_link_reads_as_link :
  forall text0 it,
    In it (extract_days_and_questions text0) ->
    is_link (video_link it) = true.
Proof.
  intros text0 it H.
  destruct (extract_items _ _ H) as [[b Hb] | [span ->]].
  - destruct (primary_item_link _ _ Hb) as [_ ->].
    apply final_link_is_link, primary_link_is_link.
  - destruct (fallback_item_link text0 span) as [_ ->].
    apply final_link_is_link, fallback_link_is_link.
Qed.

Lemma video_link_reads_as_link_witness :
  is_link (video_link recursion_item) = true.
Proof.
  apply (video_link_reads_as_link recursion_block recursion_item).
  vm_compute; left; reflexivity.
Defined.

(** ** The topic of an item *)

Lemma sub_of_in :
  forall (t s : text) c, sub_of t s -> In c t -> In c s.
Proof.
  intros t s c (a & b & ->) H.
  apply in_or_app; right; apply in_or_app; left; exact H.
Qed.

Lemma find_topic_line :
  forall s, strip (find_topic s) = find_topic s /\ ~ In LF (find_topic s).
Proof.
  intros s; unfold find_topic.
  destruct (re_search flag_i topic_re s) as [m|] eqn:E;
    [|split; [reflexivity | intros []]].
  split; [apply strip_idem|].
  destruct (search_last_group flag_i topic_re 1 (Plus (CNoneOf [LF])) s m)
    as (pv & w & k & Hg & M & _); [simpl; auto | exact E |].
  rewrite Hg; intros Hin.
  apply (sub_of_in _ _ _ (sub_of_strip w)) in Hin.
  inversion M; subst.
  match goal with H : all_in _ _ _ |- _ =>
    unfold all_in in H; rewrite Forall_forall in H;
    specialize (H LF Hin); discriminate H end.
Qed.

(** X12: whatever the text, the [topic] of every item returned is on one line
    and has no white space at its ends. *)
Theorem topic_is_a_trimmed_line :
  forall text0 it,
    In it (extract_days_and_questions text0) ->
    strip (topic it) = topic it /\ ~ In LF (topic it).
Proof.
  intros text0 it H.
  destruct (extract_items _ _ H) as [[b Hb] | [span ->]].
  - destruct (primary_item_link _ _ Hb) as [-> _]; apply find_topic_line.
  - destruct (fallback_item_link text0 span) as [-> _]; apply find_topic_line.
Qed.

Lemma topic_is_a_trimmed_line_witness :
  strip (topic recursion_item) = topic recursion_item /\
  ~ In LF (topic recursion_item).
Proof.
  apply (topic_is_a_trimmed_line recursion_block recursion_item).
  vm_compute; left; reflexivity.
Defined.

(** ** The questions of an item *)

(** A pattern anchored with [^], without [MULTILINE], has no match after
    the start of the subject. *)
Lemma scan_bol_later :
  forall f r l n c k,
    multiline f = false -> scan f (Seq Bol r) n (Some c) l k = [].
Proof.
  intros f r l; induction l as [|d t IH]; intros n c k Hm.
  - destruct k; [|reflexivity].
    pose proof (bol_only_at_start f r [] n c Hm) as Hn; simpl in Hn.
    simpl; destruct (match_here f (Seq Bol r) (MState n (Some c) [] []));
      [discriminate | reflexivity].
  - destruct k; [|simpl; apply IH; exact Hm].
    pose proof (bol_only_at_start f r (d :: t) n c Hm) as Hn; simpl in Hn.
    simpl; destruct (match_here f (Seq Bol r) (MState n (Some c) (d :: t) []));
      [discriminate | apply IH; exact Hm].
Qed.

(** Removing the numbering of a line removes a prefix of it. *)
Lemma numbering_sub_suffix :
  forall l, exists a, l = a ++ re_sub no_flags numbering_re erase l.
Proof.
  intros l; unfold re_sub, re_finditer, numbering_re.
  destruct l as [|c t].
  - exists []; reflexivity.
  - unfold scan; fold scan.
    destruct (match_here _ _ _) as [m|] eqn:E.
    + rewrite scan_bol_later by reflexivity.
      destruct (match_here_sound _ _ _ _ E) as (w & k & _ & _ & Hs & _).
      simpl in Hs; unfold replace_spans, erase; rewrite Hs; simpl app.
      rewrite Nat.sub_0_r.
      exists (firstn (m_end m) (c :: t)); symmetry; apply firstn_skipn.
    + rewrite scan_bol_later by reflexivity.
      exists []; reflexivity.
Qed.

Lemma question_lines_in :
  forall lns q,
    In q (question_lines lns) ->
    q <> [] /\
    exists ln a,
      In ln lns /\ strip_chars [SP; "-"%char; TAB] ln = a ++ q.
Proof.
  induction lns as [|ln lns IH]; intros q H; [destruct H|].
  rewrite question_lines_cons in H.
  destruct (numbering_sub_suffix (strip_chars [SP; "-"%char; TAB] ln))
    as [a Ha].
  destruct (re_sub no_flags numbering_re erase _) as [|c t] eqn:E;
    simpl in H.
  - destruct (IH q H) as (Hq & ln' & a' & Hin & Hs).
    split; [exact Hq|]; exists ln', a'; split; [right; exact Hin | exact Hs].
  - destruct H as [<- | H].
    + split; [discriminate|]; exists ln, a; split; [left; reflexivity | exact Ha].
    + destruct (IH q H) as (Hq & ln' & a' & Hin & Hs).
      split; [exact Hq|]; exists ln', a'; split; [right; exact Hin | exact Hs].
Qed.

Lemma last_of_suffix :
  forall (a q : text) d, q <> [] -> last (a ++ q) d = last q d.
Proof.
  intros a q d Hq; induction a as [|x a IH]; [reflexivity|].
  simpl; destruct (a ++ q) eqn:E; [|exact IH].
  apply app_eq_nil in E; destruct E; contradiction.
Qed.

Lemma line_question_shape :
  forall lns q,
    Forall one_line lns -> In q (question_lines lns) ->
    q <> [] /\ one_line q /\
    mem_char (last q SP) [SP; "-"%char; TAB] = false.
Proof.
  intros lns q Hone H.
  destruct (question_lines_in lns q H) as (Hq & ln & a & Hin & Hs).
  split; [exact Hq|].
  rewrite Forall_forall in Hone; specialize (Hone ln Hin).
  split.
  - apply Forall_forall; intros c Hc.
    unfold one_line in Hone; rewrite Forall_forall in Hone; apply Hone.
    apply (sub_of_in _ _ _
             (sub_of_strip_by (fun c => mem_char c [SP; "-"%char; TAB]) ln)).
    unfold strip_chars in Hs; rewrite Hs; apply in_or_app; right; exact Hc.
  - rewrite <- (last_of_suffix a q SP Hq), <- Hs.
    unfold strip_chars, strip_by.
    apply (rstrip_trimmed_end
             (fun c => mem_char c [SP; "-"%char; TAB]) _ SP).
    intros En; unfold strip_chars, strip_by in Hs; rewrite En in Hs.
    symmetry in Hs; apply app_eq_nil in Hs; destruct Hs; contradiction.
Qed.

Lemma In_firstn :
  forall (A : Type) n (l : list A) x, In x (firstn n l) -> In x l.
Proof.
  intros A n l x H; rewrite <- (firstn_skipn n l).
  apply in_or_app; left; exact H.
Qed.

(** X13: whatever the text, every question of every item returned is not
    empty, is on one line, and does not end with a space, a dash or a
    tab. *)
Theorem questions_are_clean_lines :
  forall text0 it q,
    In it (extract_days_and_questions text0) ->
    In q (questions it) ->
    q <> [] /\ one_line q /\
    mem_char (last q SP) [SP; "-"%char; TAB] = false.
Proof.
  intros text0 it q H Hq.
  destruct (extract_items _ _ H) as [[b Hb] | [span ->]].
  - rewrite (primary_item_questions _ _ Hb) in Hq.
    apply In_firstn in Hq; unfold primary_questions in Hq.
    destruct (primary_section _) as [q_text|]; [|destruct Hq].
    apply (line_question_shape (splitlines q_text));
      [apply splitlines_one_line | exact Hq].
  - rewrite fallback_item_questions in Hq.
    apply In_firstn in Hq; unfold fallback_questions in Hq.
    destruct (fallback_section _) as [q_text|]; [|destruct Hq].
    apply (line_question_shape (splitlines q_text));
      [apply splitlines_one_line | exact Hq].
Qed.

Lemma questions_are_clean_lines_witness :
  lit "What is a base case?" <> [] /\
  one_line (lit "What is a base case?") /\
  mem_char (last (lit "What is a base case?") SP) [SP; "-"%char; TAB] = false.
Proof.
  apply (questions_are_clean_lines recursion_block recursion_item
           (lit "What is a base case?"));
    vm_compute; left; reflexivity.
Defined.

(** ** The title of an item *)

Lemma spans_ok_weaken :
  forall f r t ms lo lo',
    lo' <= lo -> spans_ok f r t lo ms -> spans_ok f r t lo' ms.
Proof.
  intros f r t [|m ms] lo lo' H Hs; [exact I|].
  destruct Hs as (H1 & H2 & H3); repeat split; auto; lia.
Qed.

(** The matches that [scan] returns are matches of the relation, in
    order and apart. *)
Lemma scan_spans :
  forall f r t l n pv skip pre,
    t = pre ++ l -> length pre = n -> pv = last_of None pre ->
    spans_ok f r t (n + skip) (scan f r n pv l skip).
Proof.
  intros f r t l; induction l as [|c l' IH]; intros n pv skip pre Et Hn Hpv.
  - destruct skip; simpl; [|exact I].
    destruct (match_here f r (MState n pv [] [])) as [m|] eqn:E; [|exact I].
    destruct (match_here_sound _ _ _ _ E) as (w & k & Er & M & Hs & He).
    simpl in *.
    symmetry in Er; apply app_eq_nil in Er; destruct Er; subst w k.
    repeat split; auto; [lia|].
    exists pre, [], []; simpl in *; repeat split; auto; try lia.
    subst pv; exact M.
  - assert (Et' : t = (pre ++ [c]) ++ l')
      by (rewrite <- app_assoc; exact Et).
    assert (Hn' : length (pre ++ [c]) = S n)
      by (rewrite length_app; simpl; lia).
    assert (Hpv' : Some c = last_of None (pre ++ [c]))
      by (rewrite last_of_snoc; reflexivity).
    destruct skip as [|skip].
    + simpl.
      destruct (match_here f r (MState n pv (c :: l') [])) as [m|] eqn:E.
      * destruct (match_here_sound _ _ _ _ E) as (w & k & Er & M & Hs & He).
        simpl in *.
        split; [lia|]; split.
        -- exists pre, w, k; repeat split; auto; try lia.
           ++ rewrite Et, Er; reflexivity.
           ++ subst pv; exact M.
        -- pose proof (IH (S n) (Some c) (m_end m - n - 1) _ Et' Hn' Hpv')
             as Hi.
           eapply spans_ok_weaken; [|exact Hi]; lia.
      * pose proof (IH (S n) (Some c) 0 _ Et' Hn' Hpv') as Hi.
        eapply spans_ok_weaken; [|exact Hi]; lia.
    + simpl.
      pose proof (IH (S n) (Some c) skip _ Et' Hn' Hpv') as Hi.
      eapply spans_ok_weaken; [|exact Hi]; lia.
Qed.

Lemma finditer_spans :
  forall f r t, spans_ok f r t 0 (re_finditer f r t).
Proof.
  intros f r t; unfold re_finditer.
  apply (scan_spans f r t t 0 None 0 []); reflexivity.
Qed.

(** A block of the fallback parser starts with a match of the header
    pattern and holds all of it. *)
Lemma block_spans_hold_match :
  forall f r t ms lo span,
    spans_ok f r t lo ms ->
    In span (block_spans ms (length t)) ->
    exists a w k more,
      t = a ++ w ++ k /\ matches f r (last_of None a) w k /\
      slice (fst span) (snd span) t = w ++ more.
Proof.
  intros f r t ms; induction ms as [|m ms IH]; intros lo span Hs Hin;
    [destruct Hin|].
  destruct Hs as (_ & (a & w & k & Et & M & Hst & Hen) & Hrest).
  destruct Hin as [<- | Hin]; [|apply (IH _ _ Hrest Hin)].
  simpl fst; simpl snd.
  assert (Hend : m_end m <= match ms with
                            | m' :: _ => m_start m'
                            | [] => length t
                            end).
  { destruct ms as [|m' ms'].
    - rewrite Et, !length_app; lia.
    - destruct Hrest as (Hlo & _); lia. }
  set (e := match ms with m' :: _ => m_start m' | [] => length t end) in *.
  exists a, w, k, (firstn (e - m_end m) k); repeat split; auto.
  unfold slice; rewrite Hst, Et.
  rewrite skipn_app, skipn_all, Nat.sub_diag; simpl.
  replace (e - length a) with (length w + (e - m_end m)) by lia.
  rewrite firstn_app_2; reflexivity.
Qed.

Lemma lookup_cap_skip :
  forall n new sp cp,
    Forall (fun e : nat * (nat * nat) => fst e <> n) new ->
    lookup_cap n (new ++ (n, sp) :: cp) = Some sp.
Proof.
  induction new as [|[k s] new IH]; intros sp cp H; simpl.
  - rewrite Nat.eqb_refl; reflexivity.
  - inversion H as [|? ? Hk Hn]; subst; simpl in Hk.
    destruct (Nat.eqb_spec k n); [contradiction | apply IH; exact Hn].
Qed.

(** [m.group(n)] for a pattern [r0 (g) r2] in which group [n] is not
    opened again after [g]: what [g] matched, after what [r0] matched. *)
Lemma match_group_mid :
  forall f r0 n g r2 t s m,
    at_text t s -> ~ In n (group_ids r2) ->
    match_here f (Seq r0 (Seq (Group n g) r2)) s = Some m ->
    exists w0 w k,
      rest s = w0 ++ w ++ k /\
      matches f r0 (prev s) w0 (w ++ k) /\
      matches f g (last_of (prev s) w0) w k /\
      group t m n = w.
Proof.
  intros f r0 n g r2 t s m Ht Hn H; unfold match_here in H; simpl in H.
  assert (Ht0 : at_text t (MState (pos s) (prev s) (rest s) []))
    by exact Ht.
  destruct (run_sound _ _ _ _ _ _ H) as (w0 & s1 & E1 & P1 & V1 & M1 & K1).
  destruct (at_text_step _ _ _ _ Ht0 E1 P1) as [Ht1 _].
  destruct (run_sound _ _ _ _ _ _ K1) as (w & s2 & E2 & P2 & V2 & M2 & K2).
  destruct (at_text_step _ _ _ _ Ht1 E2 P2) as [Ht2 Hs].
  destruct (run_sound_caps _ _ _ _ _ _ K2)
    as (w3 & s3 & E3 & P3 & V3 & M3 & K3 & new & C3 & G3).
  simpl in *; inversion K3; subst m; clear K3.
  exists w0, w, (rest s2); repeat split.
  - rewrite E1, E2; reflexivity.
  - rewrite <- E2; exact M1.
  - rewrite <- V1; exact M2.
  - unfold group; simpl; rewrite C3, lookup_cap_skip; [exact Hs|].
    eapply Forall_impl; [|exact G3].
    intros e He E; apply Hn; rewrite <- E; exact He.
Qed.

Lemma starts_with_day_inv :
  forall s,
    starts_with_day s = true ->
    exists d a y t,
      s = d :: a :: y :: t /\
      lower d = "d"%char /\ lower a = "a"%char /\ lower y = "y"%char.
Proof.
  intros s H; unfold starts_with_day in H.
  apply startswith_spec in H; destruct H as [b Hb].
  destruct s as [|d [|a [|y t]]]; try discriminate.
  simpl in Hb; inversion Hb.
  exists d, a, y, t; auto.
Qed.

Lemma starts_with_day_intro :
  forall d a y t,
    lower d = "d"%char -> lower a = "a"%char -> lower y = "y"%char ->
    starts_with_day (d :: a :: y :: t) = true.
Proof.
  intros d a y t Hd Ha Hy; unfold starts_with_day; simpl map.
  rewrite Hd, Ha, Hy; reflexivity.
Qed.

Lemma lower_letter_not_space :
  forall c x,
    lower c = x -> is_space x = false -> is_upper x = false ->
    is_space c = false.
Proof.
  intros c x <- Hs _.
  destruct (is_space c) eqn:E; [|reflexivity].
  rewrite (lower_of_space c E) in Hs; congruence.
Qed.

Lemma rstrip_keeps_head :
  forall p a x b,
    p x = false -> exists t, rstrip_by p ((a ++ [x]) ++ b) = (a ++ [x]) ++ t.
Proof.
  intros p a x b Hx.
  destruct (rstrip_by p b) as [|c t] eqn:E.
  - apply rstrip_nil in E.
    exists []; rewrite rstrip_drop by exact E.
    rewrite app_nil_r; apply rstrip_by_snoc; exact Hx.
  - exists (c :: t); rewrite rstrip_keep by (rewrite E; discriminate).
    rewrite E; reflexivity.
Qed.

Lemma starts_with_day_strip :
  forall s, starts_with_day s = true -> starts_with_day (strip s) = true.
Proof.
  intros s H.
  destruct (starts_with_day_inv s H) as (d & a & y & t & -> & Hd & Ha & Hy).
  assert (Sd : is_space d = false)
    by (apply (lower_letter_not_space d _ Hd); reflexivity).
  assert (Sy : is_space y = false)
    by (apply (lower_letter_not_space y _ Hy); reflexivity).
  unfold strip, strip_by, lstrip_by; simpl dropwhile; rewrite Sd.
  destruct (rstrip_keeps_head is_space [d; a] y t Sy) as [t' E].
  simpl in E; rewrite E.
  apply starts_with_day_intro; assumption.
Qed.

Lemma starts_with_day_app :
  forall s b, starts_with_day s = true -> starts_with_day (s ++ b) = true.
Proof.
  intros s b H.
  destruct (starts_with_day_inv s H) as (d & a & y & t & -> & Hd & Ha & Hy).
  apply starts_with_day_intro; assumption.
Qed.

Lemma first_line_head :
  forall c t,
    is_linebreak c = false ->
    hd [] (lines_from false (c :: t)) = c :: hd [] (lines_from false t).
Proof.
  intros c t H; simpl; rewrite H.
  destruct (lines_from false t); reflexivity.
Qed.

Lemma not_space_not_linebreak :
  forall c, is_space c = false -> is_linebreak c = false.
Proof.
  intros c H; destruct (is_linebreak c) eqn:E; [|reflexivity].
  rewrite (linebreak_is_space c E) in H; discriminate.
Qed.

Lemma starts_with_day_first_line :
  forall s,
    starts_with_day s = true ->
    starts_with_day (hd [] (splitlines s)) = true.
Proof.
  intros s H.
  destruct (starts_with_day_inv s H) as (d & a & y & t & -> & Hd & Ha & Hy).
  unfold splitlines.
  rewrite !first_line_head
    by (apply not_space_not_linebreak;
        eapply lower_letter_not_space; eauto).
  apply starts_with_day_intro; assumption.
Qed.

Lemma before_first_head :
  forall sep c t,
    startswith sep (c :: t) = false ->
    before_first sep (c :: t) = c :: before_first sep t.
Proof. intros sep c t H; simpl before_first; rewrite H; reflexivity. Qed.

Lemma not_capital_t :
  forall c x t,
    lower c = x -> x <> "t"%char ->
    startswith (lit "Topic:") (c :: t) = false.
Proof.
  intros c x t Hc Hx.
  change (ascii_eqb "T"%char c && startswith (lit "opic:") t = false).
  destruct (ascii_eqb "T" c) eqn:E; [|reflexivity].
  apply ascii_eqb_eq in E; subst c; vm_compute in Hc.
  exfalso; apply Hx; symmetry; exact Hc.
Qed.

Lemma starts_with_day_before_topic :
  forall s,
    starts_with_day s = true ->
    starts_with_day (before_first (lit "Topic:") s) = true.
Proof.
  intros s H.
  destruct (starts_with_day_inv s H) as (d & a & y & t & -> & Hd & Ha & Hy).
  rewrite !before_first_head
    by (eapply not_capital_t; [eassumption | discriminate]).
  apply starts_with_day_intro; assumption.
Qed.

(** What [day_core] matches begins with [Day]. *)
Lemma day_core_starts_with_day :
  forall f pv w k, matches f day_core pv w k -> starts_with_day w = true.
Proof.
  intros f pv w k M; unfold day_core in M; simpl in M.
  inv_matches; lower_chars; simpl.
  apply starts_with_day_intro; assumption.
Qed.

Lemma primary_title_day :
  forall block, starts_with_day (primary_title block) = true.
Proof.
  intros block; unfold primary_title.
  destruct (re_match flag_i title_re block) as [m|] eqn:E; [|reflexivity].
  unfold re_match, title_re in E.
  destruct (match_group_mid flag_i Bol 1 (Seq day_core (Star CSpace))
              (Seq (Group 2 (Star CAny)) Eol) block (start_state block) m)
    as (w0 & w & k & _ & _ & M & ->).
  - exists []; split; reflexivity.
  - simpl; intros [H | []]; discriminate.
  - exact E.
  - apply starts_with_day_strip.
    inversion M; subst.
    apply starts_with_day_app.
    eapply day_core_starts_with_day; eassumption.
Qed.

(** What [header_re] matches is white space followed by [Day]. *)
Lemma header_match_shape :
  forall f pv w k,
    matches f header_re pv w k ->
    exists ws s, w = ws ++ s /\ all_space ws /\ starts_with_day s = true.
Proof.
  intros f pv w k M; unfold header_re in M.
  inversion M as [| |? ? ? w1 w2 ? M1 M2| | | | | | | | | | |]; subst.
  clear M; inversion M1; subst; clear M1.
  inversion M2 as [| |? ? ? ws w3 ? M3 M4| | | | | | | | | | |]; subst.
  clear M2; inversion M3; subst; clear M3.
  inversion M4 as [| |? ? ? w5 w6 ? M5 M6| | | | | | | | | | |]; subst.
  clear M4 M6; simpl in M5; inv_matches; lower_chars.
  exists ws; eexists; split; [reflexivity|]; split.
  - match goal with H : all_in _ CSpace _ |- _ => exact H end.
  - simpl; apply starts_with_day_intro; assumption.
Qed.

Lemma strip_after_space :
  forall ws s, all_space ws -> strip (ws ++ s) = strip s.
Proof.
  intros ws s H; unfold strip, strip_by, lstrip_by.
  rewrite (dropwhile_all is_space ws s H); reflexivity.
Qed.

Lemma fallback_title_day :
  forall text0 span,
    In span (block_spans (header_matches text0) (length text0)) ->
    starts_with_day (day_title (fallback_item text0 span)) = true.
Proof.
  intros text0 span Hin.
  destruct (block_spans_hold_match flag_im header_re text0 _ 0 span
              (finditer_spans _ _ _) Hin)
    as (a & w & k & more & _ & M & Hs).
  destruct (header_match_shape _ _ _ _ M) as (ws & s & -> & Hws & Hd).
  assert (Hb : starts_with_day (fallback_block text0 span) = true).
  { unfold fallback_block; rewrite Hs, <- app_assoc.
    rewrite (strip_after_space ws _ Hws).
    apply starts_with_day_strip, starts_with_day_app; exact Hd. }
  unfold fallback_item; simpl day_title.
  destruct (fallback_block text0 span) as [|c t] eqn:Eb; [discriminate|].
  simpl is_empty; cbv iota.
  assert (Ht : starts_with_day
                 (strip (before_first (lit "Topic:")
                           (hd [] (splitlines (c :: t))))) = true).
  { apply starts_with_day_strip, starts_with_day_before_topic,
      starts_with_day_first_line; exact Hb. }
  destruct (strip _) as [|x u]; [discriminate | exact Ht].
Qed.

Lemma extract_items_spans :
  forall text0 it,
    In it (extract_days_and_questions text0) ->
    (exists b, primary_item b = Some it) \/
    (exists span,
       In span (block_spans (header_matches text0) (length text0)) /\
       it = fallback_item text0 span).
Proof.
  intros text0 it H; unfold extract_days_and_questions in H.
  destruct (is_empty text0); [contradiction|].
  destruct (primary text0) as [|i0 is0] eqn:E.
  - right; unfold fallback in H; apply in_map_iff in H.
    destruct H as (span & Hs & Hi); exists span; auto.
  - left; rewrite <- E in H; unfold primary in H.
    destruct (primary_items_in _ _ H) as (b & _ & Hb); eauto.
Qed.

(** X14: whatever the text, the [day_title] of every item returned begins
    with [Day], in some letter case: the header the parser found, or the
    default title. *)
Theorem day_title_starts_with_day :
  forall text0 it,
    In it (extract_days_and_questions text0) ->
    starts_with_day (day_title it) = true.
Proof.
  intros text0 it H.
  destruct (extract_items_spans _ _ H) as [[b Hb] | (span & Hs & ->)].
  - unfold primary_item in Hb.
    destruct (_ || _); [discriminate|].
    inversion Hb; subst it; simpl; apply primary_title_day.
  - apply fallback_title_day; exact Hs.
Qed.

Lemma day_title_starts_with_day_witness :
  starts_with_day (day_title no_topic_item) = true.
Proof.
  apply (day_title_starts_with_day no_topic_block no_topic_item).
  vm_compute; left; reflexivity.
Defined.

(** ** Texts without the word [Day] *)

Lemma starts_with_day_contains :
  forall w, starts_with_day w = true -> contains_ci (lit "day") w = true.
Proof.
  intros w H; unfold starts_with_day in H; unfold contains_ci.
  apply startswith_spec in H; destruct H as [b Hb].
  apply contains_spec; exists [], b; exact Hb.
Qed.

Lemma day_core_has_day :
  forall f pv w k,
    matches f day_core pv w k -> contains_ci (lit "day") w = true.
Proof.
  intros f pv w k M.
  apply starts_with_day_contains, (day_core_starts_with_day _ _ _ _ M).
Qed.

Lemma canon_match_has_day :
  forall f pv w k,
    matches f canon_re pv w k -> contains_ci (lit "day") w = true.
Proof.
  intros f pv w k M; unfold canon_re in M.
  inversion M as [| |? ? ? w1 w2 ? M1 M2| | | | | | | | | | |]; subst.
  inversion M2; subst.
  apply (contains_ci_sub _ w2); [exists w1, []; rewrite app_nil_r; auto|].
  eapply day_core_has_day; eassumption.
Qed.

Lemma split_match_has_day :
  forall f pv w k,
    matches f split_re pv w k -> contains_ci (lit "day") k = true.
Proof.
  intros f pv w k M; unfold split_re in M.
  inversion M as [| |? ? ? w1 w2 ? M1 M2| | | | | | | | | | |]; subst.
  inversion M2 as [| | | | | | | | | | |? ? w3 k3 M3| |]; subst.
  inversion M3 as [| |? ? ? w4 w5 ? M4 M5| | | | | | | | | | |]; subst.
  apply (contains_ci_sub _ w5).
  - exists w4, k3; rewrite <- app_assoc; reflexivity.
  - eapply day_core_has_day; eassumption.
Qed.

Lemma block_head_has_day :
  forall f pv w k,
    matches f block_head_re pv w k -> contains_ci (lit "day") w = true.
Proof.
  intros f pv w k M; unfold block_head_re in M.
  inversion M as [| |? ? ? w1 w2 ? M1 M2| | | | | | | | | | |]; subst.
  apply (contains_ci_sub _ w2); [exists w1, []; rewrite app_nil_r; auto|].
  eapply day_core_has_day; eassumption.
Qed.

Lemma header_match_has_day :
  forall f pv w k,
    matches f header_re pv w k -> contains_ci (lit "day") w = true.
Proof.
  intros f pv w k M.
  destruct (header_match_shape _ _ _ _ M) as (ws & s & -> & _ & Hd).
  apply (contains_ci_sub _ s); [exists ws, []; rewrite app_nil_r; auto|].
  apply starts_with_day_contains; exact Hd.
Qed.

Lemma no_match_without_day :
  forall f r s,
    (forall pv w k, matches f r pv w k ->
                    contains_ci (lit "day") (w ++ k) = true) ->
    contains_ci (lit "day") s = false ->
    re_search f r s = None.
Proof.
  intros f r s Hr Hs; apply re_search_none.
  intros (a & w & b & E & M).
  rewrite (contains_ci_sub (lit "day") (w ++ b) s) in Hs;
    [discriminate | exists a, []; rewrite app_nil_r; exact E | ].
  apply (Hr _ _ _ M).
Qed.

Lemma contains_ci_left :
  forall p w k, contains_ci p w = true -> contains_ci p (w ++ k) = true.
Proof.
  intros p w k H; apply (contains_ci_sub p w); [|exact H].
  exists [], k; reflexivity.
Qed.

Lemma contains_ci_right :
  forall p w k, contains_ci p k = true -> contains_ci p (w ++ k) = true.
Proof.
  intros p w k H; apply (contains_ci_sub p k); [|exact H].
  exists w, []; rewrite app_nil_r; reflexivity.
Qed.

Lemma finditer_no_match :
  forall f r s, re_search f r s = None -> re_finditer f r s = [].
Proof. intros f r s H; unfold re_finditer; apply scan_nil; exact H. Qed.

(** X15: a text in which [day] does not occur, in any letter case, has no
    day: neither parser returns an item for it. *)
Theorem no_day_no_items :
  forall text0,
    contains_ci (lit "day") text0 = false ->
    extract_days_and_questions text0 = [].
Proof.
  intros text0 H; unfold extract_days_and_questions.
  destruct (is_empty text0); [reflexivity|].
  assert (Hp : primary text0 = []).
  { unfold primary, day_blocks.
    rewrite (re_sub_no_match flag_i canon_re canon_repl text0)
      by (apply no_match_without_day; [|exact H];
          intros pv w k M; apply contains_ci_left;
          apply (canon_match_has_day _ _ _ _ M)).
    unfold re_split.
    rewrite finditer_no_match
      by (apply no_match_without_day; [|exact H];
          intros pv w k M; apply contains_ci_right;
          apply (split_match_has_day _ _ _ _ M)).
    simpl; unfold primary_item.
    destruct (is_empty (strip text0)); [reflexivity|].
    destruct (re_match flag_i block_head_re (strip text0)) as [m|] eqn:E;
      [|reflexivity].
    exfalso.
    destruct (match_here_sound _ _ _ _ E) as (w & k & Er & M & _).
    simpl in Er, M.
    rewrite (contains_ci_sub (lit "day") w text0) in H; [discriminate| |].
    - apply (sub_of_trans _ (strip text0)); [|apply sub_of_strip].
      exists [], k; exact Er.
    - apply (block_head_has_day _ _ _ _ M). }
  rewrite Hp; unfold fallback, header_matches.
  rewrite finditer_no_match; [reflexivity|].
  apply no_match_without_day; [|exact H].
  intros pv w k M; apply contains_ci_left.
  apply (header_match_has_day _ _ _ _ M).
Qed.

Lemma no_day_no_items_witness :
  extract_days_and_questions (lit "Week 1: Intro") = [].
Proof. apply (no_day_no_items (lit "Week 1: Intro")); reflexivity. Defined.

(** * Properties of the PDF export *)

Lemma replace_spans_shift :
  forall f r t repl ms n c l,
    spans_ok f r t (S n) ms ->
    replace_spans repl ms n (c :: l) = c :: replace_spans repl ms (S n) l.
Proof.
  intros f r t repl [|m ms] n c l H; [reflexivity|].
  destruct H as (Hlo & (a & w & k & _ & _ & Hs & He) & _).
  simpl replace_spans.
  replace (m_start m - n) with (S (m_start m - S n)) by lia.
  replace (m_end m - n) with (S (m_end m - S n)) by lia.
  reflexivity.
Qed.

Lemma scan_cons :
  forall f r n pv c t,
    scan f r n pv (c :: t) 0
    = match match_here f r (MState n pv (c :: t) []) with
      | Some m => m :: scan f r (S n) (Some c) t (m_end m - n - 1)
      | None => scan f r (S n) (Some c) t 0
      end.
Proof. reflexivity. Qed.

(** A repeated class at a position: the whole run of the class. *)
Lemma match_here_plus :
  forall f a n pv c w l',
    accepts f a c = true ->
    Forall (fun x => accepts f a x = true) w ->
    match l' with [] => True | x :: _ => accepts f a x = false end ->
    match_here f (Plus a) (MState n pv (c :: w ++ l') [])
    = Some (RMatch n (S n + length w) []).
Proof.
  intros f a n pv c w l' Hc Hw Hl.
  unfold match_here; simpl run; unfold step; simpl; rewrite Hc.
  unfold on_state; simpl.
  apply star_greedy_max; auto.
Qed.

Lemma match_here_plus_none :
  forall f a n pv c t,
    accepts f a c = false ->
    match_here f (Plus a) (MState n pv (c :: t) []) = None.
Proof.
  intros f a n pv c t Hc.
  unfold match_here; simpl run; unfold step; simpl; rewrite Hc; reflexivity.
Qed.

(** [re.sub] of a repeated class by a text that the class rejects: no
    character of the class is left, and a subject that is not empty gives
    a result that is not empty. *)
Lemma sub_class_clears :
  forall f a repl u,
    (forall m, repl m = u) -> u <> [] ->
    Forall (fun c => accepts f a c = false) u ->
    forall n l pre,
      length l <= n ->
      let r := replace_spans repl
                 (scan f (Plus a) (length pre) (last_of None pre) l 0)
                 (length pre) l in
      Forall (fun c => accepts f a c = false) r /\ (l <> [] -> r <> []).
Proof.
  intros f a repl u Hrepl Hu Hsafe n.
  induction n as [|n IH]; intros l pre Hlen r.
  - destruct l; [|simpl in Hlen; lia].
    split; [constructor | intros H; contradiction].
  - destruct l as [|c t]; [split; [constructor | intros H; contradiction]|].
    simpl in Hlen.
    destruct (accepts f a c) eqn:Hc.
    + destruct (dropwhile_split (accepts f a) t) as (w & Et & Hw).
      pose proof (dropwhile_head (accepts f a) t) as Hh.
      set (l' := dropwhile (accepts f a) t) in *.
      assert (Hl' : length l' <= n).
      { rewrite Et, length_app in Hlen; lia. }
      destruct (IH l' (pre ++ c :: w) Hl') as [H1 _].
      rewrite length_app, last_of_app in H1; simpl in H1.
      assert (Er : r = u ++ replace_spans repl
                           (scan f (Plus a) (length pre + S (length w))
                              (last_of (Some c) w) l' 0)
                           (length pre + S (length w)) l').
      { unfold r; rewrite Et, scan_cons.
        rewrite (match_here_plus f a _ _ c w l' Hc Hw Hh).
        cbv [m_end m_start].
        replace (S (length pre) + length w - length pre - 1)
          with (length w) by lia.
        rewrite scan_skip.
        unfold replace_spans; fold replace_spans.
        cbv [m_end m_start].
        rewrite Hrepl, Nat.sub_diag.
        replace (S (length pre) + length w - length pre)
          with (S (length w)) by lia.
        replace (S (length pre) + length w)
          with (length pre + S (length w)) by lia.
        change (skipn (S (length w)) (c :: w ++ l'))
          with (skipn (length w) (w ++ l')).
        rewrite skipn_app, skipn_all, Nat.sub_diag; reflexivity. }
      rewrite Er; split.
      * apply Forall_app; split; [exact Hsafe | exact H1].
      * intros _ E; apply app_eq_nil in E; destruct E; contradiction.
    + assert (Hl' : length t <= n) by lia.
      destruct (IH t (pre ++ [c]) Hl') as [H1 _].
      rewrite length_app, last_of_snoc in H1; simpl in H1.
      rewrite Nat.add_1_r in H1.
      assert (Er : r = c :: replace_spans repl
                            (scan f (Plus a) (S (length pre)) (Some c) t 0)
                            (S (length pre)) t).
      { unfold r; rewrite scan_cons, (match_here_plus_none f a _ _ c t Hc).
        apply (replace_spans_shift f (Plus a) ((pre ++ [c]) ++ t)).
        replace (S (length pre)) with (length (pre ++ [c]) + 0) at 1
          by (rewrite length_app; simpl; lia).
        replace (S (length pre)) with (length (pre ++ [c]))
          by (rewrite length_app; simpl; lia).
        apply (scan_spans f (Plus a) _ t _ _ 0 (pre ++ [c]));
          [reflexivity | reflexivity | rewrite last_of_snoc; reflexivity]. }
      rewrite Er; split; [constructor; [exact Hc | exact H1] | discriminate].
Qed.

Lemma unsafe_accepts :
  forall c, accepts no_flags (CNoneOf safe_chars) c = negb (is_safe c).
Proof. reflexivity. Qed.

Lemma or_default_nonempty :
  forall t d, d <> [] -> or_default t d <> [].
Proof. intros [|c t] d H; simpl; [exact H | discriminate]. Qed.

Lemma safe_title_shape :
  forall title,
    Forall (fun c => is_safe c = true) (safe_title title) /\
    safe_title title <> [].
Proof.
  intros title; unfold safe_title, re_sub, re_finditer.
  destruct (sub_class_clears no_flags (CNoneOf safe_chars)
              (underscore (or_default title (lit "learning_path")))
              (lit "_") (fun _ => eq_refl) ltac:(discriminate)
              ltac:(repeat constructor)
              (length (or_default title (lit "learning_path")))
              (or_default title (lit "learning_path")) [] (le_n _))
    as [H1 H2].
  split.
  - eapply Forall_impl; [|exact H1].
    intros c Hc; change (negb (is_safe c) = false) in Hc.
    apply negb_false_iff; exact Hc.
  - apply H2, or_default_nonempty; discriminate.
Qed.

Lemma safe_title_chars :
  forall title,
    safe_title title <> [] /\ forallb is_safe (safe_title title) = true.
Proof.
  intros title; destruct (safe_title_shape title) as [H1 H2].
  split; [exact H2|].
  apply forallb_forall; rewrite Forall_forall in H1; exact H1.
Qed.

Lemma safe_not_separator :
  forall c, is_safe c = true ->
            ascii_eqb "/"%char c = false /\ ascii_eqb "."%char c = false /\
            is_space c = false.
Proof. intros c; by_cases_on_char c. Qed.

(** X16: whatever the title, the name made from it is not empty and has only
    letters, digits, underscores and dashes: no path separator, no dot
    and no white space is in it. *)
Theorem safe_title_is_safe :
  forall title,
    safe_title title <> [] /\
    forallb is_safe (safe_title title) = true /\
    ~ In "/"%char (safe_title title) /\
    ~ In "."%char (safe_title title) /\
    forallb (fun c => negb (is_space c)) (safe_title title) = true.
Proof.
  intros title; destruct (safe_title_chars title) as [H1 H2].
  assert (Hall : forall x, In x (safe_title title) -> is_safe x = true)
    by (apply forallb_forall; exact H2).
  repeat split; auto.
  - intros Hin; destruct (safe_not_separator _ (Hall _ Hin)) as (H & _).
    discriminate.
  - intros Hin; destruct (safe_not_separator _ (Hall _ Hin)) as (_ & H & _).
    discriminate.
  - apply forallb_forall; intros x Hin.
    destruct (safe_not_separator _ (Hall _ Hin)) as (_ & _ & H).
    rewrite H; reflexivity.
Qed.

Lemma safe_text_unchanged :
  forall s,
    forallb is_safe s = true ->
    re_sub no_flags unsafe_re underscore s = s.
Proof.
  intros s Hs; apply re_sub_no_match, re_search_none.
  intros (a & w & b & E & M); unfold unsafe_re in M.
  inversion M as [| | | | | |? ? ? ? Hw Ha | | | | | | |]; subst.
  destruct w as [|c w]; [contradiction|].
  inversion Ha as [|? ? Hc _]; subst.
  change (negb (is_safe c) = true) in Hc.
  rewrite forallb_forall in Hs.
  rewrite (Hs c) in Hc; [discriminate|].
  apply in_or_app; right; left; reflexivity.
Qed.

(** X17: a title that is not empty and has only letters, digits, underscores
    and dashes is kept as it is; and making a name from a name changes
    nothing. *)
Theorem safe_title_fixed :
  (forall title,
     title <> [] -> forallb is_safe title = true ->
     safe_title title = title) /\
  (forall title, safe_title (safe_title title) = safe_title title).
Proof.
  assert (H : forall title,
             title <> [] -> forallb is_safe title = true ->
             safe_title title = title).
  { intros title Hn Hs; unfold safe_title.
    destruct title as [|c t]; [contradiction|].
    apply safe_text_unchanged; exact Hs. }
  split; [exact H|].
  intros title; destruct (safe_title_chars title) as [H1 H2].
  apply H; assumption.
Qed.

Lemma safe_title_fixed_witness :
  safe_title (lit "Learning_Path-2") = lit "Learning_Path-2".
Proof.
  apply (proj1 safe_title_fixed (lit "Learning_Path-2"));
    [discriminate | reflexivity].
Defined.

Lemma path_join_plain :
  forall a b c t,
    b = c :: t -> ascii_eqb "/"%char c = false ->
    exists sep, (sep = [] \/ sep = lit "/") /\ path_join a b = a ++ sep ++ b.
Proof.
  intros a b c t -> Hc; unfold path_join.
  change (startswith (lit "/") (c :: t)) with (ascii_eqb "/"%char c && true).
  rewrite Hc; cbv iota; simpl andb; cbv iota.
  destruct (is_empty a || endswith (lit "/") a).
  - exists []; auto.
  - exists (lit "/"); auto.
Qed.

(** X18: when [export_to_pdf] reports success, with a time stamp of digits and
    an underscore: the file was written, and the path returned is the
    output directory, a separator where one is needed, and a file name
    that is the safe title, an underscore, the time stamp and [.pdf];
    the part of the name before [.pdf] has no path separator and no dot,
    so the file lies in the output directory itself. *)
Theorem export_writes_in_output_dir :
  forall w title content output_dir,
    fst (returned (export_to_pdf w title content output_dir)) = true ->
    forallb is_safe (time_stamp w) = true ->
    let stem := safe_title title ++ lit "_" ++ time_stamp w in
    exists sep,
      (sep = [] \/ sep = lit "/") /\
      returned (export_to_pdf w title content output_dir)
        = (true, output_dir ++ sep ++ stem ++ lit ".pdf") /\
      written (export_to_pdf w title content output_dir)
        = Some (output_dir ++ sep ++ stem ++ lit ".pdf") /\
      forallb is_safe stem = true /\
      ~ In "/"%char stem /\ ~ In "."%char stem.
Proof.
  intros w title content output_dir Hok Hts stem.
  destruct (safe_title_chars title) as [Hne Hsafe].
  assert (Hstem : forallb is_safe stem = true).
  { unfold stem; rewrite !forallb_app, Hsafe, Hts; reflexivity. }
  assert (Hall : forall x, In x stem -> is_safe x = true)
    by (apply forallb_forall; exact Hstem).
  assert (Hslash : ~ In "/"%char stem).
  { intros Hin; destruct (safe_not_separator _ (Hall _ Hin)) as (H & _).
    discriminate. }
  assert (Hdot : ~ In "."%char stem).
  { intros Hin; destruct (safe_not_separator _ (Hall _ Hin)) as (_ & H & _).
    discriminate. }
  assert (Hj : exists sep,
             (sep = [] \/ sep = lit "/") /\
             path_join output_dir (pdf_filename w title)
             = output_dir ++ sep ++ stem ++ lit ".pdf").
  { assert (En : pdf_filename w title = stem ++ lit ".pdf").
    { unfold pdf_filename, stem; rewrite <- !app_assoc; reflexivity. }
    rewrite En.
    destruct stem as [|c t] eqn:Es.
    - unfold stem in Es; apply app_eq_nil in Es; destruct Es; contradiction.
    - apply (path_join_plain output_dir _ c (t ++ lit ".pdf") eq_refl).
      apply safe_not_separator, Hall; left; reflexivity. }
  destruct Hj as (sep & Hsep & Hj); exists sep; split; [exact Hsep|].
  unfold export_to_pdf in *.
  destruct (fpdf_available w); [|discriminate Hok].
  cbv [negb] in *; cbv iota in *; cbv zeta in *.
  rewrite Hj in *.
  destruct (output_error w _); [discriminate Hok|].
  repeat split; auto.
Qed.

Lemma export_writes_in_output_dir_witness :
  let e := export_to_pdf pdf_world_ok (lit "Learning Path")
             (lit "Day 1: Intro") (lit "exports") in
  let stem := safe_title (lit "Learning Path") ++ lit "_"
              ++ time_stamp pdf_world_ok in
  exists sep,
    (sep = [] \/ sep = lit "/") /\
    returned e = (true, lit "exports" ++ sep ++ stem ++ lit ".pdf") /\
    written e = Some (lit "exports" ++ sep ++ stem ++ lit ".pdf") /\
    forallb is_safe stem = true /\
    ~ In "/"%char stem /\ ~ In "."%char stem.
Proof.
  apply (export_writes_in_output_dir pdf_world_ok (lit "Learning Path")
           (lit "Day 1: Intro") (lit "exports")); reflexivity.
Defined.

(** * Properties of the progress display *)

Lemma text_eqb_refl : forall s, text_eqb s s = true.
Proof.
  induction s as [|c s IH]; [reflexivity|].
  simpl; rewrite IH.
  assert (E : ascii_eqb c c = true) by (apply ascii_eqb_eq; reflexivity).
  rewrite E; reflexivity.
Qed.

(** X19: [update_progress] never shows a section header: it stores the section
    in [last_section] before it compares the two, so the comparison finds
    them equal whatever the message and the state. *)
Theorem section_header_never_shown :
  forall message st section,
    ~ In (SectionHeader section) (snd (update_progress message st)).
Proof.
  intros message st section; unfold update_progress.
  repeat match goal with
    | |- context [if ?b then _ else _] =>
        match b with
        | context [contains] => destruct b
        end
    end;
    cbv beta iota zeta; simpl last_section; rewrite text_eqb_refl;
      simpl negb; simpl andb; cbv iota;
      destruct (text_eqb message _); simpl;
      intros [H | [H | H]]; try discriminate H; exact H.
Qed.

(** X20: along the messages of a run, whatever the URLs and wherever the run
    stops, the value of [progress] never goes down from one message to
    the next; when the run passes its last message the value is [1.0],
    [is_generating] is [False], and the last thing shown is the success
    message. *)
Theorem progress_of_a_run :
  forall drive_url notion_url,
    (forall n,
       nondecreasing
         (0 :: snd (fst (feed (firstn n (run_messages drive_url notion_url))
                              run_start))) = true) /\
    (let r := feed (run_messages drive_url notion_url) run_start in
     progress (fst (fst r)) = 10 /\
     is_generating (fst (fst r)) = false /\
     last (snd r) (ProgressBar 0) = AllDone).
Proof.
  intros drive_url notion_url.
  destruct drive_url as [[|c1 t1]|]; destruct notion_url as [[|c2 t2]|];
    (split;
     [intros n; do 10 (destruct n as [|n]; [vm_compute; reflexivity|]);
      vm_compute; reflexivity
     | vm_compute; repeat split]).
Qed.

(** * Properties of [concatenate_messages] *)

Lemma join_all_space :
  forall sep parts,
    all_space sep -> Forall all_space parts -> all_space (join sep parts).
Proof.
  intros sep parts Hs; induction parts as [|p ps IH]; intros H;
    [constructor|].
  inversion H as [|? ? Hp Hps]; subst.
  destruct ps as [|q qs]; [exact Hp|].
  rewrite join_cons by discriminate.
  apply Forall_app; split; [exact Hp|].
  apply Forall_app; split; [exact Hs | apply IH; exact Hps].
Qed.

(** X21: a result without text gives no learning path: when every [str]
    content of the messages is white space only (in particular when the
    result is [None] or empty, has no [messages], or has no message with
    a [str] content), the concatenation is the empty text, and so is the
    sanitized text, for which the extractor returns no item. *)
Theorem blank_result_gives_no_text :
  forall agent_result,
    Forall all_space (texts_of agent_result) ->
    concatenate_messages agent_result = [] /\
    sanitize_learning_path_text (concatenate_messages agent_result) = [] /\
    extract_days_and_questions
      (sanitize_learning_path_text (concatenate_messages agent_result)) = [].
Proof.
  intros agent_result H.
  assert (E : concatenate_messages agent_result = []).
  { destruct agent_result as [[|kv d]|]; try reflexivity.
    unfold concatenate_messages; apply strip_nil_iff, join_all_space.
    - repeat constructor.
    - exact H. }
  rewrite E; repeat split.
Qed.

Lemma blank_result_gives_no_text_witness :
  concatenate_messages blank_result = [] /\
  sanitize_learning_path_text (concatenate_messages blank_result) = [] /\
  extract_days_and_questions
    (sanitize_learning_path_text (concatenate_messages blank_result)) = [].
Proof.
  apply (blank_result_gives_no_text blank_result).
  repeat constructor.
Defined.

(** * Properties of the day tracking *)

Lemma text_eqb_eq : forall a b, text_eqb a b = true <-> a = b.
Proof.
  induction a as [|x a IH]; intros [|y b]; simpl; split; intros H;
    try reflexivity; try discriminate.
  - apply andb_true_iff in H; destruct H as [H1 H2].
    apply ascii_eqb_eq in H1; apply IH in H2; subst; reflexivity.
  - inversion H; subst; apply (text_eqb_refl (y :: b)).
Qed.

Lemma text_eqb_neq : forall a b, a <> b -> text_eqb a b = false.
Proof.
  intros a b H; destruct (text_eqb a b) eqn:E; [|reflexivity].
  apply text_eqb_eq in E; contradiction.
Qed.

Lemma dict_get_set_same :
  forall (V : Type) key (v : V) d, dict_get key (dict_set key v d) = Some v.
Proof.
  intros V key v; induction d as [|[k x] d IH]; simpl.
  - rewrite text_eqb_refl; reflexivity.
  - destruct (text_eqb k key) eqn:E; simpl; rewrite E; auto.
Qed.

Lemma dict_get_set_other :
  forall (V : Type) key key' (v : V) d,
    key' <> key -> dict_get key' (dict_set key v d) = dict_get key' d.
Proof.
  intros V key key' v d Hne; induction d as [|[k x] d IH]; simpl.
  - rewrite text_eqb_neq; [reflexivity | auto].
  - destruct (text_eqb k key) eqn:E; simpl.
    + apply text_eqb_eq in E; subst k.
      rewrite text_eqb_neq; [reflexivity | auto].
    + destruct (text_eqb k key'); [reflexivity | exact IH].
Qed.

Lemma decimal_inj : forall a b, decimal a = decimal b -> a = b.
Proof.
  intros a b H; unfold decimal in H.
  apply (f_equal string_of_list_ascii) in H.
  rewrite !string_of_list_ascii_of_string in H.
  apply (f_equal DecimalString.NilEmpty.uint_of_string) in H.
  rewrite !DecimalString.NilEmpty.usu in H; inversion H as [E].
  rewrite <- (DecimalNat.Unsigned.of_to a), <- (DecimalNat.Unsigned.of_to b).
  rewrite E; reflexivity.
Qed.

Lemma day_key_inj : forall a b, day_key a = day_key b -> a = b.
Proof.
  intros a b H; unfold day_key in H.
  apply app_inv_head in H; apply decimal_inj; exact H.
Qed.

(** X22: marking a day: when the progress record is a dict, the checkbox
    differs from the mark of the day and the file of the goal can be
    written and read, the turn saves the record; the record loaded
    afterwards, in the same process, is the record the page holds, in it
    the mark of the day is the state of the checkbox, and the marks of
    all other days are as they were. *)
Theorem day_mark_is_saved :
  forall hash user_goal idx it completed kv st v,
    is_completed (JObj kv) idx = Returned v ->
    differs completed v = true ->
    writable st (progress_file hash user_goal) = true ->
    readable st (progress_file hash user_goal) = true ->
    let r := track_day hash user_goal idx it completed (JObj kv) st in
    snd r = Returned tt /\
    snd (load_progress hash user_goal (snd (fst r)))
      = Returned (fst (fst r)) /\
    is_completed (fst (fst r)) idx = Returned (JBool completed) /\
    (forall idx', idx' <> idx ->
       is_completed (fst (fst r)) idx' = is_completed (JObj kv) idx').
Proof.
  intros hash user_goal idx it completed kv st v Hv Hd Hw Hr r.
  subst r; unfold track_day; rewrite Hv, Hd; cbv zeta.
  cbv [fst snd].
  repeat split.
  - apply save_progress_returns; apply (writable_parts _ _ Hw).
  - apply progress_roundtrip_same_process; assumption.
  - unfold is_completed; rewrite dict_get_set_same; reflexivity.
  - intros idx' Hne; unfold is_completed.
    rewrite dict_get_set_other; [reflexivity|].
    intros E; apply Hne, day_key_inj; exact E.
Qed.

Lemma day_mark_is_saved_witness :
  let r := track_day (str_hash 1) goal_rust 2 loops_item true
             progress_day1 empty_fs in
  snd r = Returned tt /\
  snd (load_progress (str_hash 1) goal_rust (snd (fst r)))
    = Returned (fst (fst r)) /\
  is_completed (fst (fst r)) 2 = Returned (JBool true) /\
  (forall idx', idx' <> 2 ->
     is_completed (fst (fst r)) idx' = is_completed progress_day1 idx').
Proof.
  apply (day_mark_is_saved (str_hash 1) goal_rust 2 loops_item true
           [(lit "day_1",
             JObj [(lit "completed", JBool true);
                   (lit "title", JStr (lit "Day 1:"));
                   (lit "topic", JStr (lit "Ownership"))])]
           empty_fs (JBool false)); reflexivity.
Defined.

(** * The title lines that the sanitizer keeps *)

Lemma lines_bound :
  forall s b, length (lines_from b s) <= S (line_breaks s).
Proof.
  induction s as [|c t IH]; intros b; [simpl; lia|].
  unfold line_breaks in *; simpl.
  destruct (b && ascii_eqb c LF).
  - specialize (IH false); destruct (is_linebreak c); simpl; lia.
  - destruct (is_linebreak c) eqn:E; simpl.
    + specialize (IH (ascii_eqb c CR)); lia.
    + specialize (IH false).
      destruct (lines_from false t); simpl in *; lia.
Qed.

Lemma line_breaks_app :
  forall a b, line_breaks (a ++ b) = line_breaks a + line_breaks b.
Proof.
  intros a b; unfold line_breaks; rewrite filter_app, length_app; reflexivity.
Qed.

Lemma line_breaks_sub :
  forall t s, sub_of t s -> line_breaks t <= line_breaks s.
Proof.
  intros t s (a & b & ->); rewrite !line_breaks_app; lia.
Qed.

Lemma line_breaks_one_line : forall l, one_line l -> line_breaks l = 0.
Proof.
  intros l H; unfold line_breaks.
  induction H as [|c l Hc _ IH]; [reflexivity|].
  simpl; rewrite Hc; exact IH.
Qed.

Lemma line_breaks_join :
  forall lns,
    Forall one_line lns -> line_breaks (join [LF] lns) <= length lns - 1.
Proof.
  induction lns as [|l lns IH]; intros H; [unfold line_breaks; simpl; lia|].
  inversion H as [|? ? Hl Hls]; subst.
  destruct lns as [|l' lns'].
  - simpl; rewrite (line_breaks_one_line l Hl); lia.
  - rewrite join_cons by discriminate.
    rewrite !line_breaks_app, (line_breaks_one_line l Hl).
    specialize (IH Hls); simpl in *.
    change (line_breaks [LF]) with 1; lia.
Qed.

Lemma lastn_length :
  forall (A : Type) n (l : list A), length (lastn n l) <= n.
Proof. intros A n l; unfold lastn; rewrite length_skipn; lia. Qed.

(** A header at a position: the first header is there or before. *)
Lemma first_header_le :
  forall a pv b,
    header_here (last_of pv a) b = true ->
    exists k, first_header pv (a ++ b) = Some k /\ k <= length a.
Proof.
  induction a as [|c a IH]; intros pv b H.
  - simpl in H; exists 0; split; [|simpl; lia].
    destruct b; simpl; rewrite H; reflexivity.
  - simpl app; simpl first_header.
    destruct (header_here pv (c :: a ++ b)).
    + exists 0; split; [reflexivity | simpl; lia].
    + destruct (IH (Some c) b H) as (k & Hk & Hle).
      rewrite Hk; exists (S k); split; [reflexivity | simpl; lia].
Qed.

Lemma trimmed_head_stop :
  forall r, trimmed r -> dropwhile is_space r = r.
Proof.
  intros [|c t] H; [reflexivity|].
  simpl; destruct H as [H _]; rewrite H; reflexivity.
Qed.

Lemma trimmed_rstrip :
  forall r, trimmed r -> rstrip_by is_space r = r.
Proof.
  intros r H; pose proof (strip_of_trimmed r H) as E.
  unfold strip, strip_by, lstrip_by in E.
  rewrite (trimmed_head_stop r H) in E; exact E.
Qed.

Lemma header_at_start :
  forall r, trimmed r -> day_prefix r = true -> first_header None r = Some 0.
Proof.
  intros r Ht Hd.
  assert (Hh : header_here None r = true).
  { unfold header_here; rewrite (trimmed_head_stop r Ht), Hd; reflexivity. }
  destruct r; cbn [first_header]; rewrite Hh; reflexivity.
Qed.

(** The text that [title_and_body] returns: the body, or a title with at
    most one line boundary in it, an empty line and the body. *)
Lemma title_and_body_shape :
  forall t r,
    r <> [] -> trimmed r -> Forall one_line (splitlines t) ->
    title_and_body t r = r \/
    exists T,
      T <> [] /\ line_breaks T <= 1 /\
      title_and_body t r = T ++ [LF; LF] ++ r.
Proof.
  intros t r Hnr Htr Hone; unfold title_and_body.
  destruct (is_empty (splitlines t)); [left; reflexivity|].
  set (title := join [LF] (lastn 2 (splitlines t))).
  assert (Hlb : line_breaks title <= 1).
  { unfold title.
    pose proof (line_breaks_join (lastn 2 (splitlines t))
                  (Forall_lastn _ _ 2 _ Hone)) as H1.
    pose proof (lastn_length _ 2 (splitlines t)); lia. }
  destruct (is_empty title); [left; reflexivity|].
  destruct (dropwhile_split is_space title) as (w & Ew & Hw).
  set (T := dropwhile is_space title) in *.
  assert (Hr : rstrip_by is_space r <> [])
    by (rewrite (trimmed_rstrip r Htr); exact Hnr).
  destruct T as [|x T'] eqn:ET.
  - left; unfold strip, strip_by, lstrip_by.
    rewrite Ew, app_nil_r, (dropwhile_all is_space w _ Hw).
    simpl dropwhile; rewrite (trimmed_head_stop r Htr).
    apply trimmed_rstrip; exact Htr.
  - right; exists (x :: T'); split; [discriminate|]; split.
    + apply (Nat.le_trans _ (line_breaks title)); [|exact Hlb].
      apply line_breaks_sub; exists w, []; rewrite app_nil_r; exact Ew.
    + unfold strip, strip_by, lstrip_by.
      rewrite Ew at 1; rewrite <- app_assoc.
      rewrite (dropwhile_all is_space w _ Hw).
      pose proof (dropwhile_head is_space title) as Hh.
      fold T in Hh; rewrite ET in Hh.
      simpl dropwhile; rewrite Hh.
      replace (x :: T' ++ LF :: LF :: r) with (((x :: T') ++ [LF; LF]) ++ r)
        by (rewrite <- app_assoc; reflexivity).
      rewrite (rstrip_keep is_space _ r Hr), (trimmed_rstrip r Htr).
      rewrite <- app_assoc; reflexivity.
Qed.

Lemma keep_from_first_day_title :
  forall c k,
    lined c -> trimmed c ->
    first_header None (keep_from_first_day c) = Some k ->
    length (splitlines (strip (firstn k (keep_from_first_day c)))) <= 2.
Proof.
  intros c k Hl Ht; rewrite keep_from_first_day_spec.
  destruct (first_header None c) as [[|n]|] eqn:Hf.
  - assert (E : cut_at 0 c = c).
    { unfold cut_at; simpl; apply strip_of_trimmed; exact Ht. }
    rewrite E, Hf; intros H; inversion H; subst k; simpl; lia.
  - destruct (header_cut_shape c n Hl Ht Hf)
      as (t & j & r & Ec & Hnt & Hnr & Htt & Htr & Hj & Hnj & Hlt & Hlr
          & Ef & Es & Hlen & Hday).
    rewrite cut_at_eq, Ef, Es.
    destruct (title_and_body_shape t r Hnr Htr (splitlines_one_line t))
      as [E | (T & HT & Hlb & E)]; rewrite E.
    + rewrite (header_at_start r Htr Hday).
      intros H; inversion H; subst k; simpl; lia.
    + intros Hk.
      assert (Hh : header_here (last_of None T) ([LF; LF] ++ r) = true).
      { destruct T as [|x T']; [contradiction|].
        destruct (last_of_some x T') as [d Hd].
        simpl last_of; rewrite Hd.
        unfold header_here; simpl app; cbv iota.
        change (dropwhile is_space (LF :: r)) with (dropwhile is_space r).
        rewrite (trimmed_head_stop r Htr), Hday; reflexivity. }
      destruct (first_header_le T None _ Hh) as (k' & Hk' & Hle).
      rewrite Hk' in Hk; inversion Hk; subst k'.
      rewrite firstn_app.
      replace (k - length T) with 0 by lia.
      simpl firstn; rewrite app_nil_r.
      pose proof (lines_bound (strip (firstn k T)) false) as Hb.
      pose proof (line_breaks_sub _ _
                    (sub_of_trans _ _ _ (sub_of_strip (firstn k T))
                       (sub_of_firstn k T))) as Hs.
      unfold splitlines; lia.
  - rewrite Hf; discriminate.
Qed.

(** X23: whatever the input, the text returned has at most two lines before
    its first day header: where the pattern of the header first matches,
    the text before it, stripped, has two lines at most. *)
Theorem sanitize_keeps_two_title_lines :
  forall x m,
    re_search flag_i first_day_re (sanitize_learning_path_text x) = Some m ->
    length (splitlines
              (strip (firstn (m_start m) (sanitize_learning_path_text x))))
    <= 2.
Proof.
  intros x m Hm.
  pose proof (re_search_first_header (sanitize_learning_path_text x)) as E.
  rewrite Hm in E; simpl in E; symmetry in E.
  unfold sanitize_learning_path_text in *.
  destruct (is_empty x); [simpl in E; discriminate|].
  apply keep_from_first_day_title;
    [apply filtered_text_lined | apply strip_trimmed | exact E].
Qed.

Lemma sanitize_keeps_two_title_lines_witness :
  sanitize_learning_path_text long_titled_plan
  = unlines ["Python in a week"; "A plan"; ""; "Day 1: Basics";
             "Topic: Variables"]%string /\
  length (splitlines
            (strip (firstn 23 (sanitize_learning_path_text long_titled_plan))))
  <= 2.
Proof.
  split; [vm_compute; reflexivity|].
  apply (sanitize_keeps_two_title_lines long_titled_plan
           (RMatch 23 31 [(1, (23, 24))])).
  vm_compute; reflexivity.
Defined.

(** * The search link and its topic *)

Lemma in_all_chars : forall c, In c all_chars.
Proof.
  intros c.
  assert (H : existsb (ascii_eqb c) all_chars = true)
    by (by_cases_on_char c).
  apply existsb_exists in H; destruct H as (d & Hin & E).
  apply ascii_eqb_eq in E; subst d; exact Hin.
Qed.

Lemma encodings_apart : forallb encoding_apart all_chars = true.
Proof. vm_compute; reflexivity. Qed.

Lemma app_eq_prefix :
  forall (p q a b : text),
    p ++ a = q ++ b -> startswith p q = true \/ startswith q p = true.
Proof.
  induction p as [|x p IH]; intros q a b H; [left; reflexivity|].
  destruct q as [|y q]; [right; reflexivity|].
  simpl in H; inversion H; subst y.
  destruct (IH q a b) as [E | E]; [assumption | left | right];
    simpl; rewrite E;
    replace (ascii_eqb x x) with true
      by (symmetry; apply ascii_eqb_eq; reflexivity);
    reflexivity.
Qed.

Lemma quote_char_inj :
  forall c d a b, quote_char c ++ a = quote_char d ++ b -> c = d.
Proof.
  intros c d a b H.
  pose proof encodings_apart as Hall.
  rewrite forallb_forall in Hall.
  pose proof (Hall c (in_all_chars c)) as Hc.
  unfold encoding_apart in Hc; rewrite forallb_forall in Hc.
  specialize (Hc d (in_all_chars d)).
  apply orb_true_iff in Hc; destruct Hc as [Hc | Hc];
    [apply ascii_eqb_eq; exact Hc|].
  apply negb_true_iff in Hc.
  destruct (app_eq_prefix _ _ _ _ H) as [E | E]; rewrite E in Hc;
    [discriminate | rewrite orb_true_r in Hc; discriminate].
Qed.

Lemma startswith_app :
  forall p a, startswith p (p ++ a) = true.
Proof. intros p a; apply startswith_spec; exists a; reflexivity. Qed.

Lemma quote_plus_inj :
  forall s t, quote_plus s = quote_plus t -> s = t.
Proof.
  unfold quote_plus.
  induction s as [|c s IH]; intros [|d t] H; simpl in H.
  - reflexivity.
  - exfalso; destruct (quote_char d) eqn:E; [|discriminate].
    revert E; clear; by_cases_on_char d.
  - exfalso; destruct (quote_char c) eqn:E; [|discriminate].
    revert E; clear; by_cases_on_char c.
  - pose proof (quote_char_inj _ _ _ _ H) as E; subst d.
    apply app_inv_head in H; rewrite (IH t H); reflexivity.
Qed.

(** X24: the search link names its topic: two topics with the same search
    link are the same topic, and no search link is the fixed platform
    link. *)
Theorem search_url_names_topic :
  forall tp tp',
    (search_url tp = search_url tp' -> tp = tp') /\
    search_url tp <> generic_url.
Proof.
  intros tp tp'; split.
  - intros H; unfold search_url in H.
    apply app_inv_head, quote_plus_inj, app_inv_tail in H; exact H.
  - unfold search_url, generic_url; intros H.
    apply (f_equal (@length ascii)) in H.
    rewrite length_app in H; simpl in H; lia.
Qed.

Lemma search_url_names_topic_witness :
  lit "Loops" = lit "Loops" /\ search_url (lit "Loops") <> generic_url.
Proof.
  destruct (search_url_names_topic (lit "Loops") (lit "Loops")) as [H1 H2].
  split; [apply H1; reflexivity | exact H2].
Defined.

(** * The extractor on a text of one day *)

Lemma lower_is_line_feed : forall c, lower c = LF -> c = LF.
Proof.
  intros c H; apply ascii_eqb_eq; rewrite <- lower_line_feed.
  apply ascii_eqb_eq; exact H.
Qed.

(** Where the canonical form has nothing to change, the split has nothing
    to cut. *)
Lemma canon_none_split_none :
  forall t,
    re_search flag_i canon_re t = None -> re_search flag_i split_re t = None.
Proof.
  intros t H; apply re_search_none; intros (a & w & b & E & M).
  apply (proj1 (re_search_none _ _ _) H).
  unfold split_re in M.
  inversion M as [| |? ? ? w1 w2 ? M1 M2| | | | | | | | | | |]; subst.
  inversion M1 as [|? c ? ? Hc| | | | | | | | | | | |]; subst.
  inversion M2 as [| | | | | | | | | | |? ? w3 k3 M3| |]; subst.
  inversion M3 as [| |? ? ? w4 w5 ? M4 M5| | | | | | | | | | |]; subst.
  inversion M4 as [| | | | |? ? ? ? Hws| | | | | | | |]; subst.
  apply accepts_char_lower in Hc; apply lower_is_line_feed in Hc; subst c.
  exists a, ((LF :: w4) ++ w5), k3; split.
  { simpl; rewrite <- !app_assoc; reflexivity. }
  unfold canon_re; constructor.
  - constructor; [discriminate|].
    constructor; [reflexivity | exact Hws].
  - constructor.
    apply (matches_any_context _ _ _ _ _ M5); unfold day_core; simpl; tauto.
Qed.

Lemma day_blocks_single :
  forall t, re_search flag_i canon_re t = None -> day_blocks t = [t].
Proof.
  intros t H; unfold day_blocks.
  rewrite (re_sub_no_match flag_i canon_re canon_repl t H).
  unfold re_split.
  rewrite (finditer_no_match _ _ _ (canon_none_split_none t H)).
  reflexivity.
Qed.

Lemma block_head_of_prefix :
  forall s,
    day_prefix s = true -> is_some (re_match flag_i block_head_re s) = true.
Proof.
  intros s H.
  destruct (day_core_complete None s H) as (w & k & E & M).
  destruct (match_here_complete flag_i block_head_re (start_state s) w k)
    as [m Hm]; [exact E | | unfold re_match; rewrite Hm; reflexivity].
  unfold block_head_re; simpl.
  apply M_Seq_eq with (w1 := []) (w2 := w); [reflexivity | | exact M].
  constructor; reflexivity.
Qed.

Lemma block_head_prefix :
  forall s,
    is_some (re_match flag_i block_head_re s) = true -> day_prefix s = true.
Proof.
  intros s H; unfold re_match in H.
  destruct (match_here flag_i block_head_re (start_state s)) as [m|] eqn:E;
    [|discriminate].
  destruct (match_here_sound _ _ _ _ E) as (w & k & Er & M & _).
  simpl in Er, M; unfold block_head_re in M.
  inversion M as [| |? ? ? w1 w2 ? M1 M2| | | | | | | | | | |]; subst.
  inversion M1; subst; simpl in *.
  apply (day_core_sound _ _ _ M2).
Qed.

Lemma day_prefix_nonempty : forall s, day_prefix s = true -> s <> [].
Proof. intros s H ->; discriminate. Qed.

(** A text of one day goes through the primary parser as one block. *)
Lemma extract_one_day_block :
  forall t,
    one_day_block t = true ->
    exists it,
      primary_item t = Some it /\ extract_days_and_questions t = [it].
Proof.
  intros t H; unfold one_day_block in H.
  apply andb_prop in H; destruct H as [Hd Hc].
  assert (Hs : re_search flag_i canon_re t = None).
  { destruct (re_search flag_i canon_re t); [discriminate | reflexivity]. }
  assert (Hne : strip t <> []) by (apply day_prefix_nonempty; exact Hd).
  assert (Hit : exists it, primary_item t = Some it).
  { unfold primary_item.
    rewrite (block_head_of_prefix _ Hd).
    destruct (strip t); [congruence|].
    simpl; eexists; reflexivity. }
  destruct Hit as [it Hit]; exists it; split; [exact Hit|].
  unfold extract_days_and_questions, primary.
  rewrite (day_blocks_single t Hs); simpl; rewrite Hit.
  destruct t; [exfalso; apply Hne; reflexivity | reflexivity].
Qed.

(** ** A bare header *)

Lemma eat_ci_inv :
  forall x s t,
    eat_ci x s = Some t -> exists c, s = c :: t /\ lower c = lower x.
Proof.
  intros x [|c s] t H; simpl in H; [discriminate|].
  destruct (ascii_eqb (lower c) (lower x)) eqn:E; [|discriminate].
  inversion H; subst; exists c; split; [reflexivity|].
  apply ascii_eqb_eq; exact E.
Qed.

Lemma eat_plus_inv :
  forall p s t,
    eat_plus p s = Some t ->
    exists w, s = w ++ t /\ w <> [] /\ Forall (fun c => p c = true) w.
Proof.
  intros p [|c s] t H; simpl in H; [discriminate|].
  destruct (p c) eqn:E; [|discriminate].
  inversion H; subst.
  destruct (dropwhile_split p s) as (w & Ew & Hw).
  exists (c :: w); repeat split.
  - simpl; rewrite <- Ew; reflexivity.
  - discriminate.
  - constructor; assumption.
Qed.

(** The shape of a text that begins with [Day], white space and a
    number. *)
Lemma bare_prefix_shape :
  forall t,
    bare_prefix t = true ->
    exists d1 d2 d3 sp ds b,
      t = [d1; d2; d3] ++ sp ++ ds ++ b /\
      lower d1 = "d"%char /\ lower d2 = "a"%char /\ lower d3 = "y"%char /\
      sp <> [] /\ Forall (fun c => is_space c = true) sp /\
      ds <> [] /\ Forall (fun c => is_digit c = true) ds.
Proof.
  intros t H; unfold bare_prefix in H.
  destruct (eat_ci "D" t) as [t1|] eqn:E1; [|discriminate].
  simpl and_then in H.
  destruct (eat_ci "a" t1) as [t2|] eqn:E2; [|discriminate].
  simpl and_then in H.
  destruct (eat_ci "y" t2) as [t3|] eqn:E3; [|discriminate].
  simpl and_then in H.
  destruct (eat_plus is_space t3) as [t4|] eqn:E4; [|discriminate].
  simpl and_then in H.
  destruct (eat_plus is_digit t4) as [t5|] eqn:E5; [|discriminate].
  destruct (eat_ci_inv _ _ _ E1) as (d1 & -> & H1).
  destruct (eat_ci_inv _ _ _ E2) as (d2 & -> & H2).
  destruct (eat_ci_inv _ _ _ E3) as (d3 & -> & H3).
  destruct (eat_plus_inv _ _ _ E4) as (sp & -> & Hsp & Hsps).
  destruct (eat_plus_inv _ _ _ E5) as (ds & -> & Hds & Hdss).
  exists d1, d2, d3, sp, ds, t5; repeat split; auto.
Qed.

Lemma bare_prefix_header_line :
  forall t, bare_prefix t = true -> has_header_line t.
Proof.
  intros t H.
  destruct (bare_prefix_shape t H)
    as (d1 & d2 & d3 & sp & ds & b & E & H1 & H2 & H3 & Hsp & Hsps
        & Hds & Hdss).
  exists [], [], d1, d2, d3, sp, ds, b; repeat split; auto.
  - apply forallb_forall; intros x Hx.
    apply (proj1 (Forall_forall _ _) Hsps x Hx).
  - apply forallb_forall; intros x Hx.
    apply (proj1 (Forall_forall _ _) Hdss x Hx).
Qed.

(** Where [day] occurs at the start of the text only, a piece that has
    it is at the start. *)
Lemma day_only_at_start :
  forall t a w k,
    contains_ci (lit "day") (tl t) = false ->
    t = a ++ w ++ k -> contains_ci (lit "day") w = true -> a = [].
Proof.
  intros t a w k H E Hw.
  destruct a as [|x a']; [reflexivity|].
  subst t; change (contains_ci (lit "day") (a' ++ w ++ k) = false) in H.
  rewrite (contains_ci_sub (lit "day") w (a' ++ w ++ k)) in H;
    [discriminate | exists a', k; reflexivity | exact Hw].
Qed.

Lemma bare_block_parts :
  forall t,
    bare_day_block t = true ->
    bare_prefix t = true /\ day_prefix t = false /\
    contains_ci (lit "day") (tl t) = false.
Proof.
  intros t H; unfold bare_day_block in H.
  apply andb_prop in H; destruct H as [H H3].
  apply andb_prop in H; destruct H as [H1 H2].
  apply negb_true_iff in H2, H3; auto.
Qed.

Lemma bare_block_no_canon :
  forall t,
    bare_day_block t = true -> re_search flag_i canon_re t = None.
Proof.
  intros t H; destruct (bare_block_parts t H) as (_ & _ & Hd).
  apply re_search_none; intros (a & w & b & E & M).
  unfold canon_re in M.
  inversion M as [| |? ? ? w1 w2 ? M1 M2| | | | | | | | | | |]; subst.
  inversion M1 as [| | | | | |? ? ? ? Hne _| | | | | | |]; subst.
  inversion M2; subst.
  assert (Ha : a ++ w1 = []).
  { apply (day_only_at_start (a ++ (w1 ++ w2) ++ b) (a ++ w1) w2 b Hd).
    - repeat rewrite <- app_assoc; reflexivity.
    - eapply day_core_has_day; eassumption. }
  apply app_eq_nil in Ha; destruct Ha as [_ Ha]; congruence.
Qed.

Lemma first_not_space_strip :
  forall c t, is_space c = false -> exists b, c :: t = strip (c :: t) ++ b /\ all_space b.
Proof.
  intros c t Hc; unfold strip, strip_by, lstrip_by; simpl; rewrite Hc.
  destruct (rstrip_prefix is_space (c :: t)) as (b & E & Hb).
  exists b; split; assumption.
Qed.

Lemma bare_block_no_head :
  forall t,
    bare_day_block t = true ->
    is_some (re_match flag_i block_head_re (strip t)) = false.
Proof.
  intros t H; destruct (bare_block_parts t H) as (Hp & Hn & _).
  destruct (is_some (re_match flag_i block_head_re (strip t))) eqn:E;
    [|reflexivity].
  apply block_head_prefix in E.
  destruct (bare_prefix_shape t Hp)
    as (d1 & d2 & d3 & sp & ds & b & Et & H1 & _).
  assert (Sd : is_space d1 = false)
    by (apply (lower_letter_not_space d1 _ H1); reflexivity).
  simpl in Et.
  destruct (first_not_space_strip d1 (d2 :: d3 :: sp ++ ds ++ b) Sd)
    as (b' & Eb & _).
  rewrite <- Et in Eb.
  destruct (day_core_complete None (strip t) E) as (w & k & Es & M).
  rewrite Eb, Es, <- app_assoc in Hn.
  rewrite (day_core_sound None w (k ++ b')) in Hn; [discriminate|].
  apply (matches_any_context _ _ _ _ _ M); unfold day_core; simpl; tauto.
Qed.

Lemma bare_block_primary :
  forall t, bare_day_block t = true -> primary t = [].
Proof.
  intros t H; unfold primary.
  rewrite (day_blocks_single t (bare_block_no_canon t H)); simpl.
  unfold primary_item; rewrite (bare_block_no_head t H).
  rewrite orb_true_r; reflexivity.
Qed.

(** The fallback pattern matches a bare header once, at offset 0. *)
Lemma bare_block_header_matches :
  forall t,
    bare_day_block t = true ->
    exists m, header_matches t = [m] /\ m_start m = 0.
Proof.
  intros t H; destruct (bare_block_parts t H) as (Hp & _ & Hd).
  pose proof (header_matches_nonempty t (bare_prefix_header_line t Hp)) as Hne.
  pose proof (finditer_spans flag_im header_re t) as Hs.
  unfold header_matches in *.
  destruct (re_finditer flag_im header_re t) as [|m ms]; [congruence|].
  destruct Hs as (_ & (a & w & k & E & M & Hst & Hen) & Hs').
  assert (Ha : a = []).
  { apply (day_only_at_start t a w k Hd E).
    apply (header_match_has_day _ _ _ _ M). }
  subst a; simpl in Hst.
  destruct ms as [|m' ms'].
  - exists m; split; [reflexivity | exact Hst].
  - exfalso.
    destruct Hs' as (Hlo & (a' & w' & k' & E' & M' & Hst' & _) & _).
    assert (Ha' : a' = []).
    { apply (day_only_at_start t a' w' k' Hd E').
      apply (header_match_has_day _ _ _ _ M'). }
    subst a'; simpl in Hst'; lia.
Qed.

(** A bare header goes through the fallback parser as one block, the
    whole text. *)
Lemma extract_bare_block :
  forall t,
    bare_day_block t = true ->
    extract_days_and_questions t = [fallback_item t (0, length t)].
Proof.
  intros t H.
  destruct (bare_block_header_matches t H) as (m & Hm & Hst).
  destruct (bare_block_parts t H) as (Hp & _ & _).
  unfold extract_days_and_questions.
  rewrite (bare_block_primary t H).
  destruct t; [discriminate|].
  cbv iota; unfold fallback; rewrite Hm; simpl; rewrite Hst; reflexivity.
Qed.

Lemma whole_block :
  forall t, fallback_block t (0, length t) = strip t.
Proof.
  intros t; unfold fallback_block, slice; simpl.
  rewrite Nat.sub_0_r, firstn_all; reflexivity.
Qed.

(** ** Items and the blocks they come from *)

Lemma primary_items_intro :
  forall blocks b it,
    In b blocks -> primary_item b = Some it -> In it (primary_items blocks).
Proof.
  induction blocks as [|x xs IH]; intros b it Hin Hit; [contradiction|].
  simpl; destruct Hin as [-> | Hin].
  - rewrite Hit; left; reflexivity.
  - destruct (primary_item x); [right|]; eapply IH; eauto.
Qed.

(** The item of a block of the primary parser is returned. *)
Lemma primary_block_returned :
  forall text0 block it,
    In block (day_blocks text0) -> primary_item block = Some it ->
    In it (extract_days_and_questions text0).
Proof.
  intros text0 block it Hin Hit.
  pose proof (primary_items_intro _ _ _ Hin Hit) as H.
  unfold extract_days_and_questions; fold (primary text0) in H.
  destruct text0 as [|c t].
  - exfalso; vm_compute in Hin; destruct Hin as [<- | []].
    vm_compute in Hit; discriminate.
  - cbv iota.
    destruct (primary (c :: t)); [contradiction | exact H].
Qed.

(** The item of a block of the fallback parser is returned when the
    primary parser has found nothing. *)
Lemma fallback_block_returned :
  forall text0 span,
    primary text0 = [] ->
    In span (block_spans (header_matches text0) (length text0)) ->
    In (fallback_item text0 span) (extract_days_and_questions text0).
Proof.
  intros text0 span Hp Hin; unfold extract_days_and_questions.
  rewrite Hp; destruct text0 as [|c t]; [vm_compute in Hin; contradiction|].
  cbv iota; unfold fallback; apply in_map; exact Hin.
Qed.

(** The link of a block without a link, from its topic. *)
Lemma primary_item_no_url :
  forall block it,
    primary_item block = Some it -> ~ has_url block ->
    video_link it
    = (if is_empty (topic it) then generic_url else search_url (topic it)).
Proof.
  intros block it Hit Hno.
  destruct (primary_item_link _ _ Hit) as [_ Hl].
  assert (Hrest : ~ has_url (primary_rest (strip block))).
  { intros H; apply Hno; apply (has_url_sub _ block) in H; [exact H|].
    eapply sub_of_trans; [apply primary_rest_sub | apply sub_of_strip]. }
  rewrite (primary_link_none _ Hrest), link_from_topic in Hl; exact Hl.
Qed.

Lemma fallback_item_no_url :
  forall text0 span,
    ~ has_url (fallback_block text0 span) ->
    video_link (fallback_item text0 span)
    = (if is_empty (topic (fallback_item text0 span)) then generic_url
       else search_url (topic (fallback_item text0 span))).
Proof.
  intros text0 span Hno.
  destruct (fallback_item_link text0 span) as [_ Hl].
  rewrite (fallback_link_none _ Hno), link_from_topic in Hl; exact Hl.
Qed.

Lemma link_of_topic_cases :
  forall it,
    video_link it
    = (if is_empty (topic it) then generic_url else search_url (topic it)) ->
    (topic it = lit "Recursion" -> video_link it = recursion_url) /\
    (topic it = [] -> video_link it = generic_url).
Proof.
  intros it H; split; intros Ht; rewrite Ht in H; exact H.
Qed.

(** C7: a day block without a link ([https?://\S+], in any letter case).
    For a text of one day, with a separator after the number (primary
    parser) or without one (fallback parser), the extractor returns one
    item; for a text of several days it returns the item of each block.
    The link of the item is the search link of its topic, which for the
    topic [Recursion] ends in the encoding [Recursion+tutorial] of
    [Recursion tutorial], and the fixed platform link when the topic is
    empty.  No item returned has an empty link. *)
Theorem link_fallback :
  quote_plus (lit "Recursion tutorial") = lit "Recursion+tutorial" /\
  (forall t,
     one_day_block t = true -> ~ has_url t ->
     exists it,
       extract_days_and_questions t = [it] /\
       (topic it = lit "Recursion" -> video_link it = recursion_url) /\
       (topic it = [] -> video_link it = generic_url)) /\
  (forall t,
     bare_day_block t = true -> ~ has_url t ->
     exists it,
       extract_days_and_questions t = [it] /\
       (topic it = lit "Recursion" -> video_link it = recursion_url) /\
       (topic it = [] -> video_link it = generic_url)) /\
  (forall text0 block it,
     In block (day_blocks text0) -> primary_item block = Some it ->
     ~ has_url block ->
     In it (extract_days_and_questions text0) /\
     (topic it = lit "Recursion" -> video_link it = recursion_url) /\
     (topic it = [] -> video_link it = generic_url)) /\
  (forall text0 span,
     primary text0 = [] ->
     In span (block_spans (header_matches text0) (length text0)) ->
     ~ has_url (fallback_block text0 span) ->
     In (fallback_item text0 span) (extract_days_and_questions text0) /\
     (topic (fallback_item text0 span) = lit "Recursion" ->
      video_link (fallback_item text0 span) = recursion_url) /\
     (topic (fallback_item text0 span) = [] ->
      video_link (fallback_item text0 span) = generic_url)) /\
  (forall text0 it,
     In it (extract_days_and_questions text0) -> video_link it <> []).
Proof.
  split; [reflexivity | split; [|split; [|split; [|split]]]].
  - intros t Hb Hno.
    destruct (extract_one_day_block t Hb) as (it & Hit & He).
    exists it; split; [exact He|].
    apply link_of_topic_cases, (primary_item_no_url t it Hit Hno).
  - intros t Hb Hno.
    exists (fallback_item t (0, length t)); split;
      [apply extract_bare_block; exact Hb|].
    apply link_of_topic_cases, fallback_item_no_url.
    rewrite whole_block; intros H; apply Hno.
    apply (has_url_sub _ _ (sub_of_strip t) H).
  - intros text0 block it Hin Hit Hno; split.
    + apply (primary_block_returned text0 block it Hin Hit).
    + apply link_of_topic_cases, (primary_item_no_url block it Hit Hno).
  - intros text0 span Hp Hin Hno; split.
    + apply fallback_block_returned; assumption.
    + apply link_of_topic_cases, fallback_item_no_url; exact Hno.
  - intros text0 it H.
    destruct (extract_items _ _ H) as [[b Hb] | [span ->]].
    + destruct (primary_item_link _ _ Hb) as [_ ->].
      apply default_link_nonempty.
    + destruct (fallback_item_link text0 span) as [_ ->].
      apply default_link_nonempty.
Qed.

Lemma link_fallback_witness :
  extract_days_and_questions recursion_block = [recursion_item] /\
  video_link recursion_item = recursion_url /\
  extract_days_and_questions no_topic_block = [no_topic_item] /\
  video_link no_topic_item = generic_url /\
  (exists it,
     extract_days_and_questions bare_header = [it] /\
     video_link it = recursion_url) /\
  In recursion_item (extract_days_and_questions recursion_block) /\
  In (fallback_item bare_header (whole bare_header))
     (extract_days_and_questions bare_header) /\
  video_link recursion_item <> [].
Proof.
  destruct link_fallback as (_ & H1 & H2 & H3 & H4 & H5).
  destruct (H1 recursion_block) as (it & He & Hr & _);
    [reflexivity | apply no_scheme_no_url; reflexivity |].
  assert (Eit : it = recursion_item)
    by (vm_compute in He; inversion He; reflexivity).
  subst it.
  destruct (H1 no_topic_block) as (it' & He' & _ & Hn);
    [reflexivity | apply no_scheme_no_url; reflexivity |].
  assert (Eit' : it' = no_topic_item)
    by (vm_compute in He'; inversion He'; reflexivity).
  subst it'.
  destruct (H2 bare_header) as (it2 & He2 & Hr2 & _);
    [reflexivity | apply no_scheme_no_url; reflexivity |].
  split; [exact He | split; [apply Hr; reflexivity|]].
  split; [exact He' | split; [apply Hn; reflexivity|]].
  split.
  { exists it2; split; [exact He2|]; apply Hr2.
    vm_compute in He2; inversion He2; reflexivity. }
  split.
  { apply (H3 recursion_block recursion_block recursion_item);
      [vm_compute; left; reflexivity | vm_compute; reflexivity
      | apply no_scheme_no_url; reflexivity]. }
  split.
  { apply (H4 bare_header (whole bare_header));
      [vm_compute; reflexivity | vm_compute; left; reflexivity
      | apply no_scheme_no_url; reflexivity]. }
  apply (H5 recursion_block); rewrite He; left; reflexivity.
Defined.

(** * Links that run up to the next white space *)

Section GreedyEnd.
Variable A : Type.
Variable f : flags.




End GreedyEnd.


(** ** The links of a text whose links all have the token *)



















